(** * Canadian Helper: punishment lifecycle, store and duration engine

    A shallow embedding of the moderation bot's core:
    - [Python]: exceptions, and the digit limit of [int] and [str];
    - [Utils]: duration parsing and formatting ([utils.py]);
    - [DataManager]: the JSON-backed sanction store and the policy
      engine ([data_manager.py]);
    - [Events]: the table of scheduled reversal tasks ([events.py]);
    - [Commands]: the store/scheduler core of the [reduce] command
      ([commands.py]).

    Conventions.  Python [int] is [Z]; a value that may be [None] is an
    [option]; a [dict] used as a map is a [gmap]; a list of JSON records
    is a [list] of Rocq records; a call that may raise hands back an
    [outcome].  Text is a [string] whose characters are code points
    below 256, so the section sign U+00A7 used in rule references is
    the single character 167; text with other characters is outside
    the model. *)

From stdpp Require Import gmap strings list pretty.
From Stdlib Require Import ZArith Ascii Lia.

Local Open Scope string_scope.
Local Open Scope list_scope.
Local Open Scope Z_scope.

(* ===================================================================== *)
(** * The interpreter: exceptions and the digit limit of [int]            *)
(* ===================================================================== *)

Module Python.

(** What a function that may raise hands back. *)
Inductive outcome (A : Type) : Type :=
| Returned (a : A)
| Raised (msg : string).
Arguments Returned {A} a.
Arguments Raised {A} msg.

(** [sys.int_info.default_max_str_digits], which the program leaves as
    it is: [int(text)] refuses a text of more decimal digits, and an
    [int] of more decimal digits is not rendered as text; both raise
    [ValueError]. *)
Definition default_max_str_digits : nat := 4300.

(** The least integer that has more decimal digits than that. *)
Definition int_str_limit : Z := 10 ^ 4300.
Arguments int_str_limit : simpl never.

(** [str(n)], also inside an f-string. *)
Definition str_of_int (n : Z) : outcome string :=
  if int_str_limit <=? Z.abs n then Raised "ValueError"
  else Returned (pretty n).

(** [json.dump] writes an int with the same conversion: it raises
    ValueError on an int that [str] refuses. *)
Definition json_int_ok (n : Z) : bool := Z.abs n <? int_str_limit.

End Python.

Import Python.

(* ===================================================================== *)
(** * utils.py: time parsing functions                                    *)
(* ===================================================================== *)

Module Utils.

(** ** Character classes, as Python's [str] methods and [re] see them
    on code points below 256. *)

Definition code (c : ascii) : Z := Z.of_N (N_of_ascii c).

(** [\d]: the decimal digits. *)
Definition is_digit (c : ascii) : bool :=
  (48 <=? code c) && (code c <=? 57).

(** [\s]: what [str.isspace] accepts. *)
Definition is_space (c : ascii) : bool :=
  let n := code c in
  ((9 <=? n) && (n <=? 13)) || ((28 <=? n) && (n <=? 32))
  || (n =? 133) || (n =? 160).

(** [str.lower] on one character: A-Z, and the accented capitals
    U+00C0..U+00DE without the multiplication sign U+00D7. *)
Definition lower_char (c : ascii) : ascii :=
  let n := code c in
  if ((65 <=? n) && (n <=? 90))
     || ((192 <=? n) && (n <=? 222) && negb (n =? 215))
  then ascii_of_N (Z.to_N (n + 32))
  else c.

Fixpoint lower (s : string) : string :=
  match s with
  | EmptyString => EmptyString
  | String c s' => String (lower_char c) (lower s')
  end.

(** The longest prefix of digits, and what follows it. *)
Fixpoint span_digits (s : string) : string * string :=
  match s with
  | EmptyString => (EmptyString, EmptyString)
  | String c s' =>
      if is_digit c
      then let '(ds, rest) := span_digits s' in (String c ds, rest)
      else (EmptyString, s)
  end.

Definition digit_value (c : ascii) : Z := code c - 48.

(** The value of a string of decimal digits, read from the left. *)
Fixpoint int_of_digits_from (acc : Z) (s : string) : Z :=
  match s with
  | EmptyString => acc
  | String c s' => int_of_digits_from (acc * 10 + digit_value c) s'
  end.

(** [int(amount)] on a string of decimal digits: the digits are counted,
    leading zeros included, and more than [default_max_str_digits] of
    them raise [ValueError]. *)
Definition int_of_digits (s : string) : outcome Z :=
  if (default_max_str_digits <? String.length s)%nat
  then Raised "ValueError"
  else Returned (int_of_digits_from 0 s).

Definition newline : string := String (ascii_of_N 10) EmptyString.

(** [$] without [re.MULTILINE]: the end of the string, or the position
    just before a newline that ends the string. *)
Definition at_dollar (s : string) : bool :=
  String.eqb s "" || String.eqb s newline.

(** [s] without its prefix [p], when it has that prefix. *)
Fixpoint strip_prefix (p s : string) : option string :=
  match p, s with
  | EmptyString, _ => Some s
  | String a p', String b s' =>
      if Ascii.eqb a b then strip_prefix p' s' else None
  | String _ _, EmptyString => None
  end.

(** The alternatives of the group [(mo|[wdhm])], in the order the
    matcher tries them. *)
Definition unit_alternatives : list string := ["mo"; "w"; "d"; "h"; "m"].

(** The group followed by [$]: the first alternative after which the
    end of the string is reached; an alternative that matches but does
    not lead to [$] is given up for the next one. *)
Fixpoint match_unit (alts : list string) (rest : string) : option string :=
  match alts with
  | [] => None
  | u :: alts' =>
      match strip_prefix u rest with
      | Some tl => if at_dollar tl then Some u else match_unit alts' rest
      | None => match_unit alts' rest
      end
  end.

(** [re.match(r'^(\d+)(mo|[wdhm])$', s)], returning [match.groups()].
    No alternative starts with a digit, so the greedy [\d+] can only
    succeed with the whole run of leading digits. *)
Definition match_duration (s : string) : option (string * string) :=
  let '(amount, rest) := span_digits s in
  if String.eqb amount "" then None else
  match match_unit unit_alternatives rest with
  | Some unit => Some (amount, unit)
  | None => None
  end.

(** [parse_time_duration(duration_str) -> Optional[int]]; the
    [ValueError] of [int(amount)] is not caught. *)
Definition parse_time_duration (duration_str : string)
  : outcome (option Z) :=
  if String.eqb (lower duration_str) "indefinite" then Returned None else
  match match_duration (lower duration_str) with
  | None => Returned None
  | Some (amount, unit) =>
      match int_of_digits amount with
      | Raised e => Raised e
      | Returned amount =>
          Returned
            (if String.eqb unit "mo" then Some (amount * 30 * 24 * 3600)
             else if String.eqb unit "w" then Some (amount * 7 * 24 * 3600)
             else if String.eqb unit "d" then Some (amount * 24 * 3600)
             else if String.eqb unit "h" then Some (amount * 3600)
             else if String.eqb unit "m" then Some (amount * 60)
             else None)
      end
  end.

(** [f"{n}{unit}"] *)
Definition with_unit (n : Z) (unit : string) : outcome string :=
  match str_of_int n with
  | Returned digits => Returned (digits +:+ unit)
  | Raised e => Raised e
  end.

(** [format_duration(seconds) -> str]; [//] is floor division and an
    f-string renders an [int] in decimal. *)
Definition format_duration (seconds : option Z) : outcome string :=
  match seconds with
  | None => Returned "indefinite"
  | Some seconds =>
      if seconds <? 60 then with_unit seconds "s"
      else if seconds <? 3600 then with_unit (seconds / 60) "m"
      else if seconds <? 86400 then with_unit (seconds / 3600) "h"
      else if seconds <? 604800 then with_unit (seconds / 86400) "d"
      else if seconds <? 2592000 then with_unit (seconds / 604800) "w"
      else with_unit (seconds / 2592000) "mo"
  end.

(** [validate_punishment_duration(duration_str) -> bool] *)
Definition validate_punishment_duration (duration_str : string)
  : outcome bool :=
  if String.eqb (lower duration_str) "indefinite" then Returned true
  else match parse_time_duration duration_str with
       | Returned (Some _) => Returned true
       | Returned None => Returned false
       | Raised e => Raised e
       end.

End Utils.

Import Utils.

(* ===================================================================== *)
(** * data_manager.py: the JSON store                                     *)
(* ===================================================================== *)

Module DataManager.

(** One element of ["logs"] in the sanctions file.  The fields are the
    JSON keys; a key read with [.get] and possibly absent or [null] is
    an [option]. *)
Record log_entry : Type := mk_log {
  id : Z;
  log_number : Z;
  guild_id : Z;
  user_id : Z;
  rule_violation : string;
  description : string;
  punishment : string;
  release_time : option Z;
  punishment_start : Z;
  moderator_id : option Z;
  retracted : bool;
  message_id : option Z;
  created_at : Z;
  updated_at : option Z;
  completed_at : option Z
}.

(** The sanctions document [{"logs": [...], "next_log_id": n}].  A file
    that is missing, empty or corrupt loads as [{}], which every reader
    sees as [empty_logs] through its [.get] defaults. *)
Record logs_data : Type := mk_logs_data {
  logs : list log_entry;
  next_log_id : Z
}.

Definition empty_logs : logs_data := mk_logs_data [] 1.

(** One element of ["temp_bans"]. *)
Record temp_ban : Type := mk_temp_ban {
  tb_guild_id : Z;
  tb_user_id : Z;
  tb_moderator_id : Z;
  tb_log_number : Z;
  tb_duration : string;
  tb_unban_time : option Z;
  tb_reason : string;
  tb_banned_at : Z;
  tb_unbanned : bool;
  tb_unbanned_at : option Z;
  tb_cancelled_early : bool;
  tb_cancelled_by : option Z
}.

(** One value of ["temp_ban_rules"]. *)
Record temp_ban_rule : Type := mk_temp_ban_rule {
  rule_description : option string;
  rule_duration : option string;
  rule_trigger : option string
}.

(** The punishment configuration document; a top-level key that is
    absent is [None]. *)
Record punishment_config : Type := mk_punishment_config {
  base_times : option (gmap string string);
  per_prior_offense : option (gmap string string);
  temp_ban_rules : option (gmap string temp_ban_rule);
  temp_ban_channel_id : option string
}.

(** The files of the data directory, and whether writing one of them
    succeeds ([save_json] catches the I/O error, which is taken to
    occur when the file is opened, and returns [False]). *)
Record store : Type := mk_store {
  logs_file : logs_data;
  temp_bans_file : list temp_ban;
  punishment_config_file : punishment_config;
  writable : bool
}.

(** [save_json(LOGS_FILE, data)]: write-then-rename, all or nothing. *)
Definition save_logs (st : store) (data : logs_data) : bool * store :=
  if writable st
  then (true, mk_store data (temp_bans_file st)
                (punishment_config_file st) (writable st))
  else (false, st).

(** [save_json(TEMP_BANS_FILE, data)] *)
Definition save_temp_bans (st : store) (bans : list temp_ban)
  : bool * store :=
  if writable st
  then (true, mk_store (logs_file st) bans
                (punishment_config_file st) (writable st))
  else (false, st).

(** [max(xs, default=d)] *)
Definition max_default (xs : list Z) (d : Z) : Z :=
  match xs with
  | [] => d
  | x :: xs' => fold_left Z.max xs' x
  end.

(** The loop shared by the in-place updates: walk the list, change the
    first element that satisfies [p] and stop; [None] when the loop
    runs off the end. *)
Fixpoint update_first {A : Type} (p : A -> bool) (f : A -> A)
  (l : list A) : option (list A) :=
  match l with
  | [] => None
  | x :: l' =>
      if p x then Some (f x :: l')
      else match update_first p f l' with
           | Some r => Some (x :: r)
           | None => None
           end
  end.

(** The test [log_number == n and guild_id == g] of the by-number
    operations. *)
Definition is_log (n g : Z) (log : log_entry) : bool :=
  (log_number log =? n) && (guild_id log =? g).

(** ** Log management *)

(** [create_log(...)], at wall-clock time [now]. *)
Definition create_log (now : Z) (st : store) (guild user : Z)
  (rule descr punish : string) (release : option Z)
  (start : option Z) (moderator : option Z) : outcome Z * store :=
  let punishment_start := default now start in
  let data := logs_file st in
  let guild_logs :=
    List.filter (fun log => (guild_id log =? guild) && negb (retracted log))
      (logs data) in
  let log_number := max_default (map log_number guild_logs) 0 + 1 in
  let log_entry :=
    {| id := next_log_id data;
       log_number := log_number;
       guild_id := guild;
       user_id := user;
       rule_violation := rule;
       description := descr;
       punishment := punish;
       release_time := release;
       punishment_start := punishment_start;
       moderator_id := moderator;
       retracted := false;
       message_id := None;
       created_at := now;
       updated_at := None;
       completed_at := None |} in
  let data' := mk_logs_data (logs data ++ [log_entry])
                 (next_log_id data + 1) in
  match save_logs st data' with
  | (true, st') => (Returned log_number, st')
  | (false, st') => (Raised "Failed to save log data", st')
  end.

(** The tuple [get_log] returns: user_id, rule_violation, description,
    punishment, message_id, guild_id, release_time, punishment_start,
    retracted, moderator_id. *)
Definition log_row : Type :=
  Z * string * string * string * option Z * Z * option Z * Z * bool
  * option Z.

Definition row_of (log : log_entry) : log_row :=
  (user_id log, rule_violation log, description log, punishment log,
   message_id log, guild_id log, release_time log, punishment_start log,
   retracted log, moderator_id log).

(** [get_log(log_number, guild_id)] *)
Fixpoint get_log_in (n g : Z) (l : list log_entry) : option log_row :=
  match l with
  | [] => None
  | log :: l' => if is_log n g log then Some (row_of log)
                 else get_log_in n g l'
  end.

Definition get_log (st : store) (n g : Z) : option log_row :=
  get_log_in n g (logs (logs_file st)).

(** The assignments of [update_log] to the matching record. *)
Definition apply_update (now : Z) (user : option Z)
  (rule descr punish : option string) (release : option Z)
  (log : log_entry) : log_entry :=
  {| id := id log;
     log_number := log_number log;
     guild_id := guild_id log;
     user_id := default (user_id log) user;
     rule_violation := default (rule_violation log) rule;
     description := default (description log) descr;
     punishment := default (punishment log) punish;
     release_time :=
       match release with Some r => Some r | None => release_time log end;
     punishment_start := punishment_start log;
     moderator_id := moderator_id log;
     retracted := retracted log;
     message_id := message_id log;
     created_at := created_at log;
     updated_at := Some now;
     completed_at := completed_at log |}.

(** [update_log(log_number, guild_id, ...)] *)
Definition update_log (now : Z) (st : store) (n g : Z) (user : option Z)
  (rule descr punish : option string) (release : option Z)
  : bool * store :=
  let data := logs_file st in
  match update_first (is_log n g)
          (apply_update now user rule descr punish release) (logs data) with
  | Some l => save_logs st (mk_logs_data l (next_log_id data))
  | None => (false, st)
  end.

(** [delete_log(log_number, guild_id)] *)
Definition delete_log (st : store) (n g : Z) : bool * store :=
  let data := logs_file st in
  let original_count := length (logs data) in
  let kept := List.filter (fun log => negb (is_log n g log)) (logs data) in
  if (length kept <? original_count)%nat
  then save_logs st (mk_logs_data kept (next_log_id data))
  else (false, st).

(** The assignments of [retract_log] to the matching record. *)
Definition apply_retract (now : Z) (retract : bool) (log : log_entry)
  : log_entry :=
  {| id := id log;
     log_number := log_number log;
     guild_id := guild_id log;
     user_id := user_id log;
     rule_violation := rule_violation log;
     description := description log;
     punishment := punishment log;
     release_time := if retract then None else release_time log;
     punishment_start := punishment_start log;
     moderator_id := moderator_id log;
     retracted := retract;
     message_id := message_id log;
     created_at := created_at log;
     updated_at := Some now;
     completed_at := completed_at log |}.

(** [retract_log(log_number, guild_id, retract=True)] *)
Definition retract_log (now : Z) (st : store) (n g : Z) (retract : bool)
  : bool * store :=
  let data := logs_file st in
  match update_first (is_log n g) (apply_retract now retract)
          (logs data) with
  | Some l => save_logs st (mk_logs_data l (next_log_id data))
  | None => (false, st)
  end.

(** [get_punishment_count(user_id, guild_id)]: the counting loop. *)
Fixpoint count_punishments (user guild : Z) (l : list log_entry)
  (count : Z) : Z :=
  match l with
  | [] => count
  | log :: l' =>
      if (user_id log =? user) && (guild_id log =? guild)
         && negb (retracted log)
      then count_punishments user guild l' (count + 1)
      else count_punishments user guild l' count
  end.

Definition get_punishment_count (st : store) (user guild : Z) : Z :=
  count_punishments user guild (logs (logs_file st)) 0.

(** [guild_id is None or log.get("guild_id") == guild_id] *)
Definition guild_selected (guild : option Z) (g : Z) : bool :=
  match guild with
  | None => true
  | Some g' => g =? g'
  end.

(** [get_active_punishments(guild_id=None)]: tuples user_id, guild_id,
    release_time, punishment_start. *)
Fixpoint active_punishments_in (guild : option Z) (l : list log_entry)
  : list (Z * Z * Z * Z) :=
  match l with
  | [] => []
  | log :: l' =>
      match release_time log with
      | Some r =>
          if negb (retracted log) && guild_selected guild (guild_id log)
          then (user_id log, guild_id log, r, punishment_start log)
               :: active_punishments_in guild l'
          else active_punishments_in guild l'
      | None => active_punishments_in guild l'
      end
  end.

Definition get_active_punishments (st : store) (guild : option Z)
  : list (Z * Z * Z * Z) :=
  active_punishments_in guild (logs (logs_file st)).

(** [get_expired_punishments(guild_id=None)] at time [now_ts]: tuples
    user_id, guild_id, release_time. *)
Fixpoint expired_punishments_in (now_ts : Z) (guild : option Z)
  (l : list log_entry) : list (Z * Z * Z) :=
  match l with
  | [] => []
  | log :: l' =>
      match release_time log with
      | Some r =>
          if (r <=? now_ts) && negb (retracted log)
             && guild_selected guild (guild_id log)
          then (user_id log, guild_id log, r)
               :: expired_punishments_in now_ts guild l'
          else expired_punishments_in now_ts guild l'
      | None => expired_punishments_in now_ts guild l'
      end
  end.

Definition get_expired_punishments (now_ts : Z) (st : store)
  (guild : option Z) : list (Z * Z * Z) :=
  expired_punishments_in now_ts guild (logs (logs_file st)).

(** The test of [mark_punishment_completed]: the exact triple. *)
Definition is_due (user guild release : Z) (log : log_entry) : bool :=
  (user_id log =? user) && (guild_id log =? guild)
  && bool_decide (release_time log = Some release).

(** Its assignments to the matching record. *)
Definition apply_completed (now : Z) (log : log_entry) : log_entry :=
  {| id := id log;
     log_number := log_number log;
     guild_id := guild_id log;
     user_id := user_id log;
     rule_violation := rule_violation log;
     description := description log;
     punishment := punishment log;
     release_time := None;
     punishment_start := punishment_start log;
     moderator_id := moderator_id log;
     retracted := retracted log;
     message_id := message_id log;
     created_at := created_at log;
     updated_at := updated_at log;
     completed_at := Some now |}.

(** [mark_punishment_completed(user_id, guild_id, release_time)] *)
Definition mark_punishment_completed (now : Z) (st : store)
  (user guild release : Z) : bool * store :=
  let data := logs_file st in
  match update_first (is_due user guild release) (apply_completed now)
          (logs data) with
  | Some l => save_logs st (mk_logs_data l (next_log_id data))
  | None => (false, st)
  end.

(** ** Punishment configuration and policy *)

(** [get_punishment_config()] *)
Definition get_punishment_config (st : store) : punishment_config :=
  punishment_config_file st.

Definition section_sign : ascii := ascii_of_N 167.

Fixpoint drop_while (p : ascii -> bool) (s : string) : string :=
  match s with
  | EmptyString => EmptyString
  | String c s' => if p c then drop_while p s' else s
  end.

(** One attempt of the pattern [§+\s*(\d+)] at the head of [s]; every
    piece is greedy and no piece can start where the previous one gave
    a character back, so the attempt is decided by the longest runs. *)
Definition match_rule_at (s : string) : option string :=
  match s with
  | String c s' =>
      if Ascii.eqb c section_sign then
        let after_signs := drop_while (Ascii.eqb section_sign) s' in
        let after_space := drop_while is_space after_signs in
        let '(digits, _) := span_digits after_space in
        if String.eqb digits "" then None else Some digits
      else None
  | EmptyString => None
  end.

(** [extract_rule_number(rule_violation)]: the group of the leftmost
    match, i.e. [re.findall(...)[0]]. *)
Fixpoint extract_rule_number (rule_violation : string) : option string :=
  match rule_violation with
  | EmptyString => None
  | String _ s' =>
      match match_rule_at rule_violation with
      | Some digits => Some digits
      | None => extract_rule_number s'
      end
  end.

(** [not config] for the loaded dictionary. *)
Definition config_is_empty (config : punishment_config) : bool :=
  match base_times config, per_prior_offense config,
        temp_ban_rules config, temp_ban_channel_id config with
  | None, None, None, None => true
  | _, _, _, _ => false
  end.

(** [x or d] for an [Optional[int]]: [None] and [0] are both falsy. *)
Definition int_or (x : option Z) (d : Z) : Z :=
  match x with
  | Some v => if v =? 0 then d else v
  | None => d
  end.

(** [table.get(rule_num, table.get("default", "2h"))] *)
Definition rule_entry (table : gmap string string) (rule_num : string)
  : string :=
  default (default "2h" (table !! "default")) (table !! rule_num).

(** [calculate_automatic_punishment(user_id, guild_id, rule_violation)];
    what [parse_time_duration] or [format_duration] raises is not
    caught. *)
Definition calculate_automatic_punishment (st : store) (user guild : Z)
  (rule_violation : string) : outcome string :=
  let config := get_punishment_config st in
  if config_is_empty config then Returned "2h" else
  let base := default ∅ (base_times config) in
  let per_prior := default ∅ (per_prior_offense config) in
  let rule_num := default "default" (extract_rule_number rule_violation) in
  let base_time_str := rule_entry base rule_num in
  if String.eqb (lower base_time_str) "indefinite"
  then Returned "indefinite" else
  let per_prior_str := rule_entry per_prior rule_num in
  let prior_count := get_punishment_count st user guild in
  match parse_time_duration base_time_str with
  | Raised e => Raised e
  | Returned base_parsed =>
      let base_seconds := int_or base_parsed 7200 in
      match parse_time_duration per_prior_str with
      | Raised e => Raised e
      | Returned per_prior_parsed =>
          let per_prior_seconds := int_or per_prior_parsed 0 in
          let total_seconds :=
            base_seconds + prior_count * per_prior_seconds in
          format_duration (Some total_seconds)
      end
  end.

(** [get_temp_ban_rules()] *)
Definition get_temp_ban_rules (st : store) : gmap string temp_ban_rule :=
  default ∅ (temp_ban_rules (get_punishment_config st)).

(** The dictionary [check_temp_ban_applicable] returns. *)
Record suggestion : Type := mk_suggestion {
  rule_key : string;
  sug_description : option string;
  sug_duration : option string;
  trigger : string;
  prior_offenses : option Z
}.

(** [check_temp_ban_applicable(rule_violation, user_id, guild_id)] *)
Definition check_temp_ban_applicable (st : store)
  (rule_violation : string) (user guild : Z) : option suggestion :=
  let rules := get_temp_ban_rules st in
  match extract_rule_number rule_violation with
  | None => None
  | Some rule_num =>
      match rules !! rule_num with
      | Some rule_info =>
          Some {| rule_key := rule_num;
                  sug_description :=
                    Some (default
                            (String section_sign (rule_num +:+ " violation"))
                            (rule_description rule_info));
                  sug_duration :=
                    Some (default "6mo" (rule_duration rule_info));
                  trigger := default "first_offense" (rule_trigger rule_info);
                  prior_offenses := None |}
      | None =>
          let prior_count := get_punishment_count st user guild in
          if 0 <? prior_count then
            let continued_key := rule_num +:+ "_continued" in
            match rules !! continued_key with
            | Some info =>
                Some {| rule_key := continued_key;
                        sug_description := rule_description info;
                        sug_duration := rule_duration info;
                        trigger := "continued";
                        prior_offenses := Some prior_count |}
            | None => None
            end
          else None
      end
  end.

(** ** Temp ban tracking *)

(** [create_temp_ban(...)] at time [now]; the file exists, as
    [init_temp_bans_storage] sees to. *)
Definition create_temp_ban (now : Z) (st : store)
  (guild user moderator log_no : Z) (duration : string)
  (unban_time : option Z) (reason : string) : bool * store :=
  let ban :=
    {| tb_guild_id := guild;
       tb_user_id := user;
       tb_moderator_id := moderator;
       tb_log_number := log_no;
       tb_duration := duration;
       tb_unban_time := unban_time;
       tb_reason := reason;
       tb_banned_at := now;
       tb_unbanned := false;
       tb_unbanned_at := None;
       tb_cancelled_early := false;
       tb_cancelled_by := None |} in
  save_temp_bans st (temp_bans_file st ++ [ban]).

(** [get_active_temp_bans(guild_id=None)] *)
Definition get_active_temp_bans (st : store) (guild : option Z)
  : list temp_ban :=
  List.filter
    (fun ban => negb (tb_unbanned ban)
                && guild_selected guild (tb_guild_id ban))
    (temp_bans_file st).

(** [get_expired_temp_bans(guild_id=None)] at time [now_ts]. *)
Definition get_expired_temp_bans (now_ts : Z) (st : store)
  (guild : option Z) : list temp_ban :=
  List.filter
    (fun ban =>
       match tb_unban_time ban with
       | Some t => (t <=? now_ts) && negb (tb_unbanned ban)
                   && guild_selected guild (tb_guild_id ban)
       | None => false
       end)
    (temp_bans_file st).

(** The test of [mark_temp_ban_completed]. *)
Definition is_due_ban (user guild unban_time : Z) (ban : temp_ban) : bool :=
  (tb_user_id ban =? user) && (tb_guild_id ban =? guild)
  && bool_decide (tb_unban_time ban = Some unban_time)
  && negb (tb_unbanned ban).

(** Its assignments to the matching record. *)
Definition apply_unbanned (now : Z) (ban : temp_ban) : temp_ban :=
  {| tb_guild_id := tb_guild_id ban;
     tb_user_id := tb_user_id ban;
     tb_moderator_id := tb_moderator_id ban;
     tb_log_number := tb_log_number ban;
     tb_duration := tb_duration ban;
     tb_unban_time := tb_unban_time ban;
     tb_reason := tb_reason ban;
     tb_banned_at := tb_banned_at ban;
     tb_unbanned := true;
     tb_unbanned_at := Some now;
     tb_cancelled_early := tb_cancelled_early ban;
     tb_cancelled_by := tb_cancelled_by ban |}.

(** [mark_temp_ban_completed(user_id, guild_id, unban_time)] *)
Definition mark_temp_ban_completed (now : Z) (st : store)
  (user guild unban_time : Z) : bool * store :=
  match update_first (is_due_ban user guild unban_time)
          (apply_unbanned now) (temp_bans_file st) with
  | Some l => save_temp_bans st l
  | None => (false, st)
  end.

End DataManager.

Import DataManager.

(* ===================================================================== *)
(** * events.py: scheduled reversal tasks                                 *)
(* ===================================================================== *)

Module Events.

(** A task handed to the event loop with [bot.loop.create_task]: the
    coroutine it runs ([remove_role_later] or [unban_later]), the
    arguments the coroutine closes over, and where the task stands. *)
Inductive task_kind : Type :=
| RoleRemoval
| TempUnban (log_no : Z).

Inductive task_state : Type :=
| Pending      (* sleeping until its release time *)
| Cancelled    (* [task.cancel()] reached it while it slept *)
| Finished.    (* its body ran *)

Record task : Type := mk_task {
  task_kind_of : task_kind;
  task_guild : Z;
  task_user : Z;
  task_time : Z;
  task_state_of : task_state
}.

(** The event loop's tasks (a handle is the position of its task) and
    the two module-level dictionaries from user id to handle. *)
Record scheduler : Type := mk_scheduler {
  loop_tasks : list task;
  scheduled_removals : gmap Z nat;
  scheduled_unbans : gmap Z nat
}.

Definition empty_scheduler : scheduler := mk_scheduler [] ∅ ∅.

Definition set_state (s : task_state) (t : task) : task :=
  mk_task (task_kind_of t) (task_guild t) (task_user t) (task_time t) s.

(** [task.cancel()]: a task that has not run yet will never run; a
    task that is over is left as it is. *)
Definition cancel_task_state (t : task) : task :=
  match task_state_of t with
  | Pending => set_state Cancelled t
  | _ => t
  end.

Definition cancel (h : nat) (tasks : list task) : list task :=
  alter cancel_task_state h tasks.

(** [schedule_role_removal(bot, guild_id, user_id, release_time)] *)
Definition schedule_role_removal (s : scheduler)
  (guild user release_time : Z) : scheduler :=
  let task := length (loop_tasks s) in
  mk_scheduler
    (loop_tasks s ++ [mk_task RoleRemoval guild user release_time Pending])
    (<[user := task]> (scheduled_removals s))
    (scheduled_unbans s).

(** [cancel_scheduled_removal(user_id)] *)
Definition cancel_scheduled_removal (s : scheduler) (user : Z)
  : scheduler :=
  match scheduled_removals s !! user with
  | Some h =>
      mk_scheduler (cancel h (loop_tasks s))
        (delete user (scheduled_removals s)) (scheduled_unbans s)
  | None => s
  end.

(** [schedule_temp_unban(bot, guild_id, user_id, unban_time, log_number)] *)
Definition schedule_temp_unban (s : scheduler)
  (guild user unban_time log_no : Z) : scheduler :=
  let tasks :=
    match scheduled_unbans s !! user with
    | Some h => cancel h (loop_tasks s)
    | None => loop_tasks s
    end in
  let task := length tasks in
  mk_scheduler
    (tasks ++ [mk_task (TempUnban log_no) guild user unban_time Pending])
    (scheduled_removals s)
    (<[user := task]> (scheduled_unbans s)).

(** [cancel_temp_unban(user_id)] *)
Definition cancel_temp_unban (s : scheduler) (user : Z)
  : bool * scheduler :=
  match scheduled_unbans s !! user with
  | Some h =>
      (true, mk_scheduler (cancel h (loop_tasks s))
               (scheduled_removals s) (delete user (scheduled_unbans s)))
  | None => (false, s)
  end.

(** [delay = max(0, release_time - now_ts)] at the head of both
    coroutines. *)
Definition delay (release_time now_ts : Z) : Z :=
  Z.max 0 (release_time - now_ts).

(** ** The chat platform, as far as the coroutines consult it: who is
    a member of the guild, who holds the Canada role, who is banned.
    The guild and the role themselves are taken to resolve. *)
Record platform : Type := mk_platform {
  members : gset Z;
  in_canada : gset Z;
  banned : gset Z
}.

(** The reversal calls made on the platform. *)
Inductive action : Type :=
| RemoveRoles (user : Z)
| Unban (user : Z).

Record world : Type := mk_world {
  w_store : store;
  w_sched : scheduler;
  w_platform : platform;
  w_trace : list action
}.

Definition finish (h : nat) (s : scheduler) : list task :=
  alter (set_state Finished) h (loop_tasks s).

(** The body of [remove_role_later] once its sleep is over, run at
    time [now] by the task with handle [h]; the platform is taken not
    to refuse the removal of the role. *)
Definition remove_role_later (now : Z) (h : nat) (t : task) (w : world)
  : world :=
  let user := task_user t in
  let p := w_platform w in
  if bool_decide (user ∈ members p) then
    let '(p', trace') :=
      if bool_decide (user ∈ in_canada p)
      then (mk_platform (members p) (in_canada p ∖ {[user]}) (banned p),
            w_trace w ++ [RemoveRoles user])
      else (p, w_trace w) in
    let st' := snd (mark_punishment_completed now (w_store w) user
                      (task_guild t) (task_time t)) in
    let s := w_sched w in
    mk_world st'
      (mk_scheduler (finish h s) (delete user (scheduled_removals s))
         (scheduled_unbans s))
      p' trace'
  else
    (* [discord.NotFound]: the member left; complete and return *)
    let st' := snd (mark_punishment_completed now (w_store w) user
                      (task_guild t) (task_time t)) in
    let s := w_sched w in
    mk_world st'
      (mk_scheduler (finish h s) (scheduled_removals s)
         (scheduled_unbans s))
      p (w_trace w).

(** The body of [unban_later] once its sleep is over. *)
Definition unban_later (now : Z) (h : nat) (t : task) (w : world)
  : world :=
  let user := task_user t in
  let p := w_platform w in
  let '(p', trace') :=
    if bool_decide (user ∈ banned p)
    then (mk_platform (members p) (in_canada p) (banned p ∖ {[user]}),
          w_trace w ++ [Unban user])
    else (p, w_trace w) (* [discord.NotFound] *) in
  let st' := snd (mark_temp_ban_completed now (w_store w) user
                    (task_guild t) (task_time t)) in
  let s := w_sched w in
  mk_world st'
    (mk_scheduler (finish h s) (scheduled_removals s)
       (delete user (scheduled_unbans s)))
    p' trace'.

(** The event loop resumes task [h] at time [now]: a pending task
    whose delay has elapsed runs its body; nothing else runs.  A body
    runs in one step: what other tasks do between its awaits is not
    followed. *)
Definition fire (now : Z) (h : nat) (w : world) : world :=
  match loop_tasks (w_sched w) !! h with
  | Some t =>
      match task_state_of t with
      | Pending =>
          if delay (task_time t) now =? 0 then
            match task_kind_of t with
            | RoleRemoval => remove_role_later now h t w
            | TempUnban _ => unban_later now h t w
            end
          else w
      | _ => w
      end
  | None => w
  end.

End Events.

Import Events.

(* ===================================================================== *)
(** * commands.py: the store and scheduler steps of [/reduce]             *)
(* ===================================================================== *)

Module Commands.

(** ** [/canada] *)

(** The replies of [/canada] that matter to the store; [CanadaRaised]
    stands for an exception that leaves the command. *)
Inductive canada_reply : Type :=
| InvalidPunishmentDuration
| UserAlreadyInCanada
| DatabaseError
| SentToCanada (log_number : Z)
| CanadaRaised (msg : string).

(** [not s] for an optional text: [None] and the empty text. *)
Definition no_text (s : option string) : bool :=
  match s with
  | Some t => String.eqb t ""
  | None => true
  end.

(** The checks [canada] makes when the command arrives, for a caller
    with access and a configured role: [Some] is the refusal sent back,
    [None] lets the command go on. *)
Definition canada_checks (w : world) (user : Z) (punishment : option string)
  : option canada_reply :=
  let already :=
    if bool_decide (user ∈ in_canada (w_platform w))
    then Some UserAlreadyInCanada
    else None in
  if no_text punishment then already
  else
    match validate_punishment_duration (default "" punishment) with
    | Raised e => Some (CanadaRaised e)
    | Returned false => Some InvalidPunishmentDuration
    | Returned true => already
    end.

(** What [canada] does after its checks when the command names the
    rule.  (The nested [process_punishment] of the rule selector has the
    same body, but [rule_select] does not get there: its pattern does
    not match the options of [RULE_VIOLATIONS], so it indexes an empty
    list and raises.)  The role is granted, no log channel is
    configured, and the messages to channels and to the member leave no
    trace in the store. *)
Definition process_punishment (now : Z) (w : world)
  (guild user moderator : Z) (descr : string) (punishment : option string)
  (selected_rule : string) : canada_reply * world :=
  let actual :=
    if no_text punishment
    then calculate_automatic_punishment (w_store w) user guild selected_rule
    else Returned (default "" punishment) in
  match actual with
  | Raised e => (CanadaRaised e, w)
  | Returned actual_punishment =>
      let punishment_start := now in
      match parse_time_duration actual_punishment with
      | Raised e => (CanadaRaised e, w)
      | Returned duration_seconds =>
          let release_time :=
            match duration_seconds with
            | Some d => if d =? 0 then None else Some (punishment_start + d)
            | None => None
            end in
          if negb (json_int_ok (default 0 release_time))
          then (* [json.dump] raises inside [create_log], which the
                  command catches with the other exceptions *)
            (DatabaseError, w)
          else
          match create_log now (w_store w) guild user selected_rule descr
                  actual_punishment release_time (Some punishment_start)
                  (Some moderator) with
          | (Raised _, _) => (DatabaseError, w)
          | (Returned log_number, st') =>
              let p := w_platform w in
              let p' :=
                mk_platform (members p) (in_canada p ∪ {[user]})
                  (banned p) in
              let s' :=
                match release_time with
                | Some r =>
                    if r =? 0 then w_sched w
                    else schedule_role_removal (w_sched w) guild user r
                | None => w_sched w
                end in
              (SentToCanada log_number, mk_world st' s' p' (w_trace w))
          end
      end
  end.

(** [canada(interaction, user, description, rule_violation, punishment)]
    with the rule given. *)
Definition canada (now : Z) (w : world) (guild user moderator : Z)
  (descr rule_violation : string) (punishment : option string)
  : canada_reply * world :=
  match canada_checks w user punishment with
  | Some refusal => (refusal, w)
  | None =>
      process_punishment now w guild user moderator descr punishment
        rule_violation
  end.

(** ** [/reduce] *)


(** [log_data[0]], [log_data[6]], [log_data[7]] *)
Definition row_user (r : log_row) : Z :=
  let '(u, _, _, _, _, _, _, _, _, _) := r in u.
Definition row_release_time (r : log_row) : option Z :=
  let '(_, _, _, _, _, _, rt, _, _, _) := r in rt.
Definition row_punishment_start (r : log_row) : Z :=
  let '(_, _, _, _, _, _, _, ps, _, _) := r in ps.


End Commands.

Import Commands.

(* ===================================================================== *)
(** * Specification-side vocabulary                                       *)
(* ===================================================================== *)

(** ** Durations *)

(** The unit tokens of a duration and their length in seconds. *)
Definition unit_table : list (string * Z) :=
  [("mo", 2592000); ("w", 604800); ("d", 86400); ("h", 3600); ("m", 60)].

Fixpoint all_digits (s : string) : bool :=
  match s with
  | EmptyString => true
  | String c s' => is_digit c && all_digits s'
  end.

Definition starts_with_digit (s : string) : bool :=
  match s with
  | EmptyString => false
  | String c _ => is_digit c
  end.

(** The number a run of decimal digits denotes: each digit counts for
    its value times ten to the number of digits after it. *)
Fixpoint decimal_value (ds : string) : Z :=
  match ds with
  | EmptyString => 0
  | String c ds' =>
      digit_value c * 10 ^ Z.of_nat (String.length ds') + decimal_value ds'
  end.

(** A well-formed duration token, the digits of its amount and the
    seconds it denotes: one or more digits, one unit, and at most the
    newline that [$] tolerates. *)
Inductive valid_token : string -> string -> Z -> Prop :=
| valid_token_intro (ds u tail : string) (secs : Z) :
    ds <> "" ->
    all_digits ds = true ->
    In (u, secs) unit_table ->
    tail = "" \/ tail = newline ->
    valid_token (ds +:+ u +:+ tail) ds (decimal_value ds * secs).

(** An amount that [int] still reads. *)
Definition readable (ds : string) : Prop :=
  (String.length ds <= default_max_str_digits)%nat.

(** [c], [n] times. *)
Fixpoint repeat_char (c : ascii) (n : nat) : string :=
  match n with
  | O => EmptyString
  | S n' => String c (repeat_char c n')
  end.

(** A valid token of one digit more than [int] reads: 4301 ones and
    the unit of minutes. *)
Definition long_token : string :=
  repeat_char "1"%char 4301 +:+ "m".

(** Rendering, parsing and rendering again gives the first rendering. *)
Definition restabilises (s : Z) : Prop :=
  exists text parsed,
    format_duration (Some s) = Returned text
    /\ parse_time_duration text = Returned parsed
    /\ format_duration parsed = Returned text.

(** A time in seconds that the store can hold and the messages can
    show. *)
Definition storable (t : Z) : Prop := Z.abs t < int_str_limit.

(** ** The store *)


(** The key of [mark_punishment_completed], spelled on the fields. *)
Definition same_triple (user guild release : Z) (log : log_entry) : Prop :=
  user_id log = user /\ guild_id log = guild
  /\ release_time log = Some release.


(** A store that differs from [st] in its sanctions list only. *)
Definition with_logs (st : store) (l : list log_entry) : store :=
  mk_store (mk_logs_data l (next_log_id (logs_file st)))
    (temp_bans_file st) (punishment_config_file st) (writable st).

(** A store that differs from [st] in its punishment configuration. *)
Definition with_config (st : store) (config : punishment_config) : store :=
  mk_store (logs_file st) (temp_bans_file st) config (writable st).

(** ** The policy engine *)

(** The text that starts with the section sign and goes on with [s]. *)
Definition rule_ref (s : string) : string := String section_sign s.

(** Every character of [s] satisfies [p]. *)
Fixpoint all_chars (p : ascii -> bool) (s : string) : bool :=
  match s with
  | EmptyString => true
  | String c s' => p c && all_chars p s'
  end.

Definition is_sign (c : ascii) : bool := Ascii.eqb c section_sign.

(** [s] starts with a rule reference to rule [ds]: one or more section
    signs, any white space, and the digits [ds], which end where [s]
    ends or goes on with another character than a digit. *)
Definition rule_at_head (s ds : string) : Prop :=
  exists signs ws rest,
    s = signs +:+ ws +:+ ds +:+ rest
    /\ signs <> "" /\ all_chars is_sign signs = true
    /\ all_chars is_space ws = true
    /\ ds <> "" /\ all_digits ds = true
    /\ starts_with_digit rest = false.

(** The rule a text names: the rule of the leftmost rule reference in
    it, if there is one. *)
Inductive names_rule : string -> option string -> Prop :=
| names_rule_here (s ds : string) :
    rule_at_head s ds -> names_rule s (Some ds)
| names_rule_later (c : ascii) (s : string) (r : option string) :
    (forall ds, ~ rule_at_head (String c s) ds) ->
    names_rule s r -> names_rule (String c s) r
| names_rule_nowhere : names_rule "" None.

(** The key under which the tables are consulted for a named rule. *)
Definition rule_key_of (r : option string) : string :=
  match r with
  | Some ds => ds
  | None => "default"
  end.

(** The entry a table of the punishment configuration holds for a rule:
    the rule's own entry, else the entry under "default", else "2h";
    a missing table is an empty one. *)
Definition configured (table : option (gmap string string)) (rule : string)
  : string :=
  match table with
  | Some t =>
      match t !! rule, t !! "default" with
      | Some v, _ => v
      | None, Some v => v
      | None, None => "2h"
      end
  | None => "2h"
  end.

(** The punishment configuration file is missing or holds [{}]. *)
Definition no_config : punishment_config :=
  mk_punishment_config None None None None.

(** The seconds a parsed entry contributes: its value, or [fallback]
    when the entry did not parse or its value is zero. *)
Definition seconds_or (parsed : option Z) (fallback : Z) : Z :=
  match parsed with
  | Some 0 | None => fallback
  | Some v => v
  end.

(** The non-retracted sanctions of [user] in [guild]. *)
Definition prior_offenses_of (user guild : Z) (l : list log_entry)
  : list log_entry :=
  List.filter
    (fun log => bool_decide (user_id log = user /\ guild_id log = guild
                             /\ retracted log = false))
    l.

(** ** Timers, as an observer of the scheduler sees them *)

Definition is_removal (k : task_kind) : bool :=
  match k with RoleRemoval => true | TempUnban _ => false end.

Definition is_pending (t : task) : bool :=
  match task_state_of t with Pending => true | _ => false end.

(** The handles of the tasks of one sort that still wait to reverse
    the sanction of [user]. *)
Definition live_timers (removal : bool) (user : Z) (s : scheduler)
  : list nat :=
  map fst
    (List.filter
       (fun ht : nat * task =>
          let t := snd ht in
          is_pending t && (task_user t =? user)
          && Bool.eqb (is_removal (task_kind_of t)) removal)
       (imap (fun h t => (h, t)) (loop_tasks s))).

(** The dictionary that registers the handles of one sort of task. *)
Definition registry (removal : bool) (s : scheduler) : gmap Z nat :=
  if removal then scheduled_removals s else scheduled_unbans s.

(** Every task of the given sort that still waits is the one its
    subject's dictionary entry points to; so each subject has at most
    one live timer of that sort. *)
Definition registered_only (removal : bool) (s : scheduler) : Prop :=
  forall (user : Z) (h : nat),
    In h (live_timers removal user s) -> registry removal s !! user = Some h.

(* ===================================================================== *)
(** * Sample states                                                       *)
(* ===================================================================== *)

(** The data directory as [init_data_storage] leaves it on first start:
    no sanction, no temp ban, no punishment configuration. *)
Definition init_data_storage : store :=
  mk_store empty_logs [] (mk_punishment_config None None None None) true.

(** What [create_log] leaves behind, whatever it returned. *)
Definition after_create (now : Z) (st : store) (guild user : Z)
  (punish : string) (release : option Z) : store :=
  snd (create_log now st guild user "rule 2" "spam" punish release (Some now)
         (Some 99)).

(** Two sanctions of member 7 of guild 1 are stored, at 0 for two hours
    and at 3600 for one hour: both end at 7200. *)
Definition two_sanctions_one_release : store :=
  after_create 3600 (after_create 0 init_data_storage 1 7 "2h" (Some 7200))
    1 7 "1h" (Some 7200).

(** Member 7 of guild 1 is banned at 100 until 500 (log 3). *)
Definition one_temp_ban : store :=
  snd (create_temp_ban 100 init_data_storage 1 7 99 3 "400m" (Some 500)
         "Temp ban for log #3").

(** A configuration with a default base of two hours, two more hours per
    prior offense, a day for rule 3, no end for rule 9, and temp-ban
    suggestions for rule 8 and for repeated breaches of rules 3 and 8. *)
Definition sample_config : punishment_config :=
  mk_punishment_config
    (Some (<["default" := "2h"]>
             (<["3" := "1d"]> (<["9" := "Indefinite"]> ∅))))
    (Some (<["default" := "2h"]> ∅))
    (Some (<["8" := mk_temp_ban_rule (Some "Doxxing") (Some "6mo") None]>
             (<["8_continued" :=
                  mk_temp_ban_rule (Some "Repeated doxxing") (Some "12mo")
                    None]>
                (<["3_continued" :=
                     mk_temp_ban_rule (Some "Repeated spam") (Some "1mo")
                       None]> ∅))))
    None.

(** [two_sanctions_one_release] under [sample_config]. *)
Definition configured_store : store :=
  with_config two_sanctions_one_release sample_config.

(** Guild 1 on first start, with member 7 and nobody in Canada. *)
Definition quiet_guild : world :=
  mk_world init_data_storage empty_scheduler (mk_platform {[7]} ∅ ∅) [].

(** A moderator takes the Canada role from a member by hand, in the
    platform's own role dialog: the bot is not told, and neither the
    store nor the scheduled tasks change. *)
Definition role_taken_by_hand (w : world) (user : Z) : world :=
  let p := w_platform w in
  mk_world (w_store w) (w_sched w)
    (mk_platform (members p) (in_canada p ∖ {[user]}) (banned p))
    (w_trace w).

(** Member 7 is sent to Canada at 0 for two hours, with the rule named
    in the command; a moderator takes the role away by hand; at 15 the
    member is sent to Canada again, for one day. *)
Definition twice_to_canada : world :=
  let w := snd (canada 0 quiet_guild 1 7 98 "spam" (rule_ref " 2")
                  (Some "2h")) in
  let w := role_taken_by_hand w 7 in
  snd (canada 15 w 1 7 99 "spam again" (rule_ref " 2") (Some "1d")).

(** Member 7 of guild 1 is sent to Canada at 0 for two hours. *)
Definition once_to_canada : world :=
  snd (canada 0 quiet_guild 1 7 99 "spam" (rule_ref " 2") (Some "2h")).

(** A sanction of member 7 of guild 1 is created at 0 for two hours and
    gets number 1; it is retracted at 50; at 100 member 7 is sanctioned
    again, for one day. *)
Definition renumbered_store : store :=
  let st := snd (create_log 0 init_data_storage 1 7 (rule_ref " 2") "spam"
                   "2h" (Some 7200) (Some 0) (Some 99)) in
  let st := snd (retract_log 50 st 1 1 true) in
  snd (create_log 100 st 1 7 (rule_ref " 2") "spam again" "1d"
         (Some 86500) (Some 100) (Some 99)).


(** A configuration whose default base is written "0m", with one hour
    more per prior offense, and a base for rule 4 that is no duration;
    member 7 of guild 1 has one prior sanction. *)
Definition zero_base_store : store :=
  with_config
    (after_create 0 init_data_storage 1 7 "2h" (Some 7200))
    (mk_punishment_config
       (Some (<["default" := "0m"]> (<["4" := "a while"]> ∅)))
       (Some (<["default" := "1h"]> ∅))
       None None).

(* ===================================================================== *)
(** * data_manager.py: the other files of the data directory              *)
(* ===================================================================== *)

Module Files.

(** One JSON file: the document it holds and whether writing it
    succeeds.  A file that is missing, empty or corrupt loads as [{}],
    the empty document of its type. *)
Record json_file (A : Type) : Type := mk_file {
  document : A;
  file_writable : bool
}.
Arguments mk_file {A} document file_writable.
Arguments document {A} j.
Arguments file_writable {A} j.

(** [load_json(file_path)] *)
Definition load_json {A : Type} (f : json_file A) : A := document f.

(** [save_json(file_path, data)]: write-then-rename, all or nothing. *)
Definition save_json {A : Type} (f : json_file A) (data : A)
  : bool * json_file A :=
  if file_writable f then (true, mk_file data (file_writable f))
  else (false, f).

End Files.

Import Files.

Module Warnings.

(** One element of ["warnings"]. *)
Record warning : Type := mk_warning {
  wn_id : Z;
  wn_number : Z;
  wn_guild_id : Z;
  wn_user_id : Z;
  wn_reason : string;
  wn_moderator_id : Z;
  wn_created_at : Z;
  wn_message_id : option Z
}.

(** The document [{"warnings": [...], "next_warning_id": n}]. *)
Record warnings_data : Type := mk_warnings_data {
  warnings : list warning;
  next_warning_id : Z
}.

Definition empty_warnings : warnings_data := mk_warnings_data [] 1.

Definition is_warning (n g : Z) (w : warning) : bool :=
  (wn_number w =? n) && (wn_guild_id w =? g).

(** [create_warning(guild_id, user_id, reason, moderator_id)] at time
    [now]; [-1] reports a failed save. *)
Definition create_warning (now : Z) (f : json_file warnings_data)
  (guild user : Z) (reason : string) (moderator : Z)
  : Z * json_file warnings_data :=
  let data := load_json f in
  let guild_warnings :=
    List.filter (fun w => wn_guild_id w =? guild) (warnings data) in
  let warning_number := max_default (map wn_number guild_warnings) 0 + 1 in
  let warning_entry :=
    {| wn_id := next_warning_id data;
       wn_number := warning_number;
       wn_guild_id := guild;
       wn_user_id := user;
       wn_reason := reason;
       wn_moderator_id := moderator;
       wn_created_at := now;
       wn_message_id := None |} in
  let data' := mk_warnings_data (warnings data ++ [warning_entry])
                 (next_warning_id data + 1) in
  match save_json f data' with
  | (true, f') => (warning_number, f')
  | (false, f') => (-1, f')
  end.

(** [delete_warning(warning_number, guild_id)] *)
Definition delete_warning (f : json_file warnings_data) (n g : Z)
  : bool * json_file warnings_data :=
  let data := load_json f in
  let original_count := length (warnings data) in
  let kept := List.filter (fun w => negb (is_warning n g w)) (warnings data) in
  if (length kept <? original_count)%nat
  then save_json f (mk_warnings_data kept (next_warning_id data))
  else (false, f).

(** [get_warning(warning_number, guild_id)] *)
Fixpoint get_warning_in (n g : Z) (l : list warning) : option warning :=
  match l with
  | [] => None
  | w :: l' => if is_warning n g w then Some w else get_warning_in n g l'
  end.

Definition get_warning (f : json_file warnings_data) (n g : Z)
  : option warning :=
  get_warning_in n g (warnings (load_json f)).

Definition set_warning_message (m : Z) (w : warning) : warning :=
  {| wn_id := wn_id w;
     wn_number := wn_number w;
     wn_guild_id := wn_guild_id w;
     wn_user_id := wn_user_id w;
     wn_reason := wn_reason w;
     wn_moderator_id := wn_moderator_id w;
     wn_created_at := wn_created_at w;
     wn_message_id := Some m |}.

(** [update_warning_message_id(warning_number, guild_id, message_id)] *)
Definition update_warning_message_id (f : json_file warnings_data)
  (n g m : Z) : bool * json_file warnings_data :=
  let data := load_json f in
  match update_first (is_warning n g) (set_warning_message m)
          (warnings data) with
  | Some l => save_json f (mk_warnings_data l (next_warning_id data))
  | None => (false, f)
  end.

(** [get_user_warnings(user_id, guild_id)]: tuples warning_number,
    reason, created_at. *)
Fixpoint user_warnings_in (user guild : Z) (l : list warning)
  : list (Z * string * Z) :=
  match l with
  | [] => []
  | w :: l' =>
      if (wn_user_id w =? user) && (wn_guild_id w =? guild)
      then (wn_number w, wn_reason w, wn_created_at w)
           :: user_warnings_in user guild l'
      else user_warnings_in user guild l'
  end.

Definition get_user_warnings (f : json_file warnings_data) (user guild : Z)
  : list (Z * string * Z) :=
  user_warnings_in user guild (warnings (load_json f)).

(** [get_warning_count(user_id, guild_id)]: the counting loop. *)
Fixpoint count_warnings (user guild : Z) (l : list warning) (count : Z) : Z :=
  match l with
  | [] => count
  | w :: l' =>
      if (wn_user_id w =? user) && (wn_guild_id w =? guild)
      then count_warnings user guild l' (count + 1)
      else count_warnings user guild l' count
  end.

Definition get_warning_count (f : json_file warnings_data) (user guild : Z)
  : Z :=
  count_warnings user guild (warnings (load_json f)) 0.

End Warnings.

Import Warnings.

Module Config.

(** [get_config(key)] *)
Definition get_config (f : json_file (gmap string string)) (key : string)
  : option string :=
  load_json f !! key.

(** [set_config(key, value)] *)
Definition set_config (f : json_file (gmap string string))
  (key value : string) : bool * json_file (gmap string string) :=
  save_json f (<[key := value]> (load_json f)).

(** [get_log_channel_id()] and [set_log_channel_id(channel_id)] *)
Definition get_log_channel_id (f : json_file (gmap string string))
  : option string :=
  get_config f "log_channel_id".

Definition set_log_channel_id (f : json_file (gmap string string))
  (channel_id : string) : bool * json_file (gmap string string) :=
  set_config f "log_channel_id" channel_id.

(** [get_canada_role_id_str()] and [set_canada_role_id(role_id)] *)
Definition get_canada_role_id_str (f : json_file (gmap string string))
  : option string :=
  get_config f "canada_role_id".

Definition set_canada_role_id (f : json_file (gmap string string))
  (role_id : string) : bool * json_file (gmap string string) :=
  set_config f "canada_role_id" role_id.

End Config.

Import Config.

Module Roles.

(** The role allow-list: guild id, as text, to the list of role ids. *)
Abbreviation roles_doc := (gmap string (list Z)).

(** [str(guild_id)] *)
Definition guild_key (guild : Z) : string := pretty guild.

(** [get_allowed_roles(guild_id)] *)
Definition get_allowed_roles (f : json_file roles_doc) (guild : Z) : list Z :=
  default [] (load_json f !! guild_key guild).

(** [add_allowed_role(guild_id, role_id)] *)
Definition add_allowed_role (f : json_file roles_doc) (guild role : Z)
  : bool * json_file roles_doc :=
  let data := load_json f in
  let key := guild_key guild in
  let data :=
    match data !! key with
    | Some _ => data
    | None => <[key := []]> data
    end in
  let guild_roles := default [] (data !! key) in
  if bool_decide (role ∈ guild_roles) then (false, f)
  else save_json f (<[key := guild_roles ++ [role]]> data).

(** [l.remove(x)]: the first occurrence goes. *)
Fixpoint remove_first (x : Z) (l : list Z) : list Z :=
  match l with
  | [] => []
  | y :: l' => if y =? x then l' else y :: remove_first x l'
  end.

(** [remove_allowed_role(guild_id, role_id)] *)
Definition remove_allowed_role (f : json_file roles_doc) (guild role : Z)
  : bool * json_file roles_doc :=
  let data := load_json f in
  let key := guild_key guild in
  match data !! key with
  | Some guild_roles =>
      if bool_decide (role ∈ guild_roles) then
        let remaining := remove_first role guild_roles in
        match remaining with
        | [] => save_json f (delete key data)
        | _ => save_json f (<[key := remaining]> data)
        end
      else (false, f)
  | None => (false, f)
  end.

(** [is_role_allowed(guild_id, role_id)] *)
Definition is_role_allowed (f : json_file roles_doc) (guild role : Z)
  : bool :=
  bool_decide (role ∈ default [] (load_json f !! guild_key guild)).

(** [user_has_access(interaction)] of [utils.py], for a caller with the
    given administrator permission and roles. *)
Definition user_has_access (f : json_file roles_doc) (guild : Z)
  (administrator : bool) (user_role_ids : list Z) : bool :=
  if administrator then true
  else
    let allowed_role_ids := get_allowed_roles f guild in
    existsb (fun role_id => bool_decide (role_id ∈ allowed_role_ids))
      user_role_ids.

End Roles.

Import Roles.

(* ===================================================================== *)
(** * data_manager.py: further operations on sanctions and temp bans      *)
(* ===================================================================== *)

Module LogStore.

(** [ALLOWED_GUILD_ID] of [bot_config.py]. *)
Definition ALLOWED_GUILD_ID : Z := 654458344781774879.

Definition set_message_id (m : Z) (log : log_entry) : log_entry :=
  {| id := id log;
     log_number := log_number log;
     guild_id := guild_id log;
     user_id := user_id log;
     rule_violation := rule_violation log;
     description := description log;
     punishment := punishment log;
     release_time := release_time log;
     punishment_start := punishment_start log;
     moderator_id := moderator_id log;
     retracted := retracted log;
     message_id := Some m;
     created_at := created_at log;
     updated_at := updated_at log;
     completed_at := completed_at log |}.

(** [update_log_message_id(log_number, guild_id, message_id)] *)
Definition update_log_message_id (st : store) (n g m : Z) : bool * store :=
  let data := logs_file st in
  match update_first (is_log n g) (set_message_id m) (logs data) with
  | Some l => save_logs st (mk_logs_data l (next_log_id data))
  | None => (false, st)
  end.

(** [get_user_punishments(user_id, guild_id, include_retracted=True)]:
    tuples log_number, rule_violation, description, retracted. *)
Fixpoint user_punishments_in (user guild : Z) (include_retracted : bool)
  (l : list log_entry) : list (Z * string * string * bool) :=
  match l with
  | [] => []
  | log :: l' =>
      if (user_id log =? user) && (guild_id log =? guild)
         && (include_retracted || negb (retracted log))
      then (log_number log, rule_violation log, description log,
            retracted log)
           :: user_punishments_in user guild include_retracted l'
      else user_punishments_in user guild include_retracted l'
  end.

Definition get_user_punishments (st : store) (user guild : Z)
  (include_retracted : bool) : list (Z * string * string * bool) :=
  user_punishments_in user guild include_retracted (logs (logs_file st)).

(** [cleanup_other_guild_data()]: the number of records removed; the
    outcome of the save is not looked at. *)
Definition cleanup_other_guild_data (st : store) : Z * store :=
  let data := logs_file st in
  let original_count := Z.of_nat (length (logs data)) in
  let filtered_logs :=
    List.filter (fun log => guild_id log =? ALLOWED_GUILD_ID) (logs data) in
  let new_count := Z.of_nat (length filtered_logs) in
  let removed_count := original_count - new_count in
  if 0 <? removed_count
  then (removed_count,
        snd (save_logs st (mk_logs_data filtered_logs (next_log_id data))))
  else (0, st).

(** [get_temp_ban_for_user(user_id, guild_id)] *)
Fixpoint first_ban_of (user : Z) (l : list temp_ban) : option temp_ban :=
  match l with
  | [] => None
  | ban :: l' => if tb_user_id ban =? user then Some ban
                 else first_ban_of user l'
  end.

Definition get_temp_ban_for_user (st : store) (user guild : Z)
  : option temp_ban :=
  first_ban_of user (get_active_temp_bans st (Some guild)).

(** The test of [cancel_temp_ban_record]. *)
Definition is_active_ban (user guild : Z) (ban : temp_ban) : bool :=
  (tb_user_id ban =? user) && (tb_guild_id ban =? guild)
  && negb (tb_unbanned ban).

(** Its assignments to the matching record. *)
Definition apply_cancelled (now cancelled_by : Z) (ban : temp_ban)
  : temp_ban :=
  {| tb_guild_id := tb_guild_id ban;
     tb_user_id := tb_user_id ban;
     tb_moderator_id := tb_moderator_id ban;
     tb_log_number := tb_log_number ban;
     tb_duration := tb_duration ban;
     tb_unban_time := tb_unban_time ban;
     tb_reason := tb_reason ban;
     tb_banned_at := tb_banned_at ban;
     tb_unbanned := true;
     tb_unbanned_at := Some now;
     tb_cancelled_early := true;
     tb_cancelled_by := Some cancelled_by |}.

(** [cancel_temp_ban_record(user_id, guild_id, cancelled_by)] *)
Definition cancel_temp_ban_record (now : Z) (st : store)
  (user guild cancelled_by : Z) : bool * store :=
  match update_first (is_active_ban user guild)
          (apply_cancelled now cancelled_by) (temp_bans_file st) with
  | Some l => save_temp_bans st l
  | None => (false, st)
  end.

End LogStore.

Import LogStore.

(* ===================================================================== *)
(** * events.py: the sweep, the restart and the shutdown                  *)
(* ===================================================================== *)

Module Sweep.

(** What can go wrong on the platform side while the background tasks
    run: the guild or the role does not resolve, fetching a member
    fails for another reason than the absence of the member, a role
    removal or an unban is refused, granting the role is refused. *)
Record faults : Type := mk_faults {
  guild_known : bool;
  role_known : bool;
  fetch_fails : gset Z;
  remove_fails : gset Z;
  unban_fails : gset Z;
  add_fails : gset Z
}.

Definition no_faults : faults := mk_faults true true ∅ ∅ ∅ ∅.

(** [guild.get_member(user_id)], then [guild.fetch_member(user_id)]. *)
Inductive member_lookup : Type :=
| Found
| NotFound
| LookupError.

Definition find_member (e : faults) (p : platform) (user : Z)
  : member_lookup :=
  if bool_decide (user ∈ fetch_fails e) then LookupError
  else if bool_decide (user ∈ members p) then Found
  else NotFound.

Definition with_store (w : world) (st : store) : world :=
  mk_world st (w_sched w) (w_platform w) (w_trace w).

Definition with_sched (w : world) (s : scheduler) : world :=
  mk_world (w_store w) s (w_platform w) (w_trace w).

(** [mark_punishment_completed(...)], its result dropped. *)
Definition complete (now : Z) (w : world) (user guild release : Z) : world :=
  with_store w
    (snd (mark_punishment_completed now (w_store w) user guild release)).

(** [member.remove_roles(canada_role)] that succeeds. *)
Definition remove_canada_role (w : world) (user : Z) : world :=
  let p := w_platform w in
  mk_world (w_store w) (w_sched w)
    (mk_platform (members p) (in_canada p ∖ {[user]}) (banned p))
    (w_trace w ++ [RemoveRoles user]).

(** The body of the [for] loop of [cleanup_expired_punishments] for one
    tuple of the expired list. *)
Definition sweep_one (now : Z) (e : faults) (w : world) (t : Z * Z * Z)
  : world :=
  let '(user, guild, release) := t in
  if negb (guild =? ALLOWED_GUILD_ID) then w
  else if negb (guild_known e) then w
  else
    match find_member e (w_platform w) user with
    | LookupError => w
    | NotFound => complete now w user guild release
    | Found =>
        let w1 :=
          if role_known e && bool_decide (user ∈ in_canada (w_platform w))
          then
            if bool_decide (user ∈ remove_fails e) then w
            else complete now (remove_canada_role w user) user guild release
          else complete now w user guild release in
        with_sched w1 (cancel_scheduled_removal (w_sched w1) user)
    end.

(** [fetch_user] and [guild.unban] for one expired ban, as
    [cleanup_expired_temp_bans] handles them.  A ban on the list of
    [get_expired_temp_bans] always has an unban time; the branch
    without one is never taken. *)
Definition sweep_ban (now : Z) (e : faults) (w : world) (ban : temp_ban)
  : world :=
  let user := tb_user_id ban in
  match tb_unban_time ban with
  | None => w
  | Some unban_time =>
      if bool_decide (user ∈ unban_fails e) then w
      else
        let p := w_platform w in
        let w1 :=
          if bool_decide (user ∈ banned p)
          then mk_world (w_store w) (w_sched w)
                 (mk_platform (members p) (in_canada p) (banned p ∖ {[user]}))
                 (w_trace w ++ [Unban user])
          else w in
        with_store w1
          (snd (mark_temp_ban_completed now (w_store w1) user
                  ALLOWED_GUILD_ID unban_time))
  end.

(** [cleanup_expired_temp_bans(bot)] *)
Definition cleanup_expired_temp_bans (now : Z) (e : faults) (w : world)
  : world :=
  let expired :=
    get_expired_temp_bans now (w_store w) (Some ALLOWED_GUILD_ID) in
  match expired with
  | [] => w
  | _ => if guild_known e then fold_left (sweep_ban now e) expired w else w
  end.

(** The sanctions part of one round of [cleanup_expired_punishments]. *)
Definition sweep_punishments (now : Z) (e : faults) (w : world) : world :=
  fold_left (sweep_one now e)
    (get_expired_punishments now (w_store w) (Some ALLOWED_GUILD_ID)) w.

(** One round of the [while True] loop of [cleanup_expired_punishments],
    after its sleep. *)
Definition cleanup_expired_punishments (now : Z) (e : faults) (w : world)
  : world :=
  cleanup_expired_temp_bans now e (sweep_punishments now e w).

(** [member.add_roles(canada_role)] *)
Definition add_canada_role (w : world) (user : Z) : world :=
  let p := w_platform w in
  mk_world (w_store w) (w_sched w)
    (mk_platform (members p) (in_canada p ∪ {[user]}) (banned p))
    (w_trace w).

(** The body of the [for] loop of [restore_active_punishments].  The
    platform of the model is the allowed guild's: [bot.get_guild] of
    another guild is taken not to resolve.  [member.add_roles] is
    awaited outside any [try]: when the platform refuses the grant, the
    exception leaves the loop body before anything is cancelled or
    scheduled for the row. *)
Definition restore_one (now_ts : Z) (e : faults) (w : world)
  (row : Z * Z * Z * Z) : outcome world :=
  let '(user, guild, release, _) := row in
  if negb (release =? 0) && (now_ts <? release) then
    if (guild =? ALLOWED_GUILD_ID) && guild_known e then
      match find_member e (w_platform w) user with
      | Found =>
          if role_known e then
            let rearm (w1 : world) :=
              let s := cancel_scheduled_removal (w_sched w1) user in
              with_sched w1 (schedule_role_removal s guild user release) in
            if bool_decide (user ∈ in_canada (w_platform w))
            then Returned (rearm w)
            else if bool_decide (user ∈ add_fails e)
            then Raised "Forbidden"
            else Returned (rearm (add_canada_role w user))
          else Returned w
      | _ => Returned w
      end
    else Returned w
  else Returned w.

(** The [for] loop: an exception that leaves the body leaves the loop
    and the function, and the rows after it are not looked at.  The
    world is handed back as the loop left it. *)
Fixpoint restore_rows (now_ts : Z) (e : faults) (w : world)
  (rows : list (Z * Z * Z * Z)) : outcome unit * world :=
  match rows with
  | [] => (Returned tt, w)
  | row :: rows' =>
      match restore_one now_ts e w row with
      | Returned w' => restore_rows now_ts e w' rows'
      | Raised msg => (Raised msg, w)
      end
  end.

(** [restore_active_punishments(bot)] *)
Definition restore_active_punishments (now_ts : Z) (e : faults) (w : world)
  : outcome unit * world :=
  restore_rows now_ts e w (get_active_punishments (w_store w) None).

(** The body of the [for] loop of [restore_active_temp_bans]:
    [if unban_time:] lets neither [None] nor 0 through. *)
Definition restore_ban (w : world) (ban : temp_ban) : world :=
  match tb_unban_time ban with
  | Some t =>
      if t =? 0 then w
      else with_sched w
             (schedule_temp_unban (w_sched w) ALLOWED_GUILD_ID
                (tb_user_id ban) t (tb_log_number ban))
  | None => w
  end.

(** [restore_active_temp_bans(bot)] *)
Definition restore_active_temp_bans (w : world) : world :=
  fold_left restore_ban
    (get_active_temp_bans (w_store w) (Some ALLOWED_GUILD_ID)) w.

(** [cleanup_scheduled_tasks()]: every registered task that is not done
    is cancelled, and both dictionaries end up empty. *)
Definition cancel_all (registered : gmap Z nat) (tasks : list task)
  : list task :=
  foldr (fun entry acc => cancel (snd entry) acc) tasks
    (map_to_list registered).

Definition cleanup_scheduled_tasks (s : scheduler) : scheduler :=
  let tasks := cancel_all (scheduled_removals s) (loop_tasks s) in
  let tasks := cancel_all (scheduled_unbans s) tasks in
  mk_scheduler tasks ∅ ∅.

End Sweep.

Import Sweep.

(* ===================================================================== *)
(** * commands.py and admin_commands.py: further commands                 *)
(* ===================================================================== *)

Module MoreCommands.

(** ** [/extend] *)

(** The replies of [/extend] that matter to the store; [ExtendRaised]
    stands for an exception that leaves the command. *)
Inductive extend_reply : Type :=
| ExtendInvalidDuration
| ExtendLogNotFound
| ExtendIndefinite
| ExtendUpdateFailed
| Extended (new_release_time : Z) (new_punishment : string)
| ExtendRaised (msg : string).

(** [extend(interaction, log_number, by)] for a caller with access. *)
Definition extend (now_ts : Z) (w : world) (guild log_no : Z) (by_ : string)
  : extend_reply * world :=
  match parse_time_duration by_ with
  | Raised e => (ExtendRaised e, w)
  | Returned None => (ExtendInvalidDuration, w)
  | Returned (Some extension_seconds) =>
      match get_log (w_store w) log_no guild with
      | None => (ExtendLogNotFound, w)
      | Some log_data =>
          match row_release_time log_data with
          | None => (ExtendIndefinite, w)
          | Some current_release_time =>
              let new_release_time :=
                current_release_time + extension_seconds in
              if writable (w_store w) && negb (json_int_ok new_release_time)
              then (* [json.dump] raises inside [update_log] *)
                (ExtendRaised "ValueError", w)
              else
              match update_log now_ts (w_store w) log_no guild
                      None None None None (Some new_release_time) with
              | (false, _) => (ExtendUpdateFailed, w)
              | (true, st') =>
                  let new_duration_seconds :=
                    new_release_time - row_punishment_start log_data in
                  match format_duration (Some new_duration_seconds) with
                  | Raised e =>
                      (* the log is updated, the task is not yet *)
                      (ExtendRaised e,
                       mk_world st' (w_sched w) (w_platform w) (w_trace w))
                  | Returned new_punishment =>
                      let user := row_user log_data in
                      let s := cancel_scheduled_removal (w_sched w) user in
                      let s := schedule_role_removal s guild user
                                 new_release_time in
                      (Extended new_release_time new_punishment,
                       mk_world st' s (w_platform w) (w_trace w))
                  end
              end
          end
      end
  end.

(** ** [/release] *)

Inductive release_reply : Type :=
| RoleNotFound
| NotInCanada
| ReleaseRefused
| Released (ended : Z).

(** The loop of [release] over the active punishments: every row of
    the member is marked completed and counted. *)
Definition release_rows (now : Z) (user : Z) (rows : list (Z * Z * Z * Z))
  (st : store) : store * Z :=
  fold_left
    (fun (acc : store * Z) (row : Z * Z * Z * Z) =>
       let '(user_id, guild_id, release_time, _) := row in
       if user_id =? user
       then (snd (mark_punishment_completed now (fst acc) user_id guild_id
                    release_time),
             snd acc + 1)
       else acc)
    rows (st, 0).

(** [release(interaction, user)] for a caller with access. *)
Definition release (now : Z) (e : faults) (w : world) (guild user : Z)
  : release_reply * world :=
  if negb (role_known e) then (RoleNotFound, w)
  else if negb (bool_decide (user ∈ in_canada (w_platform w)))
  then (NotInCanada, w)
  else if bool_decide (user ∈ remove_fails e) then (ReleaseRefused, w)
  else
    let w1 := remove_canada_role w user in
    let active_punishments :=
      get_active_punishments (w_store w1) (Some guild) in
    let '(st', ended) :=
      release_rows now user active_punishments (w_store w1) in
    (Released ended,
     mk_world st' (cancel_scheduled_removal (w_sched w1) user)
       (w_platform w1) (w_trace w1)).

(** ** [/retract] *)

(** [log_data[8]] *)
Definition row_retracted (r : log_row) : bool :=
  let '(_, _, _, _, _, _, _, _, b, _) := r in b.

(** [retract(interaction, log_number)]: [None] is "not found". *)
Definition retract (now : Z) (st : store) (guild log_no : Z)
  : option (bool * store) :=
  match get_log st log_no guild with
  | None => None
  | Some log_data =>
      let new_retracted_status := negb (row_retracted log_data) in
      Some (retract_log now st log_no guild new_retracted_status)
  end.

(** ** [/tempban_cancel] *)

Inductive tempban_cancel_reply : Type :=
| NoActiveTempBan
| UserNotBanned
| CancelRefused
| TempBanCancelled (log_no : Z).

(** [tempban_cancel(interaction, user, reason)] by moderator
    [cancelled_by]: the task and the record are cancelled before the
    platform is asked to unban. *)
Definition tempban_cancel (now : Z) (e : faults) (w : world)
  (guild user cancelled_by : Z) : tempban_cancel_reply * world :=
  match get_temp_ban_for_user (w_store w) user guild with
  | None => (NoActiveTempBan, w)
  | Some ban =>
      let s := snd (cancel_temp_unban (w_sched w) user) in
      let st := snd (cancel_temp_ban_record now (w_store w) user guild
                       cancelled_by) in
      let p := w_platform w in
      if bool_decide (user ∈ unban_fails e)
      then (CancelRefused, mk_world st s p (w_trace w))
      else if bool_decide (user ∈ banned p)
      then (TempBanCancelled (tb_log_number ban),
            mk_world st s
              (mk_platform (members p) (in_canada p) (banned p ∖ {[user]}))
              (w_trace w ++ [Unban user]))
      else (UserNotBanned, mk_world st s p (w_trace w))
  end.

(** ** [/cleanup_punishments] *)

(** The body of its [for] loop: the world, the count of cleaned
    sanctions and the count of errors. *)
Definition cleanup_one (now : Z) (e : faults)
  (acc : world * Z * Z) (t : Z * Z * Z) : world * Z * Z :=
  let '(w, cleaned_count, errors) := acc in
  let '(user, guild, release) := t in
  match find_member e (w_platform w) user with
  | LookupError => (w, cleaned_count, errors + 1)
  | NotFound => (complete now w user guild release, cleaned_count + 1, errors)
  | Found =>
      if role_known e && bool_decide (user ∈ in_canada (w_platform w))
      then
        if bool_decide (user ∈ remove_fails e)
        then (w, cleaned_count, errors + 1)
        else (complete now (remove_canada_role w user) user guild release,
              cleaned_count + 1, errors)
      else (complete now w user guild release, cleaned_count + 1, errors)
  end.

(** [cleanup_punishments(interaction)] in guild [guild]. *)
Definition cleanup_punishments (now : Z) (e : faults) (w : world)
  (guild : Z) : world * Z * Z :=
  fold_left (cleanup_one now e)
    (get_expired_punishments now (w_store w) (Some guild)) (w, 0, 0).

End MoreCommands.

Import MoreCommands.

(* ===================================================================== *)
(** * Further vocabulary and sample states                                *)
(* ===================================================================== *)

(** A file that exists, holds [doc], and can be written. *)
Definition fresh_file {A : Type} (doc : A) : json_file A := mk_file doc true.

(** No guild of the allow-list holds a role twice. *)
Definition roles_distinct (f : json_file roles_doc) : Prop :=
  forall guild, NoDup (get_allowed_roles f guild).

(** Guild 1 allows roles 5 and 6, guild 2 allows role 5. *)
Definition sample_roles : json_file roles_doc :=
  snd (add_allowed_role
         (snd (add_allowed_role
                 (snd (add_allowed_role (fresh_file ∅) 1 5)) 1 6)) 2 5).

(** Warning numbers are positive and no two stored warnings of a guild
    share one. *)
Definition warnings_sound (l : list warning) : Prop :=
  NoDup (map (fun w => (wn_guild_id w, wn_number w)) l)
  /\ forall w, In w l -> 1 <= wn_number w.

(** Member 7 of guild 1 is warned twice, member 8 once. *)
Definition sample_warnings : json_file warnings_data :=
  let f := fresh_file empty_warnings in
  let f := snd (create_warning 10 f 1 7 "caps" 99) in
  let f := snd (create_warning 20 f 1 8 "spam" 99) in
  snd (create_warning 30 f 1 7 "spam" 98).

(** The [id] of a stored sanction is below the counter and no two stored
    sanctions share one. *)
Definition log_ids_sound (data : logs_data) : Prop :=
  NoDup (map id (logs data))
  /\ forall log, In log (logs data) -> id log < next_log_id data.

(** Member 7 of guild 1 is banned until 500 and the unban is scheduled;
    the platform knows the ban. *)
Definition banned_member : world :=
  mk_world one_temp_ban (schedule_temp_unban empty_scheduler 1 7 500 3)
    (mk_platform ∅ ∅ {[7]}) [].

(** A retracted sanction carries no release time, as [retract_log]
    leaves it. *)
Definition retracted_untimed (st : store) : Prop :=
  forall log, In log (logs (logs_file st)) ->
              retracted log = true -> release_time log = None.

(** The platform lets the sweep through for these members: the guild
    resolves, and neither fetching them nor taking their role fails. *)
Definition unhindered (e : faults) (users : list Z) : Prop :=
  guild_known e = true
  /\ forall user, In user users ->
       (user ∉ fetch_fails e) /\ (user ∉ remove_fails e).

(** The member a row of [get_expired_punishments] is about. *)
Definition row_member (t : Z * Z * Z) : Z := fst (fst t).

(** What the sweep has established when it is through with a part of
    its list: [w'] comes from [w], [rest] is still to do. *)
Definition swept (now : Z) (w w' : world) (rest : list (Z * Z * Z))
  : Prop :=
  get_expired_punishments now (w_store w') (Some ALLOWED_GUILD_ID) = rest
  /\ writable (w_store w') = true
  /\ retracted_untimed (w_store w')
  /\ temp_bans_file (w_store w') = temp_bans_file (w_store w)
  /\ members (w_platform w') = members (w_platform w)
  /\ banned (w_platform w') = banned (w_platform w)
  /\ in_canada (w_platform w') ⊆ in_canada (w_platform w)
  /\ forall user, scheduled_removals (w_sched w) !! user = None ->
                  scheduled_removals (w_sched w') !! user = None.

(** Member 7 of the allowed guild is sent to Canada at 0 for two
    hours. *)
Definition sent_to_canada : world :=
  snd (canada 0 quiet_guild ALLOWED_GUILD_ID 7 99 "spam" (rule_ref " 2")
         (Some "2h")).

(** Member 7 of the allowed guild is banned at 100 until 500 (log 3),
    and the unban is scheduled. *)
Definition banned_in_allowed_guild : world :=
  mk_world
    (snd (create_temp_ban 100 init_data_storage ALLOWED_GUILD_ID 7 99 3
            "400m" (Some 500) "Temp ban for log #3"))
    (schedule_temp_unban empty_scheduler ALLOWED_GUILD_ID 7 500 3)
    (mk_platform ∅ ∅ {[7]}) [].

(** Every dictionary entry of one sort points to a task of that sort
    and of that member. *)
Definition registry_accurate (removal : bool) (s : scheduler) : Prop :=
  forall (user : Z) (h : nat),
    registry removal s !! user = Some h ->
    exists t, loop_tasks s !! h = Some t /\ task_user t = user
              /\ is_removal (task_kind_of t) = removal.

(** The member has a registered role-removal task that still waits. *)
Definition has_timer (user : Z) (s : scheduler) : Prop :=
  exists h, scheduled_removals s !! user = Some h
            /\ In h (live_timers true user s).

(** A row of [get_active_punishments] that [restore_active_punishments]
    acts on: it ends in the future and its member can be fetched. *)
Definition restorable (now_ts : Z) (e : faults) (p : platform)
  (row : Z * Z * Z * Z) : Prop :=
  let '(user, _, release, _) := row in
  release <> 0 /\ now_ts < release
  /\ (user ∉ fetch_fails e) /\ user ∈ members p.

(** What [restore_active_punishments] keeps while it goes through its
    rows: [w'] comes from [w]. *)
Definition restored (w w' : world) : Prop :=
  w_store w' = w_store w
  /\ w_trace w' = w_trace w
  /\ members (w_platform w') = members (w_platform w)
  /\ banned (w_platform w') = banned (w_platform w)
  /\ in_canada (w_platform w) ⊆ in_canada (w_platform w')
  /\ registered_only true (w_sched w')
  /\ registry_accurate true (w_sched w')
  /\ forall user, has_timer user (w_sched w) -> has_timer user (w_sched w').

(** The bot restarts while member 7 of the allowed guild serves the
    sanction of [sent_to_canada]: the store is as it was, no task is
    scheduled, and the member does not hold the role. *)
Definition restarted : world :=
  mk_world (w_store sent_to_canada) empty_scheduler
    (mk_platform {[7]} ∅ ∅) [].

(** The member a row of [get_active_punishments] is about. *)
Definition active_member (row : Z * Z * Z * Z) : Z := fst (fst (fst row)).

(** The rows of an active list that are, or are not, about a member. *)
Definition rows_of (user : Z) (rows : list (Z * Z * Z * Z))
  : list (Z * Z * Z * Z) :=
  List.filter (fun row => active_member row =? user) rows.

Definition rows_of_others (user : Z) (rows : list (Z * Z * Z * Z))
  : list (Z * Z * Z * Z) :=
  List.filter (fun row => negb (active_member row =? user)) rows.

(** The member has a registered unban task that still waits. *)
Definition has_unban_timer (user : Z) (s : scheduler) : Prop :=
  exists h, scheduled_unbans s !! user = Some h
            /\ In h (live_timers false user s).

(** An active temp ban that [restore_active_temp_bans] schedules. *)
Definition timed_ban (ban : temp_ban) : Prop :=
  exists t, tb_unban_time ban = Some t /\ t <> 0.
(* ===================================================================== *)
(** * Durations                                                           *)
(* ===================================================================== *)

Section Durations.

Lemma span_digits_spec (s ds rest : string) :
  span_digits s = (ds, rest) ->
  s = ds +:+ rest /\ all_digits ds = true /\ starts_with_digit rest = false.
Proof.
  revert ds rest. induction s as [|c s IH]; intros ds rest H; simpl in H.
  - inversion H; subst. auto.
  - destruct (is_digit c) eqn:Hc.
    + destruct (span_digits s) as [ds' rest'] eqn:Hs.
      inversion H; subst. destruct (IH ds' rest eq_refl) as (-> & Hd & Hr).
      simpl. rewrite Hc, Hd. auto.
    + inversion H; subst. simpl. rewrite Hc. auto.
Qed.

Lemma span_digits_app (ds rest : string) :
  all_digits ds = true -> starts_with_digit rest = false ->
  span_digits (ds +:+ rest) = (ds, rest).
Proof.
  intros Hd Hr. induction ds as [|c ds IH]; simpl in *.
  - destruct rest as [|c r]; simpl in *; [reflexivity|]. now rewrite Hr.
  - apply andb_prop in Hd as [Hc Hd]. rewrite Hc, (IH Hd). reflexivity.
Qed.

Lemma digit_headed_not_indefinite (ds rest : string) :
  ds <> "" -> all_digits ds = true ->
  String.eqb (ds +:+ rest) "indefinite" = false.
Proof.
  intros Hne Hd. destruct ds as [|c ds]; [congruence|].
  apply andb_prop in Hd as [Hc _]. apply String.eqb_neq.
  intros Heq. inversion Heq; subst. vm_compute in Hc. discriminate.
Qed.

Lemma at_dollar_iff (tail : string) :
  at_dollar tail = true <-> tail = "" \/ tail = newline.
Proof.
  unfold at_dollar. rewrite orb_true_iff, !String.eqb_eq. tauto.
Qed.

Lemma strip_prefix_spec (p s tl : string) :
  strip_prefix p s = Some tl <-> s = p +:+ tl.
Proof.
  revert s. induction p as [|a p IH]; intros s; simpl.
  - split; [intros [= ->]|intros ->]; reflexivity.
  - destruct s as [|b s]; [split; discriminate|].
    destruct (Ascii.eqb a b) eqn:Hab.
    + apply Ascii.eqb_eq in Hab as ->. rewrite IH.
      split; [intros ->; reflexivity|intros [= ->]; reflexivity].
    + apply Ascii.eqb_neq in Hab. split; [discriminate|].
      intros [= -> _]. congruence.
Qed.

Lemma match_unit_sound (alts : list string) (rest u : string) :
  match_unit alts rest = Some u ->
  In u alts /\ exists tail, rest = u +:+ tail /\ (tail = "" \/ tail = newline).
Proof.
  induction alts as [|a alts IH]; simpl; [discriminate|].
  destruct (strip_prefix a rest) as [tl|] eqn:Hp.
  - destruct (at_dollar tl) eqn:Hd.
    + intros [= <-]. split; [now left|]. exists tl.
      apply strip_prefix_spec in Hp. apply at_dollar_iff in Hd. auto.
    + intros H. destruct (IH H) as [Hin Htl]. auto.
  - intros H. destruct (IH H) as [Hin Htl]. auto.
Qed.

Lemma unit_table_alternatives (u : string) :
  In u unit_alternatives <-> exists secs, In (u, secs) unit_table.
Proof.
  unfold unit_alternatives, unit_table. simpl. split.
  - intros [<-|[<-|[<-|[<-|[<-|[]]]]]]; eexists; eauto 10.
  - intros [secs H].
    repeat (destruct H as [[= <- <-]|H]; [tauto|]). destruct H.
Qed.

Lemma match_unit_complete (u tail : string) (secs : Z) :
  In (u, secs) unit_table -> tail = "" \/ tail = newline ->
  match_unit unit_alternatives (u +:+ tail) = Some u
  /\ starts_with_digit (u +:+ tail) = false.
Proof.
  unfold unit_table. simpl. intros Hin Htl.
  repeat (destruct Hin as [[= <- <-]|Hin];
          [destruct Htl as [-> | ->]; split; reflexivity|]).
  destruct Hin.
Qed.

(** The two groups of a match, read back on the input. *)
Lemma match_duration_sound (s amount unit : string) :
  match_duration s = Some (amount, unit) ->
  exists tail secs,
    s = amount +:+ unit +:+ tail /\ amount <> "" /\
    all_digits amount = true /\ In (unit, secs) unit_table /\
    (tail = "" \/ tail = newline).
Proof.
  unfold match_duration. destruct (span_digits s) as [ds rest] eqn:Hs.
  apply span_digits_spec in Hs as (-> & Hd & _).
  destruct (String.eqb ds "") eqn:He; [discriminate|].
  apply String.eqb_neq in He.
  destruct (match_unit unit_alternatives rest) as [u|] eqn:Hu;
    [|discriminate].
  intros [= <- <-]. apply match_unit_sound in Hu as (Hin & tail & -> & Ht).
  apply unit_table_alternatives in Hin as [secs Hin].
  exists tail, secs. auto.
Qed.

Lemma match_duration_complete (ds u tail : string) (secs : Z) :
  ds <> "" -> all_digits ds = true -> In (u, secs) unit_table ->
  tail = "" \/ tail = newline ->
  match_duration (ds +:+ u +:+ tail) = Some (ds, u).
Proof.
  intros Hne Hd Hin Ht. unfold match_duration.
  destruct (match_unit_complete u tail secs Hin Ht) as [Hm Hs].
  rewrite (span_digits_app ds (u +:+ tail) Hd Hs).
  apply String.eqb_neq in Hne. rewrite Hne, Hm. reflexivity.
Qed.

(** The seconds of each unit, as the chain of comparisons of
    [parse_time_duration] computes them. *)
Lemma unit_seconds (amount : Z) (u : string) (secs : Z) :
  In (u, secs) unit_table ->
  (if String.eqb u "mo" then Some (amount * 30 * 24 * 3600)
   else if String.eqb u "w" then Some (amount * 7 * 24 * 3600)
   else if String.eqb u "d" then Some (amount * 24 * 3600)
   else if String.eqb u "h" then Some (amount * 3600)
   else if String.eqb u "m" then Some (amount * 60)
   else None) = Some (amount * secs).
Proof.
  unfold unit_table. simpl. intros Hin.
  repeat (destruct Hin as [[= <- <-]|Hin]; [simpl; f_equal; lia|]).
  destruct Hin.
Qed.

(** [int(amount)] against the positional value of the digits. *)
Lemma int_of_digits_from_value (s : string) (acc : Z) :
  int_of_digits_from acc s
  = acc * 10 ^ Z.of_nat (String.length s) + decimal_value s.
Proof.
  revert acc. induction s as [|c s IH]; intros acc.
  - simpl. lia.
  - change (int_of_digits_from acc (String c s))
      with (int_of_digits_from (acc * 10 + digit_value c) s).
    change (decimal_value (String c s))
      with (digit_value c * 10 ^ Z.of_nat (String.length s)
            + decimal_value s).
    change (String.length (String c s)) with (S (String.length s)).
    rewrite IH, Nat2Z.inj_succ, Z.pow_succ_r by lia. lia.
Qed.

Lemma int_of_digits_readable (ds : string) :
  readable ds -> int_of_digits ds = Returned (decimal_value ds).
Proof.
  unfold readable, int_of_digits. intros Hr.
  destruct (Nat.ltb_spec default_max_str_digits (String.length ds)); [lia|].
  rewrite int_of_digits_from_value. reflexivity.
Qed.

Lemma int_of_digits_long (ds : string) :
  ~ readable ds -> int_of_digits ds = Raised "ValueError".
Proof.
  unfold readable, int_of_digits. intros Hr.
  destruct (Nat.ltb_spec default_max_str_digits (String.length ds));
    [reflexivity|lia].
Qed.


(** What [parse_time_duration] does with a valid token. *)
Lemma parse_valid_token (s ds : string) (n : Z) :
  valid_token (lower s) ds n ->
  (readable ds -> parse_time_duration s = Returned (Some n))
  /\ (~ readable ds -> parse_time_duration s = Raised "ValueError").
Proof.
  intros Hv. unfold parse_time_duration.
  inversion Hv as [ds' u tail secs Hne Hd Hin Ht Hs Hds Hn]. subst ds'.
  rewrite (digit_headed_not_indefinite ds (u +:+ tail) Hne Hd).
  rewrite (match_duration_complete ds u tail secs Hne Hd Hin Ht).
  split; intros Hr.
  - rewrite (int_of_digits_readable ds Hr).
    now rewrite (unit_seconds (decimal_value ds) u secs Hin).
  - now rewrite (int_of_digits_long ds Hr).
Qed.

Lemma readable_dec (ds : string) : readable ds \/ ~ readable ds.
Proof. unfold readable. lia. Qed.

(** What a result of [parse_time_duration] tells about its input. *)
Lemma parse_some_valid (s : string) (n : Z) :
  parse_time_duration s = Returned (Some n) ->
  exists ds, valid_token (lower s) ds n /\ readable ds.
Proof.
  unfold parse_time_duration.
  destruct (String.eqb (lower s) "indefinite"); [discriminate|].
  destruct (match_duration (lower s)) as [[amount unit]|] eqn:Hm;
    [|discriminate].
  apply match_duration_sound in Hm
    as (tail & secs & Hs & Hne & Hd & Hin & Ht).
  destruct (readable_dec amount) as [Hr | Hr].
  - rewrite (int_of_digits_readable amount Hr).
    rewrite (unit_seconds (decimal_value amount) unit secs Hin).
    intros [= <-]. exists amount. split; [|exact Hr].
    rewrite Hs. now constructor.
  - rewrite (int_of_digits_long amount Hr). discriminate.
Qed.

Lemma parse_raised_valid (s e : string) :
  parse_time_duration s = Raised e ->
  e = "ValueError"
  /\ exists ds n, valid_token (lower s) ds n /\ ~ readable ds.
Proof.
  unfold parse_time_duration.
  destruct (String.eqb (lower s) "indefinite"); [discriminate|].
  destruct (match_duration (lower s)) as [[amount unit]|] eqn:Hm;
    [|discriminate].
  apply match_duration_sound in Hm
    as (tail & secs & Hs & Hne & Hd & Hin & Ht).
  destruct (readable_dec amount) as [Hr | Hr].
  - rewrite (int_of_digits_readable amount Hr). discriminate.
  - rewrite (int_of_digits_long amount Hr). intros [= <-].
    split; [reflexivity|]. exists amount, (decimal_value amount * secs).
    split; [|exact Hr]. rewrite Hs. now constructor.
Qed.


(** ** Decimal rendering read back: [int(str(n)) = n]. *)

Lemma append_assoc (a b c : string) : (a +:+ b) +:+ c = a +:+ (b +:+ c).
Proof.
  induction a as [|x a IH]; [reflexivity|].
  change (String x ((a +:+ b) +:+ c) = String x (a +:+ (b +:+ c))).
  now rewrite IH.
Qed.

Lemma length_append (a b : string) :
  String.length (a +:+ b) = (String.length a + String.length b)%nat.
Proof.
  induction a as [|x a IH]; [reflexivity|].
  change (S (String.length (a +:+ b))
          = S (String.length a + String.length b)).
  now rewrite IH.
Qed.

Lemma lower_app (a b : string) : lower (a +:+ b) = lower a +:+ lower b.
Proof. induction a as [|c a IH]; simpl; [reflexivity|]. now rewrite IH. Qed.

Lemma lower_char_digit (c : ascii) : is_digit c = true -> lower_char c = c.
Proof.
  unfold is_digit, lower_char. intros H.
  apply andb_prop in H as [H1 H2]. apply Z.leb_le in H1, H2.
  replace ((65 <=? code c) && (code c <=? 90)) with false
    by (symmetry; apply andb_false_iff; left; apply Z.leb_gt; lia).
  replace (192 <=? code c) with false by (symmetry; apply Z.leb_gt; lia).
  reflexivity.
Qed.

Lemma lower_digits (ds : string) : all_digits ds = true -> lower ds = ds.
Proof.
  induction ds as [|c ds IH]; simpl; [reflexivity|].
  intros H. apply andb_prop in H as [Hc Hd].
  now rewrite (lower_char_digit c Hc), (IH Hd).
Qed.

Lemma int_of_digits_from_app (a b : string) (acc : Z) :
  int_of_digits_from acc (a +:+ b)
  = int_of_digits_from (int_of_digits_from acc a) b.
Proof. revert acc. induction a as [|c a IH]; intros acc; simpl; auto. Qed.

Lemma pretty_N_char_digit (d : N) :
  (d < 10)%N ->
  is_digit (pretty_N_char d) = true
  /\ digit_value (pretty_N_char d) = Z.of_N d.
Proof.
  intros Hd.
  assert (d = 0 \/ d = 1 \/ d = 2 \/ d = 3 \/ d = 4 \/ d = 5 \/ d = 6
          \/ d = 7 \/ d = 8 \/ d = 9)%N as Hcases by lia.
  repeat (destruct Hcases as [-> | Hcases]; [split; reflexivity|]).
  subst d. split; reflexivity.
Qed.

Lemma pretty_N_go_app (x : N) (s : string) :
  pretty_N_go x s = pretty_N_go x "" +:+ s.
Proof.
  revert s. induction (N.lt_wf_0 x) as [x _ IH]; intros s.
  destruct (N.eq_dec x 0) as [-> | Hx]; [reflexivity|].
  assert (0 < x)%N as Hpos by lia.
  rewrite (pretty_N_go_step x s Hpos), (pretty_N_go_step x "" Hpos).
  assert (x `div` 10 < x)%N as Hlt by (apply N.div_lt; lia).
  rewrite (IH _ Hlt (String _ s)), (IH _ Hlt (String _ "")).
  rewrite append_assoc. reflexivity.
Qed.

Lemma pretty_N_go_digits (x : N) :
  all_digits (pretty_N_go x "") = true
  /\ int_of_digits_from 0 (pretty_N_go x "") = Z.of_N x.
Proof.
  induction (N.lt_wf_0 x) as [x _ IH].
  destruct (N.eq_dec x 0) as [-> | Hx]; [split; reflexivity|].
  assert (0 < x)%N as Hpos by lia.
  assert (x `div` 10 < x)%N as Hlt by (apply N.div_lt; lia).
  destruct (IH _ Hlt) as [Hd Hv].
  destruct (pretty_N_char_digit (x `mod` 10)) as [Hc Hcv];
    [apply N.mod_lt; lia|].
  rewrite (pretty_N_go_step x "" Hpos), pretty_N_go_app. split.
  - clear Hv. revert Hd. generalize (pretty_N_go (x `div` 10) "").
    intros a. induction a as [|c a IHa]; simpl.
    + now rewrite Hc.
    + intros H. apply andb_prop in H as [H1 H2]. now rewrite H1, IHa.
  - rewrite int_of_digits_from_app, Hv. simpl.
    rewrite Hcv. rewrite (N.div_mod x 10) at 3 by lia. lia.
Qed.

(** A number below ten to the [n] is written with at most [n] digits. *)
Lemma pretty_N_go_length (x : N) :
  forall n : nat,
    Z.of_N x < 10 ^ Z.of_nat n ->
    (String.length (pretty_N_go x "") <= n)%nat.
Proof.
  induction (N.lt_wf_0 x) as [x _ IH]. intros n Hlt.
  destruct (N.eq_dec x 0) as [-> | Hx]; [simpl; lia|].
  assert (0 < x)%N as Hpos by lia.
  assert (x `div` 10 < x)%N as Hdiv by (apply N.div_lt; lia).
  rewrite (pretty_N_go_step x "" Hpos), pretty_N_go_app, length_append.
  destruct n as [|m]; [simpl in Hlt; lia|].
  rewrite Nat2Z.inj_succ, Z.pow_succ_r in Hlt by lia.
  assert (Z.of_N (x `div` 10) < 10 ^ Z.of_nat m) as Hm.
  { rewrite N2Z.inj_div. apply Z.div_lt_upper_bound; lia. }
  specialize (IH _ Hdiv m Hm). simpl. lia.
Qed.

Lemma pretty_pos (q : Z) :
  0 < q ->
  pretty q <> "" /\ all_digits (pretty q) = true
  /\ decimal_value (pretty q) = q
  /\ (q < int_str_limit -> readable (pretty q)).
Proof.
  intros Hq. destruct q as [|p|p]; try lia.
  change (pretty (Z.pos p)) with (pretty_N_go (N.pos p) "").
  destruct (pretty_N_go_digits (N.pos p)) as [Hd Hv].
  rewrite int_of_digits_from_value in Hv.
  split; [|split; [exact Hd|split]].
  - intros He. rewrite He in Hv. discriminate Hv.
  - exact Hv.
  - intros Hlim. apply pretty_N_go_length. exact Hlim.
Qed.

(** Comparisons with the limit, for times of everyday size. *)
Lemma everyday_below_limit (n : Z) :
  Z.abs n < 10 ^ 18 -> Z.abs n < int_str_limit.
Proof.
  intros H. apply (Z.lt_trans _ _ _ H). vm_compute. reflexivity.
Qed.

Lemma everyday_lt_limit (n : Z) : n < 10 ^ 18 -> n < int_str_limit.
Proof.
  intros H. apply (Z.lt_trans _ _ _ H). vm_compute. reflexivity.
Qed.

Lemma str_of_int_below (n : Z) :
  Z.abs n < int_str_limit -> str_of_int n = Returned (pretty n).
Proof.
  intros H. unfold str_of_int.
  destruct (Z.leb_spec int_str_limit (Z.abs n)); [lia|reflexivity].
Qed.

Lemma with_unit_below (n : Z) (u : string) :
  Z.abs n < int_str_limit -> with_unit n u = Returned (pretty n +:+ u).
Proof. intros H. unfold with_unit. now rewrite (str_of_int_below n H). Qed.

(** What [format_duration] emits above a minute parses back to the
    multiple of the unit it shows. *)
Lemma parse_rendered (q : Z) (u : string) (secs : Z) :
  0 < q -> q < int_str_limit -> In (u, secs) unit_table ->
  parse_time_duration (pretty q +:+ u) = Returned (Some (q * secs)).
Proof.
  intros Hq Hlim Hin. destruct (pretty_pos q Hq) as (Hne & Hd & Hv & Hr).
  apply (parse_valid_token _ (pretty q)); [|now apply Hr].
  rewrite lower_app, (lower_digits _ Hd).
  replace (lower u) with (u +:+ "").
  - rewrite <- Hv at 3. constructor; auto.
  - revert Hin. unfold unit_table. simpl. intros Hin.
    repeat (destruct Hin as [[= <- <-]|Hin]; [reflexivity|]).
    destruct Hin.
Qed.

(** The rendering never fails on a time that the store can hold. *)
Lemma format_duration_storable (seconds : Z) :
  storable seconds ->
  exists text, format_duration (Some seconds) = Returned text.
Proof.
  unfold storable, format_duration. intros Hs.
  assert (Hdiv : forall d, 1 < d -> 60 <= seconds ->
                           Z.abs (seconds / d) < int_str_limit).
  { intros d Hd H60. assert (0 <= seconds / d) by (apply Z.div_pos; lia).
    assert (seconds / d < seconds) by (apply Z.div_lt; lia). lia. }
  destruct (seconds <? 60) eqn:H60.
  { rewrite with_unit_below by exact Hs. eauto. }
  apply Z.ltb_ge in H60.
  repeat match goal with
         | |- context [if ?a <? ?b then _ else _] => destruct (a <? b)
         end;
    rewrite with_unit_below by (apply Hdiv; lia); eauto.
Qed.

(** It fails on a number of months that [str] does not render. *)
Lemma format_duration_overflow (seconds : Z) :
  int_str_limit * 2592000 <= seconds ->
  format_duration (Some seconds) = Raised "ValueError".
Proof.
  intros Hbig.
  assert (0 < int_str_limit) as Hpos by (vm_compute; reflexivity).
  assert (int_str_limit <= seconds / 2592000) as Hq
    by (apply Z.div_le_lower_bound; lia).
  unfold format_duration.
  repeat match goal with
         | |- context [if ?a <? ?b then _ else _] =>
             destruct (Z.ltb_spec a b); [lia|]
         end.
  unfold with_unit, str_of_int.
  destruct (Z.leb_spec int_str_limit (Z.abs (seconds / 2592000)));
    [reflexivity|lia].
Qed.

End Durations.

(* ===================================================================== *)
(** * Duration claims                                                     *)
(* ===================================================================== *)

Section DurationClaims.

(** One branch of [format_duration]: [s] lies in the range of unit [u]
    of [secs] seconds, below [top]. *)
Lemma branch_stable (s secs top : Z) (u : string) :
  In (u, secs) unit_table -> 60 <= secs <= s -> s < top ->
  s < int_str_limit ->
  (forall v, secs <= v < top ->
     format_duration (Some v) = with_unit (v / secs) u) ->
  restabilises s.
Proof.
  intros Hin Hs Htop Hlim Hfmt.
  assert (0 < s / secs) as Hq by (apply Z.div_str_pos; lia).
  assert (s / secs < int_str_limit) as Hqlim.
  { assert (s / secs < s) by (apply Z.div_lt; lia). lia. }
  pose proof (Z.mul_div_le s secs ltac:(lia)) as Hle.
  exists (pretty (s / secs) +:+ u), (Some (s / secs * secs)).
  split; [|split].
  - rewrite Hfmt by lia. apply with_unit_below. lia.
  - apply parse_rendered; assumption.
  - rewrite Hfmt by nia. rewrite Z.div_mul by lia.
    apply with_unit_below. lia.
Qed.

Ltac ltb_cases :=
  repeat match goal with
         | |- context [?a <? ?b] =>
             destruct (Z.ltb_spec a b); try lia
         end.

(** From one minute on, the rendering is a fixpoint of parse-then-render:
    the amount shown is at least 1 and its multiple of the unit stays in
    the unit's own range. *)
Lemma format_parse_stable (s : Z) :
  60 <= s -> s < int_str_limit -> restabilises s.
Proof.
  intros Hs Hlim.
  assert (Hm : forall v, 60 <= v < 3600 ->
               format_duration (Some v) = with_unit (v / 60) "m")
    by (intros v Hv; unfold format_duration; ltb_cases; reflexivity).
  assert (Hh : forall v, 3600 <= v < 86400 ->
               format_duration (Some v) = with_unit (v / 3600) "h")
    by (intros v Hv; unfold format_duration; ltb_cases; reflexivity).
  assert (Hd : forall v, 86400 <= v < 604800 ->
               format_duration (Some v) = with_unit (v / 86400) "d")
    by (intros v Hv; unfold format_duration; ltb_cases; reflexivity).
  assert (Hw : forall v, 604800 <= v < 2592000 ->
               format_duration (Some v) = with_unit (v / 604800) "w")
    by (intros v Hv; unfold format_duration; ltb_cases; reflexivity).
  destruct (Z_lt_le_dec s 3600);
    [apply (branch_stable s 60 3600 "m"); simpl; auto 10; lia|].
  destruct (Z_lt_le_dec s 86400);
    [apply (branch_stable s 3600 86400 "h"); simpl; auto 10; lia|].
  destruct (Z_lt_le_dec s 604800);
    [apply (branch_stable s 86400 604800 "d"); simpl; auto 10; lia|].
  destruct (Z_lt_le_dec s 2592000);
    [apply (branch_stable s 604800 2592000 "w"); simpl; auto 10; lia|].
  assert (Hmo : forall v, 2592000 <= v ->
                format_duration (Some v) = with_unit (v / 2592000) "mo")
    by (intros v Hv; unfold format_duration; ltb_cases; reflexivity).
  assert (0 < s / 2592000) as Hq by (apply Z.div_str_pos; lia).
  assert (s / 2592000 < int_str_limit) as Hqlim.
  { assert (s / 2592000 < s) by (apply Z.div_lt; lia). lia. }
  exists (pretty (s / 2592000) +:+ "mo"), (Some (s / 2592000 * 2592000)).
  split; [|split].
  - rewrite (Hmo s) by lia. apply with_unit_below. lia.
  - apply parse_rendered; [assumption|assumption|simpl; auto].
  - rewrite Hmo by nia. rewrite Z.div_mul by lia. apply with_unit_below. lia.
Qed.

(** Below one minute the rendering uses the unit [s], which the parser
    does not know. *)
Lemma seconds_rendering_rejected (s : Z) :
  0 <= s < 60 ->
  format_duration (Some s) = Returned (pretty s +:+ "s")
  /\ parse_time_duration (pretty s +:+ "s") = Returned None.
Proof.
  intros Hs. split.
  { unfold format_duration. destruct (Z.ltb_spec s 60); [|lia].
    apply with_unit_below, everyday_below_limit. lia. }
  assert (Hno : forall ds n, ~ valid_token (lower (pretty s +:+ "s")) ds n).
  { intros ds0 n Hp.
    inversion Hp as [ds u tail secs Hne Hd Hin Ht Heq Hds Hn]. subst ds0.
    assert (Hds' : all_digits (pretty s) = true).
    { destruct (Z.eq_dec s 0) as [-> | Hnz]; [reflexivity|].
      apply pretty_pos. lia. }
    rewrite lower_app, (lower_digits _ Hds') in Heq.
    change (lower "s") with "s" in Heq.
    assert (Hsp : span_digits (pretty s +:+ "s") = (pretty s, "s"))
      by (apply span_digits_app; [exact Hds'|reflexivity]).
    rewrite <- Heq in Hsp.
    rewrite span_digits_app in Hsp; [|exact Hd|].
    - injection Hsp as _ Hus. revert Hin Ht Hus. unfold unit_table. simpl.
      intros Hin Ht Hus.
      repeat (destruct Hin as [[= <- <-]|Hin];
              [destruct Ht as [-> | ->]; discriminate Hus|]).
      destruct Hin.
    - eapply match_unit_complete; eauto. }
  destruct (parse_time_duration (pretty s +:+ "s")) as [[n|]|e] eqn:Hp;
    [| reflexivity |].
  - exfalso. apply parse_some_valid in Hp as (ds & Hv & _).
    exact (Hno ds n Hv).
  - exfalso. apply parse_raised_valid in Hp as (_ & ds & n & Hv & _).
    exact (Hno ds n Hv).
Qed.

(** C4, as stated, fails at 30 seconds: ["30s"] does not parse, and
    what comes back renders as ["indefinite"]. *)
Lemma duration_round_trip_fails_at_30 :
  In 30 [30; 3600; 90000; 700000; 3000000]
  /\ format_duration (Some 30) = Returned "30s"
  /\ parse_time_duration "30s" = Returned None
  /\ format_duration None = Returned "indefinite"
  /\ ~ restabilises 30.
Proof.
  split; [now left|]. split; [vm_compute; reflexivity|].
  split; [vm_compute; reflexivity|]. split; [reflexivity|].
  intros (text & parsed & Hf & Hp & Hf').
  vm_compute in Hf. injection Hf as <-.
  vm_compute in Hp. injection Hp as <-.
  vm_compute in Hf'. discriminate Hf'.
Qed.

(** C4 (amended): for each s in {3600, 90000, 700000, 3000000},
    rendering s with [format_duration], parsing the text with
    [parse_time_duration] and rendering the parsed value again gives
    the same text as the first rendering. *)
Theorem duration_round_trip :
  Forall restabilises [3600; 90000; 700000; 3000000]
  /\ map (fun s => format_duration (Some s)) [3600; 90000; 700000; 3000000]
     = [Returned "1h"; Returned "1d"; Returned "1w"; Returned "1mo"].
Proof.
  split.
  - repeat (apply Forall_cons_2;
              [apply format_parse_stable;
               [lia|apply everyday_lt_limit; vm_compute; reflexivity]|]).
    apply Forall_nil_2.
  - vm_compute. reflexivity.
Qed.

(** C8, as stated, fails twice.  A malformed text and the text
    "indefinite" come back as the same value, [None]; and a valid token
    whose amount has more digits than [int] reads raises [ValueError]
    out of [parse_time_duration]. *)
Lemma parse_error_is_the_indefinite_value :
  (lower "soon" <> "indefinite"
   /\ (forall ds n, ~ valid_token (lower "soon") ds n)
   /\ parse_time_duration "soon" = Returned None
   /\ parse_time_duration "indefinite" = Returned None
   /\ ~ (parse_time_duration "soon" <> parse_time_duration "indefinite"))
  /\ (valid_token long_token (repeat_char "1" 4301)
        (decimal_value (repeat_char "1" 4301) * 60)
      /\ parse_time_duration long_token = Raised "ValueError"
      /\ validate_punishment_duration long_token = Raised "ValueError").
Proof.
  split.
  - split; [discriminate|]. split.
    + intros ds n Hv. destruct (readable_dec ds) as [Hr | Hr].
      * apply parse_valid_token in Hv as [Hv _]. specialize (Hv Hr).
        discriminate Hv.
      * apply parse_valid_token in Hv as [_ Hv]. specialize (Hv Hr).
        discriminate Hv.
    + split; [reflexivity|]. split; [reflexivity|].
      intros H. now apply H.
  - split; [|split; vm_compute; reflexivity].
    apply (valid_token_intro (repeat_char "1" 4301) "m" "" 60).
    + intros H. vm_compute in H. discriminate H.
    + vm_compute. reflexivity.
    + simpl. tauto.
    + now left.
Qed.

(** C8 (amended), for text of characters below U+0100.  A valid token
    is a text that, lower-cased, is one or more digits and one unit
    among m, h, d, w, mo (a final newline being tolerated).  For a
    valid token of at most 4300 digits [parse_time_duration] returns
    the amount times the unit's seconds; for a valid token of more
    digits it raises [ValueError], and so does
    [validate_punishment_duration].  For "indefinite" and for every
    text that is no valid token alike it returns [None] without
    raising; the two are told apart by [validate_punishment_duration],
    which is true for "indefinite" and for valid tokens and false for
    malformed text. *)
Theorem parse_time_duration_outcomes (s : string) :
  (forall ds n, valid_token (lower s) ds n -> readable ds ->
     parse_time_duration s = Returned (Some n)
     /\ validate_punishment_duration s = Returned true)
  /\ (forall ds n, valid_token (lower s) ds n -> ~ readable ds ->
        parse_time_duration s = Raised "ValueError"
        /\ validate_punishment_duration s = Raised "ValueError")
  /\ (lower s = "indefinite" ->
      parse_time_duration s = Returned None
      /\ validate_punishment_duration s = Returned true)
  /\ (lower s <> "indefinite" ->
      (forall ds n, ~ valid_token (lower s) ds n) ->
      parse_time_duration s = Returned None
      /\ validate_punishment_duration s = Returned false).
Proof.
  split; [|split; [|split]].
  - intros ds n Hv Hr.
    pose proof (proj1 (parse_valid_token s ds n Hv) Hr) as Hp.
    split; [exact Hp|]. unfold validate_punishment_duration.
    rewrite Hp. now destruct (String.eqb _ _).
  - intros ds n Hv Hr.
    pose proof (proj2 (parse_valid_token s ds n Hv) Hr) as Hp.
    split; [exact Hp|]. unfold validate_punishment_duration.
    rewrite Hp.
    inversion Hv as [ds' u tail secs Hne Hd Hin Ht Hs Hds Hn].
    now rewrite (digit_headed_not_indefinite ds (u +:+ tail) Hne Hd).
  - intros Hi. unfold validate_punishment_duration, parse_time_duration.
    rewrite Hi. split; reflexivity.
  - intros Hi Hn.
    assert (Hp : parse_time_duration s = Returned None).
    { destruct (parse_time_duration s) as [[n|]|e] eqn:Hp; [|reflexivity|].
      - exfalso. apply parse_some_valid in Hp as (ds & Hv & _).
        exact (Hn ds n Hv).
      - exfalso. apply parse_raised_valid in Hp as (_ & ds & n & Hv & _).
        exact (Hn ds n Hv). }
    split; [exact Hp|]. unfold validate_punishment_duration.
    apply String.eqb_neq in Hi. now rewrite Hi, Hp.
Qed.

Lemma parse_time_duration_outcomes_witness :
  (parse_time_duration "2H" = Returned (Some 7200)
   /\ validate_punishment_duration "2H" = Returned true)
  /\ (parse_time_duration long_token = Raised "ValueError"
      /\ validate_punishment_duration long_token = Raised "ValueError")
  /\ (parse_time_duration "Indefinite" = Returned None
      /\ validate_punishment_duration "Indefinite" = Returned true)
  /\ (parse_time_duration "2 hours" = Returned None
      /\ validate_punishment_duration "2 hours" = Returned false).
Proof.
  split; [|split; [|split]].
  - apply (proj1 (parse_time_duration_outcomes "2H") "2" 7200).
    + apply (valid_token_intro "2" "h" "" 3600);
        [discriminate | reflexivity | simpl; tauto | now left].
    + unfold readable. simpl. unfold default_max_str_digits. lia.
  - apply (proj1 (proj2 (parse_time_duration_outcomes long_token))
             (repeat_char "1" 4301)
             (decimal_value (repeat_char "1" 4301) * 60)).
    + replace (lower long_token)
        with (repeat_char "1" 4301 +:+ "m" +:+ "")
        by (vm_compute; reflexivity).
      apply (valid_token_intro (repeat_char "1" 4301) "m" "" 60);
        [intros H; vm_compute in H; discriminate H
        | vm_compute; reflexivity | simpl; tauto | now left].
    + unfold readable. intros H. apply Nat.leb_le in H.
      vm_compute in H. discriminate H.
  - apply (proj1 (proj2 (proj2 (parse_time_duration_outcomes "Indefinite")))).
    reflexivity.
  - apply (proj2 (proj2 (proj2 (parse_time_duration_outcomes "2 hours")))).
    + discriminate.
    + intros ds n Hv. destruct (readable_dec ds) as [Hr | Hr].
      * apply parse_valid_token in Hv as [Hv _]. specialize (Hv Hr).
        discriminate Hv.
      * apply parse_valid_token in Hv as [_ Hv]. specialize (Hv Hr).
        discriminate Hv.
Defined.

End DurationClaims.

(* ===================================================================== *)
(** * The store: in-place updates                                         *)
(* ===================================================================== *)

Section UpdateFirst.

Context {A : Type} (p : A -> bool) (f : A -> A).

Lemma update_first_none (l : list A) :
  update_first p f l = None <-> (forall x, In x l -> p x = false).
Proof.
  induction l as [|x l IH]; simpl.
  - split; [intros _ x []|reflexivity].
  - destruct (p x) eqn:Hx.
    + split; [discriminate|]. intros H. rewrite (H x) in Hx by now left.
      discriminate.
    + destruct (update_first p f l) as [r|].
      * split; [discriminate|]. intros H.
        assert (Some r = None) as Hr; [|discriminate Hr].
        apply IH. intros y Hy. apply H. now right.
      * split; [|reflexivity]. intros _ y [<- | Hy]; [exact Hx|].
        now apply IH.
Qed.

Lemma update_first_split (pre post : list A) (x : A) :
  (forall y, In y pre -> p y = false) -> p x = true ->
  update_first p f (pre ++ x :: post) = Some (pre ++ f x :: post).
Proof.
  intros Hpre Hx. induction pre as [|y pre IH]; simpl.
  - now rewrite Hx.
  - rewrite (Hpre y) by now left.
    rewrite IH; [reflexivity|]. intros z Hz. apply Hpre. now right.
Qed.

Lemma update_first_some (l l' : list A) :
  update_first p f l = Some l' ->
  exists pre x post,
    l = pre ++ x :: post /\ (forall y, In y pre -> p y = false)
    /\ p x = true /\ l' = pre ++ f x :: post.
Proof.
  revert l'. induction l as [|x l IH]; intros l'; simpl; [discriminate|].
  destruct (p x) eqn:Hx.
  - intros [= <-]. exists [], x, l. simpl. repeat split; auto.
    intros y [].
  - destruct (update_first p f l) as [r|]; [|discriminate].
    intros [= <-].
    destruct (IH r eq_refl) as (pre & y & post & -> & Hpre & Hy & ->).
    exists (x :: pre), y, post. simpl. repeat split; auto.
    intros z [<- | Hz]; auto.
Qed.

End UpdateFirst.

Section StoreFacts.

Lemma is_due_spec (user guild release : Z) (log : log_entry) :
  is_due user guild release log = true
  <-> same_triple user guild release log.
Proof.
  unfold is_due, same_triple.
  rewrite !andb_true_iff, !Z.eqb_eq, bool_decide_eq_true. tauto.
Qed.




Lemma save_logs_ok (st : store) (l : list log_entry) :
  writable st = true ->
  save_logs st (mk_logs_data l (next_log_id (logs_file st)))
  = (true, with_logs st l).
Proof.
  intros H. unfold save_logs, with_logs.
  destruct (writable st); [reflexivity|discriminate].
Qed.


End StoreFacts.

(* ===================================================================== *)
(** * Completion                                                          *)
(* ===================================================================== *)

Section Completion.

Variables (now : Z) (st : store) (user guild release : Z).

Lemma mark_no_match :
  (forall log, In log (logs (logs_file st)) ->
               ~ same_triple user guild release log) ->
  mark_punishment_completed now st user guild release = (false, st).
Proof.
  intros Hno. unfold mark_punishment_completed.
  replace (update_first _ _ _) with (@None (list log_entry));
    [reflexivity|].
  symmetry. apply update_first_none. intros log Hin.
  destruct (is_due user guild release log) eqn:Hd; [|reflexivity].
  apply is_due_spec in Hd. now destruct (Hno log Hin).
Qed.

Lemma mark_first_match (pre post : list log_entry) (log : log_entry) :
  logs (logs_file st) = pre ++ log :: post ->
  (forall l, In l pre -> ~ same_triple user guild release l) ->
  same_triple user guild release log ->
  mark_punishment_completed now st user guild release
  = if writable st
    then (true, with_logs st (pre ++ apply_completed now log :: post))
    else (false, st).
Proof.
  intros Hl Hpre Hlog. unfold mark_punishment_completed. rewrite Hl.
  rewrite update_first_split.
  - unfold save_logs, with_logs. reflexivity.
  - intros y Hy. destruct (is_due user guild release y) eqn:Hd;
      [|reflexivity].
    apply is_due_spec in Hd. now destruct (Hpre y Hy).
  - now apply is_due_spec.
Qed.

End Completion.

(** C10: [mark_punishment_completed] is keyed on the exact triple
    (user_id, guild_id, release_time).  When no stored record carries
    the triple it returns [False] and the store is unchanged; otherwise
    only the first record carrying it is touched: its release_time is
    cleared and completed_at set (and the call returns [True]) when the
    file can be written, and nothing changes when it cannot. *)
Theorem mark_punishment_completed_exact
  (now : Z) (st : store) (user guild release : Z) :
  ((forall log, In log (logs (logs_file st)) ->
                ~ same_triple user guild release log) ->
   mark_punishment_completed now st user guild release = (false, st))
  /\ (forall pre log post,
        logs (logs_file st) = pre ++ log :: post ->
        (forall l, In l pre -> ~ same_triple user guild release l) ->
        same_triple user guild release log ->
        mark_punishment_completed now st user guild release
        = (if writable st
           then (true, with_logs st (pre ++ apply_completed now log :: post))
           else (false, st))
        /\ release_time (apply_completed now log) = None
        /\ completed_at (apply_completed now log) = Some now).
Proof.
  split.
  - apply mark_no_match.
  - intros pre log post Hl Hpre Hlog.
    split; [now apply mark_first_match|]. split; reflexivity.
Qed.

Lemma mark_punishment_completed_exact_witness :
  mark_punishment_completed 7200
    (after_create 0 init_data_storage 1 7 "2h" (Some 9000)) 7 1 7200
  = (false, after_create 0 init_data_storage 1 7 "2h" (Some 9000))
  /\ map release_time
       (logs (logs_file
          (snd (mark_punishment_completed 7200 two_sanctions_one_release
                  7 1 7200))))
     = [None; Some 7200].
Proof.
  split.
  - apply (proj1 (mark_punishment_completed_exact 7200
                    (after_create 0 init_data_storage 1 7 "2h" (Some 9000))
                    7 1 7200)).
    intros log [<- | []] (_ & _ & H). discriminate H.
  - pose proof (proj2 (mark_punishment_completed_exact 7200
                         two_sanctions_one_release 7 1 7200)) as H.
    specialize (H [] _ _ eq_refl).
    destruct H as [H _]; [intros l [] | repeat split |].
    rewrite H. reflexivity.
Defined.

Section Idempotence.



End Idempotence.




(* ===================================================================== *)
(** * Log numbers                                                         *)
(* ===================================================================== *)

Section LogNumbers.

Lemma fold_max_spec (xs : list Z) (x : Z) :
  (fold_left Z.max xs x = x \/ In (fold_left Z.max xs x) xs)
  /\ x <= fold_left Z.max xs x
  /\ forall y, In y xs -> y <= fold_left Z.max xs x.
Proof.
  revert x. induction xs as [|a xs IH]; intros x; simpl.
  - split; [now left|]. split; [lia|]. intros y [].
  - destruct (IH (Z.max x a)) as (Hm & Hle & Hall).
    split; [|split].
    + destruct Hm as [Hm | Hm]; [|now right; right].
      rewrite Hm.
      destruct (Z.max_spec x a) as [[_ He] | [_ He]]; rewrite He.
      * right. now left.
      * now left.
    + lia.
    + intros y [<- | Hy]; [lia|auto].
Qed.

Lemma max_default_spec (xs : list Z) (d : Z) :
  xs <> [] ->
  In (max_default xs d) xs /\ forall y, In y xs -> y <= max_default xs d.
Proof.
  destruct xs as [|x xs]; [congruence|]. intros _. simpl.
  destruct (fold_max_spec xs x) as ([Hm | Hm] & Hle & Hall).
  - split; [left; now rewrite Hm|]. intros y [<- | Hy]; auto.
  - split; [now right|]. intros y [<- | Hy]; auto.
Qed.

Lemma live_in_guild (guild : Z) (log : log_entry) :
  (guild_id log =? guild) && negb (retracted log) = true
  <-> guild_id log = guild /\ retracted log = false.
Proof. rewrite andb_true_iff, Z.eqb_eq, negb_true_iff. tauto. Qed.

End LogNumbers.

(** The number [create_log] allocates in a guild is max+1 over the
    guild's non-retracted stored records, and 1 when there is none: it
    is greater than the number of every non-retracted record of the
    guild, it follows the number of one of them unless there is none,
    and the new record is appended to the list.  Records that are
    retracted, or gone, do not count. *)
Lemma create_log_allocates_max_plus_one
  (now : Z) (st st' : store) (guild user : Z) (rule descr punish : string)
  (release start moderator : option Z) (n : Z) :
  create_log now st guild user rule descr punish release start moderator
  = (Returned n, st') ->
  (forall log, In log (logs (logs_file st)) ->
               guild_id log = guild -> retracted log = false ->
               log_number log < n)
  /\ ((n = 1 /\ forall log, In log (logs (logs_file st)) ->
                            guild_id log = guild -> retracted log = true)
      \/ exists log, In log (logs (logs_file st)) /\ guild_id log = guild
                     /\ retracted log = false /\ log_number log = n - 1)
  /\ exists entry,
       logs (logs_file st') = logs (logs_file st) ++ [entry]
       /\ log_number entry = n /\ guild_id entry = guild
       /\ user_id entry = user /\ retracted entry = false
       /\ release_time entry = release.
Proof.
  unfold create_log, save_logs. destruct (writable st); [|discriminate].
  intros [= <- <-].
  set (live := List.filter
                 (fun log => (guild_id log =? guild) && negb (retracted log))
                 (logs (logs_file st))).
  assert (Hlive : forall log, In log live <->
                    In log (logs (logs_file st)) /\ guild_id log = guild
                    /\ retracted log = false).
  { intros log. unfold live. rewrite List.filter_In, live_in_guild. tauto. }
  split; [|split].
  - intros log Hin Hg Hr.
    assert (In (log_number log) (map log_number live)) as Hm
      by (apply in_map, Hlive; auto).
    destruct (max_default_spec (map log_number live) 0) as [_ Hmax].
    { intros He. rewrite He in Hm. destruct Hm. }
    specialize (Hmax _ Hm). lia.
  - destruct live as [|x live'] eqn:Hl.
    + left. split; [reflexivity|]. intros log Hin Hg.
      destruct (retracted log) eqn:Hr; [reflexivity|].
      destruct (proj2 (Hlive log)); auto.
    + right.
      destruct (max_default_spec (map log_number (x :: live')) 0)
        as [Hin _]; [discriminate|].
      apply in_map_iff in Hin as (log & Hn & Hin).
      apply Hlive in Hin as (Hin & Hg & Hr).
      exists log. repeat split; auto. lia.
  - eexists. simpl. repeat split; reflexivity.
Qed.

(* ===================================================================== *)
(** * Retraction                                                          *)
(* ===================================================================== *)

Section Retraction.

Lemma active_punishments_app (guild : option Z) (a b : list log_entry) :
  active_punishments_in guild (a ++ b)
  = active_punishments_in guild a ++ active_punishments_in guild b.
Proof.
  induction a as [|x a IH]; simpl; [reflexivity|].
  destruct (release_time x); [|exact IH].
  destruct (negb (retracted x) && guild_selected guild (guild_id x));
    simpl; now rewrite IH.
Qed.

Lemma expired_punishments_app (now_ts : Z) (guild : option Z)
  (a b : list log_entry) :
  expired_punishments_in now_ts guild (a ++ b)
  = expired_punishments_in now_ts guild a
    ++ expired_punishments_in now_ts guild b.
Proof.
  induction a as [|x a IH]; simpl; [reflexivity|].
  destruct (release_time x) as [r|]; [|exact IH].
  destruct ((r <=? now_ts) && negb (retracted x)
            && guild_selected guild (guild_id x)); simpl; now rewrite IH.
Qed.

Lemma get_log_in_split (n g : Z) (pre post : list log_entry)
  (log : log_entry) :
  (forall l, In l pre -> is_log n g l = false) -> is_log n g log = true ->
  get_log_in n g (pre ++ log :: post) = Some (row_of log).
Proof.
  intros Hpre Hlog. induction pre as [|y pre IH]; simpl.
  - now rewrite Hlog.
  - rewrite (Hpre y) by now left. apply IH. intros l Hl. apply Hpre.
    now right.
Qed.

Lemma is_log_spec (n g : Z) (log : log_entry) :
  is_log n g log = true <-> log_number log = n /\ guild_id log = g.
Proof. unfold is_log. now rewrite andb_true_iff, !Z.eqb_eq. Qed.

Lemma is_log_false (n g : Z) (pre : list log_entry) :
  (forall l, In l pre -> ~ (log_number l = n /\ guild_id l = g)) ->
  forall l, In l pre -> is_log n g l = false.
Proof.
  intros Hpre l Hin. destruct (is_log n g l) eqn:Hd; [|reflexivity].
  apply is_log_spec in Hd. now destruct (Hpre l Hin).
Qed.

Lemma filter_all {A : Type} (p : A -> bool) (l : list A) :
  (forall x, In x l -> p x = true) -> List.filter p l = l.
Proof.
  induction l as [|x l IH]; intros H; simpl; [reflexivity|].
  rewrite (H x) by now left. f_equal. apply IH. intros y Hy. apply H.
  now right.
Qed.

End Retraction.

(** C9, as stated, fails for a record that an older record of its
    number hides.  In [renumbered_store] the sanction that ends at
    86500 carries number 1 like the retracted record before it:
    [retract_log] of number 1 answers [True] and leaves that sanction
    as it is, so that it stays on the lists of
    [get_active_punishments] and [get_expired_punishments], and
    [get_log] of number 1 returns the older record. *)
Lemma retract_log_misses_shadowed_record :
  let result := retract_log 200 renumbered_store 1 1 true in
  let fields :=
    map (fun log => (log_number log, guild_id log, punishment_start log,
                     retracted log, release_time log)) in
  fields (logs (logs_file renumbered_store))
  = [(1, 1, 0, true, None); (1, 1, 100, false, Some 86500)]
  /\ fst result = true
  /\ fields (logs (logs_file (snd result)))
     = [(1, 1, 0, true, None); (1, 1, 100, false, Some 86500)]
  /\ get_active_punishments (snd result) None = [(7, 1, 86500, 100)]
  /\ get_expired_punishments 90000 (snd result) None = [(7, 1, 86500)]
  /\ get_log (snd result) 1 1
     = Some (7, rule_ref " 2", "spam", "2h", None, 1, None, 0, true,
             Some 99).
Proof. repeat split; vm_compute; reflexivity. Qed.

(** C9 (amended): retracting the sanction that [retract_log] reaches
    under a log number, which is the first record stored under that
    number in the guild, succeeds when the file can be written; it sets
    retracted and clears release_time.  From then on the record
    contributes nothing to [get_active_punishments] and
    [get_expired_punishments], which answer as if the record were not
    in the list, while [get_log] still finds it under its number and
    returns its row with every other field as before. *)
Theorem retract_log_excludes_but_keeps
  (now : Z) (st : store) (n g : Z) (pre post : list log_entry)
  (log : log_entry) :
  logs (logs_file st) = pre ++ log :: post ->
  (forall l, In l pre -> ~ (log_number l = n /\ guild_id l = g)) ->
  log_number log = n -> guild_id log = g ->
  writable st = true ->
  exists st' log',
    retract_log now st n g true = (true, st')
    /\ logs (logs_file st') = pre ++ log' :: post
    /\ retracted log' = true /\ release_time log' = None
    /\ (forall guild,
          get_active_punishments st' guild
          = active_punishments_in guild (pre ++ post))
    /\ (forall now_ts guild,
          get_expired_punishments now_ts st' guild
          = expired_punishments_in now_ts guild (pre ++ post))
    /\ get_log st n g = Some (row_of log)
    /\ get_log st' n g
       = Some (user_id log, rule_violation log, description log,
               punishment log, message_id log, guild_id log, None,
               punishment_start log, true, moderator_id log).
Proof.
  intros Hl Hpre Hn Hg Hw.
  assert (Hpre' : forall l, In l pre -> is_log n g l = false).
  { intros l Hin. destruct (is_log n g l) eqn:Hd; [|reflexivity].
    apply is_log_spec in Hd. now destruct (Hpre l Hin). }
  assert (Hlog : is_log n g log = true) by (now apply is_log_spec).
  exists (with_logs st (pre ++ apply_retract now true log :: post)),
         (apply_retract now true log).
  split; [|split; [|split; [|split; [|split; [|split; [|split]]]]]].
  - unfold retract_log. rewrite Hl, (update_first_split _ _ _ _ _ Hpre' Hlog).
    unfold save_logs, with_logs. now rewrite Hw.
  - reflexivity.
  - reflexivity.
  - reflexivity.
  - intros guild. unfold get_active_punishments. simpl.
    now rewrite !active_punishments_app.
  - intros now_ts guild. unfold get_expired_punishments. simpl.
    now rewrite !expired_punishments_app.
  - unfold get_log. rewrite Hl. now apply get_log_in_split.
  - unfold get_log. simpl. rewrite get_log_in_split; [reflexivity|exact Hpre'|].
    apply is_log_spec. simpl. auto.
Qed.

Lemma retract_log_excludes_but_keeps_witness :
  get_active_punishments two_sanctions_one_release None
  = [(7, 1, 7200, 0); (7, 1, 7200, 3600)]
  /\ exists st' log',
      retract_log 4000 two_sanctions_one_release 2 1 true = (true, st')
      /\ retracted log' = true /\ release_time log' = None
      /\ get_active_punishments st' None = [(7, 1, 7200, 0)]
      /\ get_expired_punishments 8000 st' None = [(7, 1, 7200)]
      /\ get_log st' 2 1
         = Some (7, "rule 2", "spam", "1h", None, 1, None, 3600, true,
                 Some 99).
Proof.
  split; [reflexivity|].
  destruct (retract_log_excludes_but_keeps 4000 two_sanctions_one_release
              2 1
              (firstn 1 (logs (logs_file two_sanctions_one_release))) []
              (mk_log 2 2 1 7 "rule 2" "spam" "1h" (Some 7200) 3600
                 (Some 99) false None 3600 None None))
    as (st' & log' & Hr & Hl & Hret & Hrel & Hact & Hexp & _ & Hget).
  - reflexivity.
  - intros l [<- | []] [H _]. discriminate H.
  - reflexivity.
  - reflexivity.
  - reflexivity.
  - exists st', log'. split; [exact Hr|].
    split; [exact Hret|]. split; [exact Hrel|].
    split; [rewrite Hact; reflexivity|].
    split; [rewrite Hexp; reflexivity|]. exact Hget.
Defined.

(* ===================================================================== *)
(** * Numbers of retracted records                                        *)
(* ===================================================================== *)

(** C3 (the code departs from the claim): [create_log] takes max+1 over
    the guild's records that are not retracted, so a retracted record
    does not keep its number to itself.  A sanction is created and gets
    a number [n] that no stored record of the guild carries; it is
    retracted; the next sanction created in the guild gets [n] again.
    Two stored records of the guild now carry [n]: [get_log] answers
    with the retracted one, [retract_log] with [retract=False] revives
    that one, so that two records that are not retracted share [n], and
    [delete_log] removes both.  (After [delete_log] of the record just
    created the next sanction gets [n] as well.) *)
Theorem create_log_reuses_retracted_number
  (t1 t2 t3 t4 : Z) (st st1 : store) (guild user1 user2 : Z)
  (rule1 descr1 punish1 rule2 descr2 punish2 : string)
  (release1 release2 start1 start2 moderator1 moderator2 : option Z)
  (n : Z) :
  create_log t1 st guild user1 rule1 descr1 punish1 release1 start1
    moderator1
  = (Returned n, st1) ->
  (forall log, In log (logs (logs_file st)) ->
               ~ (log_number log = n /\ guild_id log = guild)) ->
  let retracting := retract_log t2 st1 n guild true in
  let again :=
    create_log t3 (snd retracting) guild user2 rule2 descr2 punish2
      release2 start2 moderator2 in
  let st3 := snd again in
  fst retracting = true
  /\ fst again = Returned n
  /\ (exists old new,
        logs (logs_file st3) = logs (logs_file st) ++ [old; new]
        /\ (log_number old = n /\ guild_id old = guild
            /\ user_id old = user1 /\ retracted old = true
            /\ release_time old = None)
        /\ (log_number new = n /\ guild_id new = guild
            /\ user_id new = user2 /\ retracted new = false
            /\ release_time new = release2)
        /\ get_log st3 n guild = Some (row_of old)
        /\ retract_log t4 st3 n guild false
           = (true,
              with_logs st3
                (logs (logs_file st) ++ [apply_retract t4 false old; new]))
        /\ retracted (apply_retract t4 false old) = false
        /\ log_number (apply_retract t4 false old) = n)
  /\ (fst (delete_log st3 n guild) = true
      /\ logs (logs_file (snd (delete_log st3 n guild)))
         = logs (logs_file st))
  /\ (fst (delete_log st1 n guild) = true
      /\ fst (create_log t3 (snd (delete_log st1 n guild)) guild user2
                rule2 descr2 punish2 release2 start2 moderator2)
         = Returned n).
Proof.
  intros Hcreate Hfresh retracting again st3.
  pose proof (is_log_false n guild _ Hfresh) as Hfresh'.
  unfold create_log, save_logs in Hcreate.
  destruct (writable st) eqn:Hw; [|discriminate Hcreate].
  injection Hcreate as Hn Hst1.
  set (live := fun log : log_entry =>
                 (guild_id log =? guild) && negb (retracted log)) in *.
  set (e1 := {| id := next_log_id (logs_file st);
                log_number := n; guild_id := guild; user_id := user1;
                rule_violation := rule1; description := descr1;
                punishment := punish1; release_time := release1;
                punishment_start := default t1 start1;
                moderator_id := moderator1; retracted := false;
                message_id := None; created_at := t1; updated_at := None;
                completed_at := None |}).
  assert (Hst1' : st1 = mk_store
                          (mk_logs_data (logs (logs_file st) ++ [e1])
                             (next_log_id (logs_file st) + 1))
                          (temp_bans_file st) (punishment_config_file st)
                          true).
  { rewrite <- Hst1. unfold e1. now rewrite Hn. }
  clear Hst1.
  assert (He1 : is_log n guild e1 = true)
    by (apply is_log_spec; split; reflexivity).
  set (old := apply_retract t2 true e1).
  assert (Hold : is_log n guild old = true)
    by (apply is_log_spec; split; reflexivity).
  set (st2 := mk_store
                (mk_logs_data (logs (logs_file st) ++ [old])
                   (next_log_id (logs_file st) + 1))
                (temp_bans_file st) (punishment_config_file st) true).
  assert (Hretract : retracting = (true, st2)).
  { unfold retracting, retract_log. rewrite Hst1'. simpl.
    now rewrite (update_first_split _ _ _ [] e1 Hfresh' He1). }
  set (new := {| id := next_log_id (logs_file st) + 1;
                 log_number := n; guild_id := guild; user_id := user2;
                 rule_violation := rule2; description := descr2;
                 punishment := punish2; release_time := release2;
                 punishment_start := default t3 start2;
                 moderator_id := moderator2; retracted := false;
                 message_id := None; created_at := t3; updated_at := None;
                 completed_at := None |}).
  assert (Hnew : is_log n guild new = true)
    by (apply is_log_spec; split; reflexivity).
  assert (Hnumber : forall dead : log_entry,
            retracted dead = true ->
            max_default
              (map log_number
                 (List.filter live (logs (logs_file st) ++ [dead]))) 0 + 1
            = n).
  { intros dead Hdead. rewrite List.filter_app. simpl.
    unfold live at 2. rewrite Hdead, andb_false_r, app_nil_r. exact Hn. }
  assert (Hagain : again
                   = (Returned n,
                      mk_store
                        (mk_logs_data (logs (logs_file st) ++ [old; new])
                           (next_log_id (logs_file st) + 1 + 1))
                        (temp_bans_file st) (punishment_config_file st)
                        true)).
  { unfold again. rewrite Hretract. unfold create_log, save_logs. simpl.
    fold live. rewrite (Hnumber old eq_refl).
    rewrite <- app_assoc. reflexivity. }
  assert (Hlogs3 : logs (logs_file st3) = logs (logs_file st) ++ [old; new])
    by (unfold st3; now rewrite Hagain).
  assert (Hw3 : writable st3 = true) by (unfold st3; now rewrite Hagain).
  split; [now rewrite Hretract|]. split; [now rewrite Hagain|].
  split; [|split].
  - exists old, new. split; [exact Hlogs3|].
    split; [split_and!; reflexivity|]. split; [split_and!; reflexivity|].
    split; [|split; [|split; reflexivity]].
    + unfold get_log. rewrite Hlogs3.
      now apply get_log_in_split.
    + unfold retract_log. rewrite Hlogs3.
      rewrite (update_first_split _ _ _ [new] old Hfresh' Hold).
      now rewrite (save_logs_ok _ _ Hw3).
  - unfold delete_log. rewrite Hlogs3, List.filter_app.
    rewrite (filter_all _ (logs (logs_file st)))
      by (intros x Hx; now rewrite (Hfresh' x Hx)).
    simpl. rewrite Hold, Hnew. simpl. rewrite app_nil_r.
    replace (length (logs (logs_file st))
             <? length (logs (logs_file st) ++ [old; new]))%nat with true
      by (symmetry; apply Nat.ltb_lt; rewrite length_app; simpl; lia).
    unfold save_logs. rewrite Hw3. split; reflexivity.
  - unfold delete_log. rewrite Hst1'. simpl. rewrite List.filter_app.
    rewrite (filter_all _ (logs (logs_file st)))
      by (intros x Hx; now rewrite (Hfresh' x Hx)).
    simpl. rewrite He1. simpl. rewrite app_nil_r.
    replace (length (logs (logs_file st))
             <? length (logs (logs_file st) ++ [e1]))%nat with true
      by (symmetry; apply Nat.ltb_lt; rewrite length_app; simpl; lia).
    unfold save_logs, create_log. simpl. fold live. rewrite Hn.
    split; reflexivity.
Qed.

Lemma create_log_reuses_retracted_number_witness :
  let st1 := after_create 50 two_sanctions_one_release 1 8 "1d"
               (Some 86450) in
  let st3 :=
    snd (create_log 70 (snd (retract_log 60 st1 3 1 true)) 1 9 "rule 3"
           "flood" "1h" (Some 3670) (Some 70) (Some 99)) in
  map log_number (logs (logs_file st1)) = [1; 2; 3]
  /\ map (fun log => (log_number log, user_id log, retracted log))
       (logs (logs_file st3))
     = [(1, 7, false); (2, 7, false); (3, 8, true); (3, 9, false)]
  /\ fst (delete_log st3 3 1) = true
  /\ map log_number (logs (logs_file (snd (delete_log st3 3 1)))) = [1; 2].
Proof.
  intros st1 st3.
  destruct (create_log_reuses_retracted_number 50 60 70 80
              two_sanctions_one_release st1 1 8 9
              "rule 2" "spam" "1d" "rule 3" "flood" "1h"
              (Some 86450) (Some 3670) (Some 50) (Some 70) (Some 99)
              (Some 99) 3)
    as (_ & _ & _ & (Hdel & Hlogs) & _).
  - reflexivity.
  - intros log Hin [Hn _]. vm_compute in Hin.
    destruct Hin as [<- | [<- | []]]; discriminate Hn.
  - split; [reflexivity|]. split; [reflexivity|].
    split; [exact Hdel|]. fold st1 in Hlogs. fold st3 in Hlogs.
    rewrite Hlogs. reflexivity.
Defined.

(* ===================================================================== *)
(** * Policy engine                                                       *)
(* ===================================================================== *)

Section Policy.

Lemma count_punishments_spec (user guild : Z) (l : list log_entry)
  (count : Z) :
  count_punishments user guild l count
  = count + Z.of_nat (length (prior_offenses_of user guild l)).
Proof.
  revert count. induction l as [|log l IH]; intros count; simpl; [lia|].
  unfold prior_offenses_of in *. simpl.
  destruct (bool_decide (user_id log = user /\ guild_id log = guild
                         /\ retracted log = false)) eqn:Hd.
  - apply bool_decide_eq_true in Hd as (-> & -> & Hr).
    rewrite Hr, !Z.eqb_refl. simpl. rewrite IH. lia.
  - apply bool_decide_eq_false in Hd.
    replace ((user_id log =? user) && (guild_id log =? guild)
             && negb (retracted log)) with false; [apply IH|].
    symmetry. apply not_true_is_false. intros Ht. apply Hd.
    rewrite !andb_true_iff, !Z.eqb_eq, negb_true_iff in Ht. tauto.
Qed.

Lemma get_punishment_count_spec (st : store) (user guild : Z) :
  get_punishment_count st user guild
  = Z.of_nat (length (prior_offenses_of user guild (logs (logs_file st)))).
Proof. unfold get_punishment_count. now rewrite count_punishments_spec. Qed.

Lemma rule_entry_configured (table : option (gmap string string))
  (rule : string) :
  rule_entry (default ∅ table) rule = configured table rule.
Proof.
  unfold configured, rule_entry. destruct table as [t|]; simpl.
  - destruct (t !! rule); [reflexivity|]. now destruct (t !! "default").
  - now rewrite !lookup_empty.
Qed.

Lemma config_is_empty_spec (config : punishment_config) :
  config_is_empty config = true <-> config = no_config.
Proof.
  unfold config_is_empty, no_config.
  destruct config as [[b|] [p|] [t|] [c|]]; simpl;
    split; intros H; try discriminate H; reflexivity.
Qed.

Lemma int_or_seconds_or (x : option Z) (d : Z) : int_or x d = seconds_or x d.
Proof. now destruct x as [[|v|v]|]. Qed.

(** ** The rule reference *)

Lemma sign_eqb_sym (c : ascii) : Ascii.eqb section_sign c = is_sign c.
Proof.
  unfold is_sign. destruct (Ascii.eqb_spec section_sign c) as [<- | Hne].
  - now rewrite Ascii.eqb_refl.
  - symmetry. apply Ascii.eqb_neq. congruence.
Qed.

Lemma space_is_no_sign (c : ascii) : is_space c = true -> is_sign c = false.
Proof.
  intros Hs. unfold is_sign.
  destruct (Ascii.eqb_spec c section_sign) as [-> | Hne]; [|reflexivity].
  vm_compute in Hs. discriminate Hs.
Qed.

Lemma digit_is_no_sign (c : ascii) : is_digit c = true -> is_sign c = false.
Proof.
  intros Hd. unfold is_sign.
  destruct (Ascii.eqb_spec c section_sign) as [-> | Hne]; [|reflexivity].
  vm_compute in Hd. discriminate Hd.
Qed.

Lemma digit_is_no_space (c : ascii) : is_digit c = true -> is_space c = false.
Proof.
  unfold is_digit, is_space. intros H.
  apply andb_prop in H as [H1 H2]. apply Z.leb_le in H1, H2.
  repeat match goal with
         | |- context [?a <=? ?b] => destruct (Z.leb_spec a b); try lia
         | |- context [?a =? ?b] => destruct (Z.eqb_spec a b); try lia
         end; reflexivity.
Qed.

Lemma all_chars_ext (p q : ascii -> bool) (s : string) :
  (forall c, p c = q c) -> all_chars p s = all_chars q s.
Proof.
  intros H. induction s as [|c s IH]; [reflexivity|].
  change (p c && all_chars p s = q c && all_chars q s). now rewrite H, IH.
Qed.

(** [drop_while] takes a whole run away when what follows the run does
    not go on with it. *)
Lemma drop_while_app (p : ascii -> bool) (a b : string) :
  all_chars p a = true ->
  (forall c r, b = String c r -> p c = false) ->
  drop_while p (a +:+ b) = b.
Proof.
  intros Ha Hb. induction a as [|x a IH].
  - change ("" +:+ b) with b. destruct b as [|c r]; [reflexivity|].
    simpl. now rewrite (Hb c r eq_refl).
  - change (all_chars p (String x a)) with (p x && all_chars p a) in Ha.
    apply andb_prop in Ha as [Hx Ha].
    change (String x a +:+ b) with (String x (a +:+ b)). simpl.
    rewrite Hx. exact (IH Ha).
Qed.

Lemma drop_while_split (p : ascii -> bool) (s : string) :
  exists a,
    s = a +:+ drop_while p s /\ all_chars p a = true.
Proof.
  induction s as [|c s (a & Hs & Ha)].
  - exists "". split; reflexivity.
  - simpl. destruct (p c) eqn:Hc.
    + exists (String c a). split.
      * change (String c a +:+ drop_while p s)
          with (String c (a +:+ drop_while p s)). now rewrite <- Hs.
      * simpl. now rewrite Hc.
    + exists "". split; reflexivity.
Qed.

(** One attempt of the pattern succeeds exactly on a rule reference at
    the head. *)
Lemma match_rule_at_complete (s ds : string) :
  rule_at_head s ds -> match_rule_at s = Some ds.
Proof.
  intros (signs & ws & rest & -> & Hne & Hsigns & Hws & Hdne & Hd & Hrest).
  destruct signs as [|c signs]; [congruence|].
  change (all_chars is_sign (String c signs))
    with (is_sign c && all_chars is_sign signs) in Hsigns.
  apply andb_prop in Hsigns as [Hc Hsigns].
  destruct ds as [|d ds]; [congruence|].
  pose proof Hd as Hd'.
  change (all_digits (String d ds)) with (is_digit d && all_digits ds) in Hd'.
  apply andb_prop in Hd' as [Hdig _].
  change (String c signs +:+ ws +:+ String d ds +:+ rest)
    with (String c (signs +:+ ws +:+ String d ds +:+ rest)).
  unfold match_rule_at. unfold is_sign in Hc. rewrite Hc.
  rewrite (drop_while_app (Ascii.eqb section_sign) signs).
  - rewrite (drop_while_app is_space ws _ Hws).
    + now rewrite (span_digits_app (String d ds) rest Hd Hrest).
    + intros x r [= <- _]. now apply digit_is_no_space.
  - now rewrite (all_chars_ext _ is_sign signs sign_eqb_sym).
  - intros x r Hx. rewrite sign_eqb_sym.
    destruct ws as [|w ws].
    + injection Hx as <- _. now apply digit_is_no_sign.
    + injection Hx as <- _. simpl in Hws.
      apply andb_prop in Hws as [Hw _]. now apply space_is_no_sign.
Qed.

Lemma match_rule_at_sound (s ds : string) :
  match_rule_at s = Some ds -> rule_at_head s ds.
Proof.
  unfold match_rule_at. destruct s as [|c s]; [discriminate|].
  destruct (Ascii.eqb c section_sign) eqn:Hc; [|discriminate].
  destruct (drop_while_split (Ascii.eqb section_sign) s) as (a & Hs & Ha).
  destruct (drop_while_split is_space
              (drop_while (Ascii.eqb section_sign) s)) as (b & Hb & Hws).
  destruct (span_digits
              (drop_while is_space (drop_while (Ascii.eqb section_sign) s)))
    as [digits rest] eqn:Hsp.
  apply span_digits_spec in Hsp as (Hsp & Hd & Hrest).
  destruct (String.eqb digits "") eqn:He; [discriminate|].
  intros [= <-]. apply String.eqb_neq in He.
  exists (String c a), b, rest.
  split; [|split; [discriminate|split; [|auto]]].
  - change (String c a +:+ b +:+ digits +:+ rest)
      with (String c (a +:+ b +:+ digits +:+ rest)).
    f_equal. rewrite Hs at 1. f_equal. rewrite Hb at 1. f_equal.
    exact Hsp.
  - change (is_sign c && all_chars is_sign a = true).
    unfold is_sign at 1. rewrite Hc.
    now rewrite <- (all_chars_ext _ is_sign a sign_eqb_sym).
Qed.

Lemma extract_rule_number_step (c : ascii) (s : string) :
  extract_rule_number (String c s)
  = match match_rule_at (String c s) with
    | Some digits => Some digits
    | None => extract_rule_number s
    end.
Proof. reflexivity. Qed.

(** [extract_rule_number] finds the rule a text names, and nothing
    else. *)
Lemma extract_rule_number_names (s : string) (r : option string) :
  names_rule s r -> extract_rule_number s = r.
Proof.
  induction 1 as [s ds Hhead | c s r Hnot _ IH |].
  - pose proof (match_rule_at_complete s ds Hhead) as Hm.
    destruct s as [|c s]; [discriminate Hm|].
    now rewrite extract_rule_number_step, Hm.
  - rewrite extract_rule_number_step.
    destruct (match_rule_at (String c s)) as [ds|] eqn:Hm; [|exact IH].
    destruct (Hnot ds (match_rule_at_sound _ _ Hm)).
  - reflexivity.
Qed.

Lemma names_rule_total (s : string) : names_rule s (extract_rule_number s).
Proof.
  induction s as [|c s IH]; [constructor|].
  rewrite extract_rule_number_step.
  destruct (match_rule_at (String c s)) as [ds|] eqn:Hm.
  - apply names_rule_here. now apply match_rule_at_sound.
  - apply names_rule_later; [|exact IH].
    intros ds Hhead. apply match_rule_at_complete in Hhead. congruence.
Qed.

Lemma rule_key_of_default (r : option string) :
  default "default" r = rule_key_of r.
Proof. now destruct r. Qed.

End Policy.

(** C5, as stated, fails: a base that is written as zero, or that is
    no duration at all, counts as two hours.  With the default base
    "0m", one hour per prior offense and one prior sanction the result
    is "3h", where base + prior * per-offense is one hour; the same
    holds for rule 4, whose base "a while" does not parse.  And the
    text returned does not tell the sum: with a base of one day and two
    hours per prior offense, two prior sanctions give "1d" like none. *)
Lemma zero_base_counts_as_two_hours :
  let config := punishment_config_file zero_base_store in
  (names_rule "spam" None
   /\ configured (base_times config) "default" = "0m"
   /\ configured (per_prior_offense config) "default" = "1h"
   /\ parse_time_duration "0m" = Returned (Some 0)
   /\ parse_time_duration "1h" = Returned (Some 3600)
   /\ length (prior_offenses_of 7 1 (logs (logs_file zero_base_store)))
      = 1%nat
   /\ calculate_automatic_punishment zero_base_store 7 1 "spam"
      = Returned "3h"
   /\ format_duration (Some (0 + 1 * 3600)) = Returned "1h")
  /\ (names_rule (rule_ref "4") (Some "4")
      /\ configured (base_times config) "4" = "a while"
      /\ parse_time_duration "a while" = Returned None
      /\ calculate_automatic_punishment zero_base_store 7 1 (rule_ref "4")
         = Returned "3h")
  /\ (length (prior_offenses_of 7 1 (logs (logs_file configured_store)))
      = 2%nat
      /\ calculate_automatic_punishment configured_store 7 1 (rule_ref "3")
         = Returned "1d"
      /\ format_duration (Some 86400) = Returned "1d"
      /\ format_duration (Some (86400 + 2 * 7200)) = Returned "1d").
Proof.
  intros config. split; [|split].
  - split; [exact (names_rule_total "spam")|].
    repeat (split; [vm_compute; reflexivity|]). vm_compute. reflexivity.
  - split; [exact (names_rule_total (rule_ref "4"))|].
    repeat (split; [vm_compute; reflexivity|]). vm_compute. reflexivity.
  - repeat (split; [vm_compute; reflexivity|]). vm_compute. reflexivity.
Qed.

(** C5 (amended): without a punishment configuration the result is
    "2h".  Otherwise [calculate_automatic_punishment] consults both
    tables under the number of the rule the text names (the digits
    after the leftmost section signs), or under "default" when the text
    names no rule; a table without an entry for that key answers with
    its "default" entry, and without that one with "2h".  A base of
    "indefinite" gives "indefinite" whatever the prior count.
    Otherwise the result is the rendering of B + prior * P seconds,
    where prior is the number of non-retracted sanctions of the member
    in the guild, B is the parsed base, or two hours when the base does
    not parse or is zero, and P is the parsed increment, or zero when
    it does not parse; what parsing or rendering raises leaves the
    function, as [ValueError] does when the sum has ten to the 4300
    months or more.  With base 2h and 2h per offense, prior counts 0,
    1, 2 give "2h", "4h", "6h". *)
Theorem calculate_automatic_punishment_formula
  (st : store) (user guild : Z) (rule_violation : string)
  (r : option string) :
  names_rule rule_violation r ->
  let config := punishment_config_file st in
  let prior :=
    Z.of_nat (length (prior_offenses_of user guild (logs (logs_file st)))) in
  let base := configured (base_times config) (rule_key_of r) in
  let per := configured (per_prior_offense config) (rule_key_of r) in
  let result := calculate_automatic_punishment st user guild rule_violation in
  (config = no_config -> result = Returned "2h")
  /\ (config <> no_config -> lower base = "indefinite" ->
      result = Returned "indefinite")
  /\ (config <> no_config -> lower base <> "indefinite" ->
      match parse_time_duration base, parse_time_duration per with
      | Returned b, Returned p =>
          result
          = format_duration
              (Some (seconds_or b 7200 + prior * seconds_or p 0))
      | Returned _, Raised e => result = Raised e
      | Raised e, _ => result = Raised e
      end)
  /\ (config <> no_config -> lower base <> "indefinite" ->
      forall b p,
        parse_time_duration base = Returned b ->
        parse_time_duration per = Returned p ->
        int_str_limit * 2592000
        <= seconds_or b 7200 + prior * seconds_or p 0 ->
        result = Raised "ValueError")
  /\ (config <> no_config -> base = "2h" -> per = "2h" ->
      (prior = 0 -> result = Returned "2h")
      /\ (prior = 1 -> result = Returned "4h")
      /\ (prior = 2 -> result = Returned "6h")).
Proof.
  intros Hnames config prior base per result.
  assert (Hstep : config <> no_config ->
            result
            = if String.eqb (lower base) "indefinite"
              then Returned "indefinite"
              else
                match parse_time_duration base with
                | Raised e => Raised e
                | Returned b =>
                    match parse_time_duration per with
                    | Raised e => Raised e
                    | Returned p =>
                        format_duration
                          (Some (seconds_or b 7200 + prior * seconds_or p 0))
                    end
                end).
  { intros Hconfig. unfold result, calculate_automatic_punishment.
    unfold get_punishment_config. fold config.
    destruct (config_is_empty config) eqn:He;
      [apply config_is_empty_spec in He; contradiction|].
    rewrite (extract_rule_number_names _ _ Hnames), rule_key_of_default.
    rewrite !rule_entry_configured. fold base per.
    rewrite get_punishment_count_spec. fold prior.
    destruct (lower base =? "indefinite")%string; [reflexivity|].
    destruct (parse_time_duration base) as [b|e]; [|reflexivity].
    destruct (parse_time_duration per) as [p|e]; [|reflexivity].
    now rewrite !int_or_seconds_or. }
  split; [|split; [|split; [|split]]].
  - intros Hconfig. unfold result, calculate_automatic_punishment.
    unfold get_punishment_config. fold config.
    apply config_is_empty_spec in Hconfig. now rewrite Hconfig.
  - intros Hconfig Hi. rewrite (Hstep Hconfig), Hi. reflexivity.
  - intros Hconfig Hi. rewrite (Hstep Hconfig).
    apply String.eqb_neq in Hi. rewrite Hi.
    destruct (parse_time_duration base) as [b|e]; [|reflexivity].
    now destruct (parse_time_duration per).
  - intros Hconfig Hi b p Hb Hp Hbig. rewrite (Hstep Hconfig).
    apply String.eqb_neq in Hi. rewrite Hi, Hb, Hp.
    now apply format_duration_overflow.
  - intros Hconfig Hb Hp. rewrite (Hstep Hconfig), Hb, Hp.
    change (lower "2h" =? "indefinite")%string with false.
    change (parse_time_duration "2h")
      with (Returned (A := option Z) (Some 7200)).
    cbv iota beta. change (seconds_or (Some 7200) 7200) with 7200.
    change (seconds_or (Some 7200) 0) with 7200.
    split; [|split]; intros ->; vm_compute; reflexivity.
Qed.

Lemma calculate_automatic_punishment_formula_witness :
  calculate_automatic_punishment configured_store 7 1 (rule_ref "5 (spam)")
  = Returned "6h"
  /\ calculate_automatic_punishment configured_store 7 1 "spam"
     = Returned "6h"
  /\ calculate_automatic_punishment configured_store 7 1 (rule_ref "3")
     = format_duration (Some (86400 + 2 * 7200))
  /\ calculate_automatic_punishment configured_store 7 1 (rule_ref "9")
     = Returned "indefinite"
  /\ calculate_automatic_punishment init_data_storage 7 1 (rule_ref "9")
     = Returned "2h".
Proof.
  assert (Hconfig : punishment_config_file configured_store <> no_config)
    by discriminate.
  split; [|split; [|split; [|split]]].
  - destruct (calculate_automatic_punishment_formula configured_store 7 1
                (rule_ref "5 (spam)") (Some "5")
                (names_rule_total (rule_ref "5 (spam)")))
      as (_ & _ & _ & _ & H).
    apply (H Hconfig); reflexivity.
  - destruct (calculate_automatic_punishment_formula configured_store 7 1
                "spam" None (names_rule_total "spam"))
      as (_ & _ & _ & _ & H).
    apply (H Hconfig); reflexivity.
  - destruct (calculate_automatic_punishment_formula configured_store 7 1
                (rule_ref "3") (Some "3")
                (names_rule_total (rule_ref "3")))
      as (_ & _ & H & _).
    apply (H Hconfig). discriminate.
  - destruct (calculate_automatic_punishment_formula configured_store 7 1
                (rule_ref "9") (Some "9")
                (names_rule_total (rule_ref "9")))
      as (_ & H & _).
    apply (H Hconfig). reflexivity.
  - destruct (calculate_automatic_punishment_formula init_data_storage 7 1
                (rule_ref "9") (Some "9")
                (names_rule_total (rule_ref "9")))
      as (H & _).
    apply H. reflexivity.
Defined.

(** C6, as stated, fails when the table holds both an entry for the rule
    and its "_continued" variant: with two prior offenses and both "8"
    and "8_continued" configured, the suggestion returned is the base
    one. *)
Lemma direct_entry_shadows_continued :
  names_rule (rule_ref "8") (Some "8")
  /\ get_punishment_count configured_store 7 1 = 2
  /\ is_Some (get_temp_ban_rules configured_store !! "8_continued")
  /\ check_temp_ban_applicable configured_store (rule_ref "8") 7 1
     = Some (mk_suggestion "8" (Some "Doxxing") (Some "6mo")
               "first_offense" None).
Proof.
  split; [exact (names_rule_total (rule_ref "8"))|].
  split; [reflexivity|]. split; [eexists; reflexivity|reflexivity].
Qed.

(** C6 (amended), for a text that names rule [rule_num] (the digits
    after its leftmost section signs).  When the escalation table has
    no entry under the rule's own number, the member has at least one
    prior offense in the guild and the table has an entry under
    "<rule>_continued", [check_temp_ban_applicable] returns the
    continued-offense suggestion built from that entry: its key, its
    description and duration, the trigger "continued" and the prior
    count.  When the table has an entry under the rule's own number,
    the suggestion is built from that entry whatever the prior count:
    the rule's number as key, the entry's description, duration and
    trigger, with "<sign><rule> violation", "6mo" and "first_offense"
    for those the entry lacks.  In every other case nothing is
    suggested. *)
Theorem check_temp_ban_applicable_continued
  (st : store) (rule_violation rule_num : string) (user guild : Z) :
  names_rule rule_violation (Some rule_num) ->
  let prior :=
    Z.of_nat (length (prior_offenses_of user guild (logs (logs_file st)))) in
  let rules := default ∅ (temp_ban_rules (punishment_config_file st)) in
  let result := check_temp_ban_applicable st rule_violation user guild in
  (forall info,
      rules !! rule_num = None ->
      0 < prior ->
      rules !! (rule_num +:+ "_continued") = Some info ->
      result
      = Some (mk_suggestion (rule_num +:+ "_continued")
                (rule_description info) (rule_duration info) "continued"
                (Some prior)))
  /\ (forall info,
        rules !! rule_num = Some info ->
        result
        = Some (mk_suggestion rule_num
                  (Some (default (rule_ref (rule_num +:+ " violation"))
                           (rule_description info)))
                  (Some (default "6mo" (rule_duration info)))
                  (default "first_offense" (rule_trigger info))
                  None))
  /\ (rules !! rule_num = None ->
      prior = 0 \/ rules !! (rule_num +:+ "_continued") = None ->
      result = None).
Proof.
  intros Hnames prior rules result.
  apply extract_rule_number_names in Hnames.
  unfold result, check_temp_ban_applicable, get_temp_ban_rules,
    get_punishment_config.
  fold rules. rewrite Hnames, get_punishment_count_spec. fold prior.
  split; [|split].
  - intros info Hdirect Hprior Hcont.
    apply Z.ltb_lt in Hprior. now rewrite Hdirect, Hprior, Hcont.
  - intros info Hdirect. now rewrite Hdirect.
  - intros Hdirect [Hprior | Hcont]; rewrite Hdirect.
    + now rewrite Hprior.
    + rewrite Hcont. now destruct (0 <? prior).
Qed.

Lemma check_temp_ban_applicable_continued_witness :
  check_temp_ban_applicable configured_store (rule_ref "3") 7 1
  = Some (mk_suggestion "3_continued" (Some "Repeated spam") (Some "1mo")
            "continued" (Some 2))
  /\ check_temp_ban_applicable configured_store (rule_ref "8") 7 1
     = Some (mk_suggestion "8" (Some "Doxxing") (Some "6mo") "first_offense"
               None)
  /\ check_temp_ban_applicable configured_store (rule_ref "5") 7 1 = None.
Proof.
  split; [|split].
  - apply (proj1 (check_temp_ban_applicable_continued configured_store
                    (rule_ref "3") "3" 7 1
                    (names_rule_total (rule_ref "3")))
             (mk_temp_ban_rule (Some "Repeated spam") (Some "1mo") None));
      [reflexivity | reflexivity | reflexivity].
  - apply (proj1 (proj2 (check_temp_ban_applicable_continued
                           configured_store (rule_ref "8") "8" 7 1
                           (names_rule_total (rule_ref "8"))))
             (mk_temp_ban_rule (Some "Doxxing") (Some "6mo") None)).
    reflexivity.
  - apply (proj2 (proj2 (check_temp_ban_applicable_continued
                           configured_store (rule_ref "5") "5" 7 1
                           (names_rule_total (rule_ref "5")))));
      [reflexivity | right; reflexivity].
Defined.

(* ===================================================================== *)
(** * Scheduled reversals                                                 *)
(* ===================================================================== *)

Section Scheduler.

Lemma live_timers_spec (removal : bool) (user : Z) (s : scheduler)
  (h : nat) :
  In h (live_timers removal user s)
  <-> exists t, loop_tasks s !! h = Some t /\ is_pending t = true
                /\ task_user t = user
                /\ is_removal (task_kind_of t) = removal.
Proof.
  unfold live_timers. rewrite in_map_iff. split.
  - intros ([h' t] & <- & Hin). apply List.filter_In in Hin as [Hin Hp].
    apply list_elem_of_In, elem_of_lookup_imap in Hin
      as (i & y & [= -> ->] & Hy).
    simpl in Hp. rewrite !andb_true_iff, Z.eqb_eq in Hp.
    destruct Hp as [[Hpend Hu] Hk]. apply Bool.eqb_prop in Hk.
    exists y. auto.
  - intros (t & Hl & Hpend & Hu & Hk). exists (h, t). split; [reflexivity|].
    apply List.filter_In. split.
    + apply list_elem_of_In, elem_of_lookup_imap. eauto.
    + simpl. rewrite Hpend, Hu, Hk, Z.eqb_refl. simpl.
      now destruct removal.
Qed.

Lemma not_pending_cancelled (t : task) :
  is_pending (cancel_task_state t) = false.
Proof.
  unfold cancel_task_state, is_pending. now destruct t as [? ? ? ? []].
Qed.

(** A task that is still pending after [cancel h0] is not the one at
    [h0], and was pending before. *)
Lemma pending_after_cancel (h0 h : nat) (l : list task) (t : task) :
  cancel h0 l !! h = Some t -> is_pending t = true ->
  h <> h0 /\ l !! h = Some t.
Proof.
  unfold cancel. intros Hl Hp. destruct (Nat.eq_dec h0 h) as [-> | Hne].
  - rewrite list_lookup_alter_eq in Hl.
    destruct (l !! h) as [t0|]; [|discriminate]. simpl in Hl.
    injection Hl as <-. rewrite not_pending_cancelled in Hp. discriminate.
  - rewrite list_lookup_alter_ne in Hl by exact Hne. auto.
Qed.

(** What waits in a list of tasks that got one more task. *)
Lemma lookup_armed (l : list task) (new t : task) (h : nat) :
  (l ++ [new]) !! h = Some t ->
  (h = length l /\ t = new) \/ (l !! h = Some t).
Proof.
  intros Hl. apply lookup_snoc_Some in Hl as [[_ Hl] | [-> ->]]; auto.
Qed.

(** [schedule_temp_unban] cancels before it arms: at most one live
    unban timer per subject is kept. *)
Lemma schedule_temp_unban_registered_only
  (s : scheduler) (guild user unban_time log_no : Z) :
  registered_only false s ->
  registered_only false
    (schedule_temp_unban s guild user unban_time log_no).
Proof.
  intros Hinv u h Hin. apply live_timers_spec in Hin
    as (t & Hl & Hpend & Hu & Hk).
  unfold schedule_temp_unban in *. simpl in *.
  apply lookup_armed in Hl as [[-> ->] | Hl].
  - simpl in Hu. subst u. apply lookup_insert_eq.
  - assert (Hold : loop_tasks s !! h = Some t
                   /\ scheduled_unbans s !! user <> Some h).
    { destruct (scheduled_unbans s !! user) as [h0|] eqn:Hreg.
      - apply pending_after_cancel in Hl as [Hne Hl]; [|exact Hpend].
        split; [exact Hl|congruence].
      - split; [exact Hl|discriminate]. }
    destruct Hold as [Hl' Hne].
    assert (registry false s !! u = Some h) as Hreg
      by (apply Hinv, live_timers_spec; eauto).
    simpl in Hreg. rewrite lookup_insert_ne; [exact Hreg|].
    intros ->. congruence.
Qed.

(** The path of [/extend] and [/reduce]: [cancel_scheduled_removal]
    and then [schedule_role_removal] keep at most one live removal
    timer per subject. *)
Lemma rearm_registered_only (s : scheduler) (guild user release : Z) :
  registered_only true s ->
  registered_only true
    (schedule_role_removal (cancel_scheduled_removal s user) guild user
       release).
Proof.
  intros Hinv u h Hin. apply live_timers_spec in Hin
    as (t & Hl & Hpend & Hu & Hk).
  unfold schedule_role_removal in *. simpl in *.
  apply lookup_armed in Hl as [[-> ->] | Hl].
  - simpl in Hu. subst u. apply lookup_insert_eq.
  - assert (Hold : loop_tasks s !! h = Some t
                   /\ scheduled_removals s !! user <> Some h).
    { unfold cancel_scheduled_removal in Hl.
      destruct (scheduled_removals s !! user) as [h0|] eqn:Hreg.
      - simpl in Hl.
        apply pending_after_cancel in Hl as [Hne Hl]; [|exact Hpend].
        split; [exact Hl|congruence].
      - split; [exact Hl|discriminate]. }
    destruct Hold as [Hl' Hne].
    assert (registry true s !! u = Some h) as Hreg
      by (apply Hinv, live_timers_spec; eauto).
    simpl in Hreg.
    assert (u <> user) as Hu' by (intros ->; congruence).
    rewrite lookup_insert_ne by congruence.
    unfold cancel_scheduled_removal.
    destruct (scheduled_removals s !! user); simpl;
      [rewrite lookup_delete_ne by congruence|]; exact Hreg.
Qed.

Lemma registered_only_one (removal : bool) (s : scheduler) (user : Z)
  (h1 h2 : nat) :
  registered_only removal s ->
  In h1 (live_timers removal user s) ->
  In h2 (live_timers removal user s) -> h1 = h2.
Proof.
  intros Hinv H1 H2. apply Hinv in H1, H2. congruence.
Qed.

Lemma registered_only_empty (removal : bool) :
  registered_only removal empty_scheduler.
Proof. intros u h []. Qed.

(** Arming a removal never cancels: whatever waited for the subject
    still waits next to the new task. *)
Lemma schedule_role_removal_keeps_live_timers
  (s : scheduler) (guild user release : Z) (h : nat) :
  In h (live_timers true user s) ->
  let s' := schedule_role_removal s guild user release in
  In h (live_timers true user s')
  /\ In (length (loop_tasks s)) (live_timers true user s')
  /\ h <> length (loop_tasks s).
Proof.
  intros Hin s'. apply live_timers_spec in Hin as (t & Hl & Hp & Hu & Hk).
  pose proof (lookup_lt_Some _ _ _ Hl) as Hlt.
  split; [|split; [|lia]].
  - apply live_timers_spec. exists t. split; [|auto].
    unfold s', schedule_role_removal. simpl.
    now rewrite lookup_app_l.
  - apply live_timers_spec. eexists. split.
    + unfold s', schedule_role_removal. simpl.
      apply list_lookup_middle. reflexivity.
    + auto.
Qed.

End Scheduler.

(** C1 (the code departs from the claim): [schedule_role_removal] stores
    the new task without cancelling the one registered for the subject,
    and [/canada] calls it without cancelling first.  Member 7 is sent
    to Canada at 0 for two hours, loses the role by a moderator's hand,
    and is sent to Canada again at 15 for one day: the second command
    passes the "already in Canada" check and leaves two live removal
    timers, of which only the second is registered.  The first one
    fires at 7200: it removes the role and unregisters the second timer
    although the sanction that ends at 86415 is still active in the
    store; the second timer then fires as well. *)
Theorem schedule_role_removal_leaves_two_timers :
  let w1 :=
    snd (canada 0 quiet_guild 1 7 98 "spam" (rule_ref " 2") (Some "2h")) in
  let w2 := role_taken_by_hand w1 7 in
  let s := w_sched twice_to_canada in
  fst (canada 0 quiet_guild 1 7 98 "spam" (rule_ref " 2") (Some "2h"))
  = SentToCanada 1
  /\ live_timers true 7 (w_sched w2) = [0%nat]
  /\ canada 15 w2 1 7 99 "spam again" (rule_ref " 2") (Some "1d")
     = (SentToCanada 2, twice_to_canada)
  /\ get_active_punishments (w_store twice_to_canada) None
     = [(7, 1, 7200, 0); (7, 1, 86415, 15)]
  /\ live_timers true 7 s = [0%nat; 1%nat]
  /\ scheduled_removals s !! 7 = Some 1%nat
  /\ ~ registered_only true s
  /\ (let w3 := fire 7200 0 twice_to_canada in
      w_trace w3 = [RemoveRoles 7]
      /\ get_active_punishments (w_store w3) None = [(7, 1, 86415, 15)]
      /\ scheduled_removals (w_sched w3) !! 7 = None
      /\ live_timers true 7 (w_sched w3) = [1%nat]
      /\ map task_state_of (loop_tasks (w_sched (fire 86415 1 w3)))
         = [Finished; Finished]).
Proof.
  intros w1 w2 s.
  split; [vm_compute; reflexivity|]. split; [vm_compute; reflexivity|].
  split; [vm_compute; reflexivity|]. split; [vm_compute; reflexivity|].
  split; [vm_compute; reflexivity|]. split; [vm_compute; reflexivity|].
  split.
  - intros Hinv. specialize (Hinv 7 0%nat).
    assert (Some 1%nat = Some 0%nat) as Habs; [|discriminate Habs].
    rewrite <- Hinv; [vm_compute; reflexivity|].
    apply live_timers_spec. eexists. split; [vm_compute; reflexivity|].
    split_and!; reflexivity.
  - repeat split; vm_compute; reflexivity.
Qed.

(* ===================================================================== *)
(** * Reducing a sanction                                                 *)
(* ===================================================================== *)

Section Reduce.



End Reduce.




(* ===================================================================== *)
(** * The role allow-list                                                 *)
(* ===================================================================== *)

Section AllowList.

Lemma guild_key_inj (g g' : Z) : guild_key g = guild_key g' -> g = g'.
Proof. unfold guild_key. apply (inj pretty). Qed.

Lemma save_json_ok {A : Type} (f f' : json_file A) (data : A) :
  save_json f data = (true, f') ->
  file_writable f = true /\ f' = mk_file data (file_writable f).
Proof.
  unfold save_json. destruct (file_writable f); [|discriminate].
  intros [= <-]. auto.
Qed.

(** What [add_allowed_role] saves: the guild's list with the role at
    its end. *)
Lemma add_allowed_role_saves (f : json_file roles_doc) (guild role : Z) :
  add_allowed_role f guild role
  = if bool_decide (role ∈ get_allowed_roles f guild) then (false, f)
    else save_json f
           (<[guild_key guild := get_allowed_roles f guild ++ [role]]>
              (load_json f)).
Proof.
  unfold add_allowed_role, get_allowed_roles.
  destruct (load_json f !! guild_key guild) as [l|] eqn:Hl; simpl.
  - rewrite Hl. reflexivity.
  - rewrite lookup_insert_eq. simpl. rewrite insert_insert_eq. reflexivity.
Qed.

Lemma remove_first_app (x : Z) (l : list Z) :
  x ∉ l -> remove_first x (l ++ [x]) = l.
Proof.
  induction l as [|y l IH]; simpl; intros Hx.
  - now rewrite Z.eqb_refl.
  - apply not_elem_of_cons in Hx as [Hne Hx].
    destruct (Z.eqb_spec y x); [congruence|]. now rewrite IH.
Qed.

Lemma remove_first_NoDup (x : Z) (l : list Z) :
  NoDup l ->
  NoDup (remove_first x l) /\ (x ∉ remove_first x l)
  /\ forall y, y <> x -> (y ∈ remove_first x l <-> y ∈ l).
Proof.
  induction l as [|y l IH]; simpl; intros Hnd.
  - split; [constructor|]. split; [apply not_elem_of_nil|]. tauto.
  - apply NoDup_cons in Hnd as [Hy Hnd].
    destruct (Z.eqb_spec y x) as [-> | Hne].
    + split; [exact Hnd|]. split; [exact Hy|].
      intros z Hz. rewrite elem_of_cons. split; [auto|].
      intros [-> | H]; [congruence|exact H].
    + destruct (IH Hnd) as (Hnd' & Hx & Hiff). split; [|split].
      * apply NoDup_cons. split; [|exact Hnd'].
        intros Hin. apply Hiff in Hin; [contradiction|exact Hne].
      * rewrite elem_of_cons. intros [-> | H]; [congruence|contradiction].
      * intros z Hz. rewrite !elem_of_cons, (Hiff z Hz). tauto.
Qed.

End AllowList.

(** X1: a successful [add_allowed_role] puts the role at the end of the
    guild's list, so that it is allowed there and gives access to every
    member who holds it; the lists of all other guilds, and the standing
    of every other role, are as before. *)
Theorem add_allowed_role_allows
  (f f' : json_file roles_doc) (guild role : Z) :
  add_allowed_role f guild role = (true, f') ->
  get_allowed_roles f' guild = get_allowed_roles f guild ++ [role]
  /\ is_role_allowed f guild role = false
  /\ is_role_allowed f' guild role = true
  /\ (forall roles, role ∈ roles ->
        user_has_access f' guild false roles = true)
  /\ (forall guild', guild' <> guild ->
        get_allowed_roles f' guild' = get_allowed_roles f guild')
  /\ (forall role', role' <> role ->
        is_role_allowed f' guild role' = is_role_allowed f guild role').
Proof.
  rewrite add_allowed_role_saves.
  destruct (bool_decide (role ∈ get_allowed_roles f guild)) eqn:Hin;
    [discriminate|].
  intros Hsave. apply save_json_ok in Hsave as [_ ->].
  assert (Hnew : get_allowed_roles
                   (mk_file
                      (<[guild_key guild :=
                           get_allowed_roles f guild ++ [role]]>
                         (load_json f)) (file_writable f)) guild
                 = get_allowed_roles f guild ++ [role]).
  { unfold get_allowed_roles at 1. unfold load_json at 1. simpl.
    now rewrite lookup_insert_eq. }
  split; [exact Hnew|]. split; [exact Hin|].
  assert (Hallowed : forall r, is_role_allowed
                       (mk_file
                          (<[guild_key guild :=
                               get_allowed_roles f guild ++ [role]]>
                             (load_json f)) (file_writable f)) guild r
                     = bool_decide (r ∈ get_allowed_roles f guild ++ [role])).
  { intros r. unfold is_role_allowed. unfold load_json at 1. simpl.
    now rewrite lookup_insert_eq. }
  split; [|split; [|split]].
  - rewrite Hallowed. apply bool_decide_eq_true. set_solver.
  - intros roles Hr. unfold user_has_access. rewrite Hnew.
    apply existsb_exists. exists role. split.
    + now apply list_elem_of_In.
    + apply bool_decide_eq_true. set_solver.
  - intros guild' Hne. unfold get_allowed_roles at 1. unfold load_json at 1.
    simpl. rewrite lookup_insert_ne; [reflexivity|].
    intros Hk. apply guild_key_inj in Hk. congruence.
  - intros role' Hne. rewrite Hallowed. unfold is_role_allowed.
    fold (get_allowed_roles f guild). apply bool_decide_ext.
    rewrite elem_of_app, list_elem_of_singleton.
    split; [intros [H | H]; [exact H|congruence]|auto].
Qed.

Lemma add_allowed_role_allows_witness :
  get_allowed_roles sample_roles 1 = [5; 6]
  /\ is_role_allowed sample_roles 2 6 = false
  /\ is_role_allowed (snd (add_allowed_role sample_roles 2 6)) 2 6 = true
  /\ get_allowed_roles (snd (add_allowed_role sample_roles 2 6)) 1 = [5; 6].
Proof.
  destruct (add_allowed_role_allows sample_roles
              (snd (add_allowed_role sample_roles 2 6)) 2 6 eq_refl)
    as (_ & Hbefore & Hafter & _ & Hother & _).
  split; [reflexivity|]. split; [exact Hbefore|]. split; [exact Hafter|].
  rewrite (Hother 1); [reflexivity|lia].
Defined.

(** X2: [add_allowed_role] never makes a list hold a role twice; it
    answers [False], and leaves the file as it is, exactly when the
    role is already allowed or the file cannot be written. *)
Theorem add_allowed_role_refusal
  (f : json_file roles_doc) (guild role : Z) :
  (roles_distinct f -> roles_distinct (snd (add_allowed_role f guild role)))
  /\ (fst (add_allowed_role f guild role) = false <->
      is_role_allowed f guild role = true \/ file_writable f = false)
  /\ (fst (add_allowed_role f guild role) = false ->
      snd (add_allowed_role f guild role) = f).
Proof.
  rewrite add_allowed_role_saves. unfold is_role_allowed.
  fold (get_allowed_roles f guild).
  destruct (bool_decide (role ∈ get_allowed_roles f guild)) eqn:Hin.
  - simpl. split; [auto|]. split; [tauto|auto].
  - unfold save_json. destruct (file_writable f) eqn:Hw; simpl.
    + split; [|split; [|discriminate]].
      * intros Hd guild'. unfold get_allowed_roles, load_json. simpl.
        destruct (decide (guild' = guild)) as [-> | Hne].
        -- rewrite lookup_insert_eq. simpl.
           apply NoDup_app. split; [apply Hd|].
           split; [|apply NoDup_singleton].
           intros x Hx Hx'. apply list_elem_of_singleton in Hx' as ->.
           apply bool_decide_eq_false in Hin. contradiction.
        -- rewrite lookup_insert_ne; [apply Hd|].
           intros Hk. apply guild_key_inj in Hk. congruence.
      * split; [discriminate|]. intros [H | H]; discriminate.
    + split; [auto|]. split; [tauto|auto].
Qed.

Lemma add_allowed_role_refusal_witness :
  add_allowed_role sample_roles 1 5 = (false, sample_roles)
  /\ roles_distinct (snd (add_allowed_role (fresh_file ∅) 1 5)).
Proof.
  destruct (add_allowed_role_refusal sample_roles 1 5) as (_ & Hiff & Hsame).
  destruct (add_allowed_role_refusal (fresh_file ∅) 1 5) as (Hd & _ & _).
  split.
  - rewrite (surjective_pairing (add_allowed_role sample_roles 1 5)).
    rewrite Hsame, (proj2 Hiff); [reflexivity|now left|].
    apply Hiff. now left.
  - apply Hd. intros guild. unfold get_allowed_roles, load_json. simpl.
    rewrite lookup_empty. apply NoDup_nil_2.
Defined.

(** X3: adding a role that was not allowed and removing it again gives
    the file back as it was, also when the guild had no entry: the
    entry that [add_allowed_role] creates is deleted with its last
    role.  (A guild entry that holds an empty list, which the code
    never writes, would be deleted all the same.) *)
Theorem add_then_remove_allowed_role
  (f : json_file roles_doc) (guild role : Z) :
  file_writable f = true ->
  is_role_allowed f guild role = false ->
  load_json f !! guild_key guild <> Some [] ->
  let added := snd (add_allowed_role f guild role) in
  remove_allowed_role added guild role = (true, f).
Proof.
  intros Hw Hno Hne added. subst added.
  rewrite add_allowed_role_saves. unfold is_role_allowed in Hno.
  fold (get_allowed_roles f guild) in Hno. rewrite Hno.
  apply bool_decide_eq_false in Hno.
  unfold save_json. rewrite Hw. simpl.
  unfold remove_allowed_role, load_json. simpl.
  rewrite lookup_insert_eq.
  rewrite bool_decide_eq_true_2
    by (rewrite elem_of_app, list_elem_of_singleton; auto).
  rewrite (remove_first_app _ _ Hno).
  destruct f as [doc wr]. simpl in *. subst wr.
  unfold get_allowed_roles, load_json in *. simpl in *.
  destruct (doc !! guild_key guild) as [l|] eqn:Hl; simpl.
  - destruct l as [|x l]; [congruence|].
    unfold save_json. simpl.
    now rewrite insert_insert_eq, (insert_id _ _ _ Hl).
  - unfold save_json. simpl. now rewrite (delete_insert_id _ _ _ Hl).
Qed.

Lemma add_then_remove_allowed_role_witness :
  remove_allowed_role (snd (add_allowed_role sample_roles 3 9)) 3 9
  = (true, sample_roles)
  /\ remove_allowed_role (snd (add_allowed_role sample_roles 1 9)) 1 9
     = (true, sample_roles).
Proof.
  split.
  - apply (add_then_remove_allowed_role sample_roles 3 9);
      [reflexivity | reflexivity | vm_compute; discriminate].
  - apply (add_then_remove_allowed_role sample_roles 1 9);
      [reflexivity | reflexivity | vm_compute; discriminate].
Defined.

(** X4: [remove_allowed_role] answers [False] and changes nothing when
    the role is not in the guild's list.  When it succeeds on a list
    without repetition, the role is no longer allowed in the guild, the
    other roles of the guild and all other guilds keep their standing,
    and the guild keeps no empty entry. *)
Theorem remove_allowed_role_removes
  (f : json_file roles_doc) (guild role : Z) :
  (is_role_allowed f guild role = false ->
   remove_allowed_role f guild role = (false, f))
  /\ (forall f',
        remove_allowed_role f guild role = (true, f') ->
        NoDup (get_allowed_roles f guild) ->
        is_role_allowed f' guild role = false
        /\ (forall role', role' <> role ->
              is_role_allowed f' guild role'
              = is_role_allowed f guild role')
        /\ (forall guild', guild' <> guild ->
              get_allowed_roles f' guild' = get_allowed_roles f guild')
        /\ load_json f' !! guild_key guild <> Some []).
Proof.
  unfold remove_allowed_role, is_role_allowed, get_allowed_roles. split.
  - intros Hno. destruct (load_json f !! guild_key guild) as [l|];
      [|reflexivity].
    simpl in Hno. now rewrite Hno.
  - intros f' Hrm Hnd.
    destruct (load_json f !! guild_key guild) as [l|] eqn:Hl;
      [|discriminate].
    simpl in Hnd. destruct (bool_decide (role ∈ l)); [|discriminate].
    destruct (remove_first_NoDup role l Hnd) as (_ & Hgone & Hkeep).
    assert (Hother : forall (doc : roles_doc) guild',
               guild' <> guild ->
               doc !! guild_key guild' = load_json f !! guild_key guild' ->
               default [] (doc !! guild_key guild')
               = default [] (load_json f !! guild_key guild'))
      by (intros doc guild' _ ->; reflexivity).
    assert (Hkey : forall guild', guild' <> guild ->
               guild_key guild <> guild_key guild')
      by (intros guild' Hne Hk; apply guild_key_inj in Hk; congruence).
    destruct (remove_first role l) as [|x rest] eqn:Hrest.
    + apply save_json_ok in Hrm as [_ ->]. unfold load_json. simpl.
      rewrite lookup_delete_eq. simpl.
      split; [reflexivity|].
      split; [|split; [|discriminate]].
      * intros role' Hne. symmetry. apply bool_decide_eq_false.
        rewrite <- (Hkeep role' Hne). apply not_elem_of_nil.
      * intros guild' Hne. rewrite lookup_delete_ne by auto. reflexivity.
    + apply save_json_ok in Hrm as [_ ->]. unfold load_json. simpl.
      rewrite lookup_insert_eq. simpl.
      split; [now apply bool_decide_eq_false|].
      split; [|split; [|discriminate]].
      * intros role' Hne. apply bool_decide_ext. apply Hkeep, Hne.
      * intros guild' Hne. rewrite lookup_insert_ne by auto. reflexivity.
Qed.

Lemma remove_allowed_role_removes_witness :
  remove_allowed_role sample_roles 2 6 = (false, sample_roles)
  /\ is_role_allowed (snd (remove_allowed_role sample_roles 2 5)) 2 5 = false
  /\ get_allowed_roles (snd (remove_allowed_role sample_roles 2 5)) 1
     = [5; 6]
  /\ load_json (snd (remove_allowed_role sample_roles 2 5)) !! guild_key 2
     = None.
Proof.
  split; [apply (proj1 (remove_allowed_role_removes sample_roles 2 6));
          reflexivity|].
  destruct (proj2 (remove_allowed_role_removes sample_roles 2 5)
              (snd (remove_allowed_role sample_roles 2 5)) eq_refl)
    as (Hgone & _ & Hother & _).
  - repeat constructor; set_solver.
  - split; [exact Hgone|]. split; [|reflexivity].
    rewrite (Hother 1); [reflexivity|lia].
Defined.

(* ===================================================================== *)
(** * Configuration values                                                *)
(* ===================================================================== *)

(** X5: [set_config] followed by [get_config] gives the value back and
    leaves every other key alone; on a file that cannot be written it
    answers [False] and nothing changes. *)
Theorem set_config_get_config
  (f : json_file (gmap string string)) (key value : string) :
  (file_writable f = true ->
   fst (set_config f key value) = true
   /\ get_config (snd (set_config f key value)) key = Some value
   /\ forall key', key' <> key ->
        get_config (snd (set_config f key value)) key' = get_config f key')
  /\ (file_writable f = false -> set_config f key value = (false, f)).
Proof.
  unfold set_config, get_config, save_json, load_json. split; intros Hw.
  - rewrite Hw. simpl. split; [reflexivity|].
    split; [apply lookup_insert_eq|].
    intros key' Hne. now apply lookup_insert_ne.
  - now rewrite Hw.
Qed.

Lemma set_config_get_config_witness :
  get_canada_role_id_str
    (snd (set_canada_role_id
            (snd (set_log_channel_id (fresh_file ∅) "42")) "77"))
  = Some "77"
  /\ get_log_channel_id
       (snd (set_canada_role_id
               (snd (set_log_channel_id (fresh_file ∅) "42")) "77"))
     = Some "42"
  /\ set_config (mk_file ∅ false) "log_channel_id" "42"
     = (false, mk_file ∅ false).
Proof.
  destruct (proj1 (set_config_get_config
                     (snd (set_log_channel_id (fresh_file ∅) "42"))
                     "canada_role_id" "77") eq_refl) as (_ & Hget & Hother).
  split; [exact Hget|]. split.
  - unfold get_log_channel_id, set_canada_role_id.
    rewrite Hother; [reflexivity|discriminate].
  - apply (proj2 (set_config_get_config (mk_file ∅ false)
                    "log_channel_id" "42")).
    reflexivity.
Defined.

(* ===================================================================== *)
(** * Lookups by number                                                   *)
(* ===================================================================== *)

Section FirstMatch.

Context {A : Type}.

Lemma find_app_first (p : A -> bool) (l1 l2 : list A) :
  List.find p (l1 ++ l2)
  = match List.find p l1 with
    | Some x => Some x
    | None => List.find p l2
    end.
Proof.
  induction l1 as [|x l1 IH]; simpl; [reflexivity|].
  destruct (p x); [reflexivity|exact IH].
Qed.

Lemma find_none_iff (p : A -> bool) (l : list A) :
  List.find p l = None <-> forall x, In x l -> p x = false.
Proof.
  induction l as [|x l IH]; simpl.
  - split; [intros _ x []|reflexivity].
  - destruct (p x) eqn:Hx.
    + split; [discriminate|]. intros H. rewrite (H x) in Hx by now left.
      discriminate.
    + rewrite IH. split.
      * intros H y [<- | Hy]; auto.
      * intros H y Hy. apply H. now right.
Qed.

(** Filtering on a condition that every [p]-element meets does not
    change what [p] finds first. *)
Lemma find_filter_kept (p q : A -> bool) (l : list A) :
  (forall x, p x = true -> q x = true) ->
  List.find p (List.filter q l) = List.find p l.
Proof.
  intros Hpq. induction l as [|x l IH]; simpl; [reflexivity|].
  destruct (q x) eqn:Hq; simpl.
  - destruct (p x); [reflexivity|exact IH].
  - destruct (p x) eqn:Hp; [|exact IH].
    rewrite (Hpq x Hp) in Hq. discriminate.
Qed.

Lemma find_filter_gone (p q : A -> bool) (l : list A) :
  (forall x, q x = true -> p x = false) ->
  List.find p (List.filter q l) = None.
Proof.
  intros Hpq. apply find_none_iff. intros x Hx.
  apply List.filter_In in Hx as [_ Hq]. auto.
Qed.

(** The in-place update of the first [q]-element, seen by a lookup on
    the same key... *)
Lemma find_update_first_same (p q : A -> bool) (f : A -> A) (l l' : list A) :
  (forall x, p x = q x) -> (forall x, q (f x) = q x) ->
  update_first q f l = Some l' ->
  List.find p l' = option_map f (List.find p l).
Proof.
  intros Hpq Hqf Hu.
  apply update_first_some in Hu as (pre & x & post & -> & Hpre & Hx & ->).
  rewrite !find_app_first.
  assert (List.find p pre = None) as ->
    by (apply find_none_iff; intros y Hy; rewrite Hpq; auto).
  simpl. now rewrite !Hpq, Hqf, Hx.
Qed.

(** ... and by a lookup on a key that no [q]-element has. *)
Lemma find_update_first_other (p q : A -> bool) (f : A -> A)
  (l l' : list A) :
  (forall x, q x = true -> p x = false) -> (forall x, p (f x) = p x) ->
  update_first q f l = Some l' ->
  List.find p l' = List.find p l.
Proof.
  intros Hpq Hpf Hu.
  apply update_first_some in Hu as (pre & x & post & -> & Hpre & Hx & ->).
  rewrite !find_app_first. simpl. now rewrite Hpf, (Hpq x Hx).
Qed.

Lemma update_first_found (q : A -> bool) (f : A -> A) (l : list A) :
  update_first q f l = None <-> List.find q l = None.
Proof. now rewrite update_first_none, find_none_iff. Qed.

End FirstMatch.

Section WarningFacts.

Lemma get_warning_in_find (n g : Z) (l : list warning) :
  get_warning_in n g l = List.find (is_warning n g) l.
Proof.
  induction l as [|w l IH]; simpl; [reflexivity|].
  destruct (is_warning n g w); [reflexivity|exact IH].
Qed.

Lemma is_warning_spec (n g : Z) (w : warning) :
  is_warning n g w = true <-> wn_number w = n /\ wn_guild_id w = g.
Proof. unfold is_warning. now rewrite andb_true_iff, !Z.eqb_eq. Qed.

Lemma is_warning_other (n g n' g' : Z) (w : warning) :
  (n', g') <> (n, g) -> is_warning n g w = true ->
  is_warning n' g' w = false.
Proof.
  intros Hne Hw. apply is_warning_spec in Hw as [<- <-].
  destruct (is_warning n' g' w) eqn:Hw'; [|reflexivity].
  apply is_warning_spec in Hw' as [<- <-]. congruence.
Qed.

Lemma count_warnings_spec (user guild : Z) (l : list warning) (count : Z) :
  count_warnings user guild l count
  = count + Z.of_nat (length (user_warnings_in user guild l)).
Proof.
  revert count. induction l as [|w l IH]; intros count; simpl; [lia|].
  destruct ((wn_user_id w =? user) && (wn_guild_id w =? guild)); simpl;
    rewrite IH; lia.
Qed.

Lemma user_warnings_app (user guild : Z) (a b : list warning) :
  user_warnings_in user guild (a ++ b)
  = user_warnings_in user guild a ++ user_warnings_in user guild b.
Proof.
  induction a as [|w a IH]; simpl; [reflexivity|].
  destruct ((wn_user_id w =? user) && (wn_guild_id w =? guild)); simpl;
    now rewrite IH.
Qed.

(** The number [create_warning] hands out in a guild is above every
    number stored for the guild, and at least 1. *)
Lemma next_warning_number (guild : Z) (l : list warning) :
  (forall w, In w l -> 1 <= wn_number w) ->
  let n := max_default
             (map wn_number
                (List.filter (fun w => wn_guild_id w =? guild) l)) 0 + 1 in
  1 <= n /\ forall w, In w l -> wn_guild_id w = guild -> wn_number w < n.
Proof.
  intros Hpos n. subst n.
  set (gw := List.filter (fun w => wn_guild_id w =? guild) l).
  destruct (map wn_number gw) as [|x xs] eqn:Hm.
  - simpl. split; [lia|]. intros w Hin Hg.
    assert (In (wn_number w) (map wn_number gw)) as Hw.
    { apply in_map, List.filter_In. split; [exact Hin|]. now apply Z.eqb_eq. }
    rewrite Hm in Hw. destruct Hw.
  - destruct (max_default_spec (x :: xs) 0) as [Hin Hmax]; [discriminate|].
    split.
    + rewrite <- Hm in Hin at 2. apply in_map_iff in Hin as (w & Hw & Hin).
      apply List.filter_In in Hin as [Hin _]. specialize (Hpos w Hin). lia.
    + intros w Hw Hg.
      assert (In (wn_number w) (x :: xs)) as Hin'.
      { rewrite <- Hm. apply in_map, List.filter_In.
        split; [exact Hw|]. now apply Z.eqb_eq. }
      specialize (Hmax _ Hin'). lia.
Qed.

End WarningFacts.

(** X6: warning numbers stay positive and unique within a guild under
    [create_warning], [delete_warning] and [update_warning_message_id];
    hence the answer [-1] of [create_warning] is never a warning number:
    it is given exactly when the file could not be written. *)
Theorem warnings_stay_sound (f : json_file warnings_data) :
  warnings_sound (warnings (load_json f)) ->
  (forall now guild user reason moderator,
      warnings_sound
        (warnings (load_json
           (snd (create_warning now f guild user reason moderator))))
      /\ (fst (create_warning now f guild user reason moderator) = -1
          <-> file_writable f = false))
  /\ (forall n g,
        warnings_sound (warnings (load_json (snd (delete_warning f n g)))))
  /\ (forall n g m,
        warnings_sound
          (warnings (load_json (snd (update_warning_message_id f n g m))))).
Proof.
  intros [Hnd Hpos]. split; [|split].
  - intros now guild user reason moderator. unfold create_warning.
    destruct (next_warning_number guild (warnings (load_json f)) Hpos)
      as [Hn Hfresh].
    unfold save_json. destruct (file_writable f) eqn:Hw; simpl.
    + split; [|split; [lia|discriminate]].
      unfold load_json. simpl. split.
      * rewrite map_app. simpl. apply NoDup_app. split; [exact Hnd|].
        split; [|apply NoDup_singleton].
        intros [g n] Hin Hin'. apply list_elem_of_singleton in Hin'.
        injection Hin' as -> ->.
        apply list_elem_of_In, in_map_iff in Hin as (w & [= Hg Hnum] & Hw').
        specialize (Hfresh w Hw' Hg). unfold load_json in Hfresh. lia.
      * intros w Hin. apply in_app_or in Hin as [Hin | [<- | []]]; auto.
    + split; [split; assumption|]. split; auto.
  - intros n g. unfold delete_warning.
    destruct (_ <? _)%nat; [|split; assumption].
    unfold save_json. destruct (file_writable f); [|split; assumption].
    unfold load_json. simpl. split.
    + clear Hpos. unfold load_json in Hnd. revert Hnd.
      generalize (warnings (document f)).
      intros l. induction l as [|w l IH]; simpl; [auto|].
      intros Hnd. apply NoDup_cons in Hnd as [Hw Hnd].
      destruct (negb (is_warning n g w)); simpl; [|auto].
      apply NoDup_cons. split; [|auto].
      intros Hin. apply Hw.
      apply list_elem_of_In, in_map_iff in Hin as (w' & Heq & Hin).
      apply list_elem_of_In, in_map_iff. exists w'. split; [exact Heq|].
      now apply List.filter_In in Hin as [Hin _].
    + intros w Hin. apply List.filter_In in Hin as [Hin _]. auto.
  - intros n g m. unfold update_warning_message_id.
    destruct (update_first _ _ _) as [l|] eqn:Hu; [|split; assumption].
    unfold save_json. destruct (file_writable f); [|split; assumption].
    unfold load_json in *. simpl.
    apply update_first_some in Hu as (pre & w & post & Hl & _ & _ & ->).
    rewrite Hl in Hnd, Hpos. split.
    + rewrite map_app in *. exact Hnd.
    + intros x Hin. apply in_app_or in Hin as [Hin | [<- | Hin]].
      * apply Hpos, in_or_app. now left.
      * apply (Hpos w), in_or_app. right. now left.
      * apply Hpos, in_or_app. right. now right.
Qed.

Lemma warnings_stay_sound_witness :
  warnings_sound (warnings (load_json sample_warnings))
  /\ fst (create_warning 40 sample_warnings 1 9 "ping" 99) = 4.
Proof.
  assert (Hempty : warnings_sound (warnings (load_json
                     (fresh_file empty_warnings))))
    by (split; [apply NoDup_nil_2|intros w []]).
  pose proof (proj1 (proj1 (warnings_stay_sound _ Hempty)
                       10 1 7 "caps" 99)) as H1.
  pose proof (proj1 (proj1 (warnings_stay_sound _ H1) 20 1 8 "spam" 99))
    as H2.
  pose proof (proj1 (proj1 (warnings_stay_sound _ H2) 30 1 7 "spam" 98))
    as H3.
  split; [exact H3|reflexivity].
Defined.

Section WarningLookups.

Lemma filter_length_lt {A : Type} (q : A -> bool) (l : list A) :
  (length (List.filter q l) <? length l)%nat = true
  <-> exists x, In x l /\ q x = false.
Proof.
  rewrite Nat.ltb_lt. induction l as [|x l IH]; simpl.
  - split; [lia|]. now intros (x & [] & _).
  - pose proof (List.filter_length_le q l) as Hle.
    destruct (q x) eqn:Hq; simpl.
    + rewrite <- Nat.succ_lt_mono, IH. split.
      * intros (y & Hy & Hqy). exists y. split; [now right|exact Hqy].
      * intros (y & [<- | Hy] & Hqy); [congruence|]. now exists y.
    + split; [|lia]. intros _. exists x. split; [now left|exact Hq].
Qed.

Lemma get_warning_found (f : json_file warnings_data) (n g : Z) :
  get_warning f n g <> None
  <-> exists w, In w (warnings (load_json f)) /\ is_warning n g w = true.
Proof.
  unfold get_warning. rewrite get_warning_in_find. split.
  - destruct (List.find _ _) as [w|] eqn:Hf; [|congruence]. intros _.
    apply List.find_some in Hf. now exists w.
  - intros (w & Hin & Hw) Hnone.
    rewrite (proj1 (find_none_iff _ _) Hnone w Hin) in Hw. discriminate.
Qed.

End WarningLookups.

Lemma sample_warnings_sound :
  warnings_sound (warnings (load_json sample_warnings)).
Proof.
  split.
  - apply (bool_decide_unpack _). vm_compute. exact I.
  - intros w Hin. vm_compute in Hin. intuition (subst; simpl; lia).
Qed.

(** X7: a warning created on a writable file is found under the number
    [create_warning] returned, with the id counter's value, the given
    member, reason and moderator and no message id; every other lookup is
    as before, the member's count in the guild grows by one, and the
    warning lists of other members are unchanged. *)
Theorem create_warning_then_get (now : Z) (f : json_file warnings_data)
  (guild user : Z) (reason : string) (moderator : Z) :
  warnings_sound (warnings (load_json f)) ->
  file_writable f = true ->
  let n := fst (create_warning now f guild user reason moderator) in
  let f' := snd (create_warning now f guild user reason moderator) in
  get_warning f' n guild
  = Some (mk_warning (next_warning_id (load_json f)) n guild user reason
            moderator now None)
  /\ (forall n' g', (n', g') <> (n, guild) ->
        get_warning f' n' g' = get_warning f n' g')
  /\ get_warning_count f' user guild = get_warning_count f user guild + 1
  /\ (forall u' g', (u', g') <> (user, guild) ->
        get_user_warnings f' u' g' = get_user_warnings f u' g').
Proof.
  intros [_ Hpos] Hw n f'. subst n f'.
  destruct (next_warning_number guild (warnings (load_json f)) Hpos)
    as [_ Hfresh].
  unfold get_warning, get_warning_count, get_user_warnings, create_warning,
    save_json. rewrite Hw. unfold load_json in *. simpl.
  set (n := max_default _ 0 + 1) in *.
  repeat split.
  - rewrite get_warning_in_find, find_app_first.
    assert (List.find (is_warning n guild) (warnings (document f)) = None)
      as ->.
    { apply find_none_iff. intros w Hin.
      destruct (is_warning n guild w) eqn:His; [|reflexivity].
      apply is_warning_spec in His as [Hn Hg].
      specialize (Hfresh w Hin Hg). lia. }
    simpl. unfold is_warning. simpl. now rewrite !Z.eqb_refl.
  - intros n' g' Hne. rewrite !get_warning_in_find, find_app_first.
    destruct (List.find _ _); [reflexivity|]. simpl.
    destruct (is_warning n' g' _) eqn:His; [|reflexivity].
    apply is_warning_spec in His as [Hn Hg]. simpl in Hn, Hg. congruence.
  - rewrite !count_warnings_spec, user_warnings_app, length_app. simpl.
    rewrite !Z.eqb_refl. simpl. lia.
  - intros u' g' Hne. rewrite user_warnings_app. simpl.
    destruct (user =? u') eqn:Hu; destruct (guild =? g') eqn:Hg; simpl;
      try apply app_nil_r.
    apply Z.eqb_eq in Hu, Hg. congruence.
Qed.

Lemma create_warning_then_get_witness :
  get_warning (snd (create_warning 40 sample_warnings 1 7 "flood" 99)) 4 1
  = Some (mk_warning 4 4 1 7 "flood" 99 40 None)
  /\ get_warning_count
       (snd (create_warning 40 sample_warnings 1 7 "flood" 99)) 7 1 = 3.
Proof.
  destruct (create_warning_then_get 40 sample_warnings 1 7 "flood" 99
              sample_warnings_sound eq_refl) as (Hget & _ & Hcount & _).
  split; [exact Hget|]. rewrite Hcount. reflexivity.
Defined.

(** X8: [delete_warning] answers True exactly when a warning with the
    number exists in the guild and the file can be written; afterwards no
    warning has the number in the guild and the other lookups are
    unchanged. On False the file is as before. *)
Theorem delete_warning_removes (f : json_file warnings_data) (n g : Z) :
  let ok := fst (delete_warning f n g) in
  let f' := snd (delete_warning f n g) in
  (ok = true <-> get_warning f n g <> None /\ file_writable f = true)
  /\ (ok = true ->
      get_warning f' n g = None
      /\ forall n' g', (n', g') <> (n, g) ->
           get_warning f' n' g' = get_warning f n' g')
  /\ (ok = false -> f' = f).
Proof.
  intros ok f'. subst ok f'. rewrite get_warning_found.
  unfold delete_warning, get_warning.
  destruct (_ <? _)%nat eqn:Hlt.
  - apply filter_length_lt in Hlt as (w & Hin & Hw).
    apply negb_false_iff in Hw.
    unfold save_json. destruct (file_writable f) eqn:Hwr; simpl.
    + split; [split; [intros _; split; [now exists w|reflexivity]|auto]|].
      split; [|discriminate]. intros _. unfold load_json. simpl. split.
      * rewrite get_warning_in_find. apply find_filter_gone.
        intros x Hx. now apply negb_true_iff in Hx.
      * intros n' g' Hne. rewrite !get_warning_in_find.
        apply find_filter_kept. intros x Hx.
        apply negb_true_iff.
        destruct (is_warning n g x) eqn:Hx'; [|reflexivity].
        rewrite (is_warning_other n g n' g' x Hne Hx') in Hx. discriminate.
    + split; [split; [discriminate|now intros [_ ?]]|].
      split; [discriminate|reflexivity].
  - simpl. split; [split; [discriminate|]|split; [discriminate|reflexivity]].
    intros [(w & Hin & Hw) _].
    assert ((length (List.filter (fun w => negb (is_warning n g w))
               (warnings (load_json f))) <? length (warnings (load_json f)))%nat
            = true) as Hlt'.
    { apply filter_length_lt. exists w. split; [exact Hin|].
      now apply negb_false_iff. }
    congruence.
Qed.

(** X9: [update_warning_message_id] answers True exactly when the warning
    exists and the file can be written; it then stores the message id on
    that warning only: the warning is otherwise as before, the other
    lookups and every member's warning list (number, reason, time) are
    unchanged. On False the file is as before. *)
Theorem update_warning_message_id_sets (f : json_file warnings_data)
  (n g m : Z) :
  let ok := fst (update_warning_message_id f n g m) in
  let f' := snd (update_warning_message_id f n g m) in
  (ok = true <-> get_warning f n g <> None /\ file_writable f = true)
  /\ (ok = true ->
      get_warning f' n g
      = option_map (set_warning_message m) (get_warning f n g)
      /\ (forall n' g', (n', g') <> (n, g) ->
            get_warning f' n' g' = get_warning f n' g')
      /\ forall user guild,
           get_user_warnings f' user guild = get_user_warnings f user guild)
  /\ (ok = false -> f' = f).
Proof.
  intros ok f'. subst ok f'.
  unfold update_warning_message_id, get_warning, get_user_warnings.
  rewrite get_warning_in_find.
  destruct (update_first _ _ _) as [l|] eqn:Hu.
  - assert (List.find (is_warning n g) (warnings (load_json f)) <> None)
      as Hfound.
    { intros Hnone.
      apply (proj2 (update_first_found _ (set_warning_message m) _))
        in Hnone. congruence. }
    unfold save_json. destruct (file_writable f) eqn:Hwr; simpl.
    + split; [split; auto|]. split; [|discriminate]. intros _.
      unfold load_json in *. simpl. split; [|split].
      * rewrite get_warning_in_find.
        now apply (find_update_first_same _ (is_warning n g)).
      * intros n' g' Hne. rewrite !get_warning_in_find.
        apply (find_update_first_other _ (is_warning n g)
                 (set_warning_message m)); auto.
        intros x Hx. exact (is_warning_other n g n' g' x Hne Hx).
      * intros user guild.
        apply update_first_some in Hu as (pre & w & post & -> & _ & _ & ->).
        rewrite !user_warnings_app. reflexivity.
    + split; [split; [discriminate|now intros [_ ?]]|].
      split; [discriminate|reflexivity].
  - apply update_first_found in Hu. simpl.
    split; [split; [discriminate|now intros [? _]]|].
    split; [discriminate|reflexivity].
Qed.

(* ===================================================================== *)
(** * The sanction log: deleting, editing, message links                  *)
(* ===================================================================== *)

Section LogLookups.

Lemma get_log_in_find (n g : Z) (l : list log_entry) :
  get_log_in n g l = option_map row_of (List.find (is_log n g) l).
Proof.
  induction l as [|log l IH]; simpl; [reflexivity|].
  destruct (is_log n g log); [reflexivity|exact IH].
Qed.

Lemma is_log_other (n g n' g' : Z) (log : log_entry) :
  (n', g') <> (n, g) -> is_log n g log = true -> is_log n' g' log = false.
Proof.
  intros Hne Hl. apply is_log_spec in Hl as [<- <-].
  destruct (is_log n' g' log) eqn:Hl'; [|reflexivity].
  apply is_log_spec in Hl' as [<- <-]. congruence.
Qed.

Lemma get_log_found (st : store) (n g : Z) :
  get_log st n g <> None
  <-> exists log, In log (logs (logs_file st)) /\ is_log n g log = true.
Proof.
  unfold get_log. rewrite get_log_in_find. split.
  - destruct (List.find _ _) as [log|] eqn:Hf; [|simpl; congruence].
    intros _. apply List.find_some in Hf. now exists log.
  - intros (log & Hin & Hl) Hnone.
    destruct (List.find _ _) eqn:Hf; [discriminate|].
    rewrite (proj1 (find_none_iff _ _) Hf log Hin) in Hl. discriminate.
Qed.

(** What an in-place update of the record [(n, g)] does to the lookups,
    when it keeps the record's number and guild. *)
Lemma get_log_after_update (n g : Z) (f : log_entry -> log_entry)
  (l l' : list log_entry) :
  (forall x, log_number (f x) = log_number x) ->
  (forall x, guild_id (f x) = guild_id x) ->
  update_first (is_log n g) f l = Some l' ->
  get_log_in n g l'
  = option_map (fun x => row_of (f x)) (List.find (is_log n g) l)
  /\ forall n' g', (n', g') <> (n, g) ->
       get_log_in n' g' l' = get_log_in n' g' l.
Proof.
  intros Hnum Hguild Hu.
  assert (Hkey : forall n' g' x, is_log n' g' (f x) = is_log n' g' x)
    by (intros; unfold is_log; now rewrite Hnum, Hguild).
  split.
  - rewrite get_log_in_find,
      (find_update_first_same _ (is_log n g) f l l'); auto.
    now destruct (List.find _ l).
  - intros n' g' Hne. rewrite !get_log_in_find.
    rewrite (find_update_first_other _ (is_log n g) f l l'); auto.
    intros x Hx. exact (is_log_other n g n' g' x Hne Hx).
Qed.

Lemma update_first_map {A B : Type} (q : A -> bool) (f : A -> A)
  (h : A -> B) (l l' : list A) :
  (forall x, h (f x) = h x) ->
  update_first q f l = Some l' -> map h l' = map h l.
Proof.
  intros Hh Hu.
  apply update_first_some in Hu as (pre & x & post & -> & _ & _ & ->).
  rewrite !map_app. simpl. now rewrite Hh.
Qed.

End LogLookups.

(** X10: [delete_log] answers True exactly when a record with the number
    exists in the guild and the file can be written. It removes every
    record with that number in the guild, so the lookup finds nothing
    afterwards; the other lookups, the id counter, the temp bans and the
    configuration are unchanged. On False the store is as before. *)
Theorem delete_log_removes (st : store) (n g : Z) :
  let ok := fst (delete_log st n g) in
  let st' := snd (delete_log st n g) in
  (ok = true <-> get_log st n g <> None /\ writable st = true)
  /\ (ok = true ->
      (forall log, In log (logs (logs_file st')) -> is_log n g log = false)
      /\ get_log st' n g = None
      /\ (forall n' g', (n', g') <> (n, g) ->
            get_log st' n' g' = get_log st n' g')
      /\ next_log_id (logs_file st') = next_log_id (logs_file st)
      /\ temp_bans_file st' = temp_bans_file st
      /\ punishment_config_file st' = punishment_config_file st)
  /\ (ok = false -> st' = st).
Proof.
  intros ok st'. subst ok st'. rewrite get_log_found.
  unfold delete_log, get_log.
  destruct (_ <? _)%nat eqn:Hlt.
  - apply filter_length_lt in Hlt as (log & Hin & Hl).
    apply negb_false_iff in Hl.
    unfold save_logs. destruct (writable st) eqn:Hwr; simpl.
    + split; [split; [intros _; split; [now exists log|reflexivity]|auto]|].
      split; [|discriminate]. intros _. repeat split.
      * intros x Hx. apply List.filter_In in Hx as [_ Hx].
        now apply negb_true_iff in Hx.
      * rewrite get_log_in_find, find_filter_gone; [reflexivity|].
        intros x Hx. now apply negb_true_iff in Hx.
      * intros n' g' Hne. rewrite !get_log_in_find. f_equal.
        apply find_filter_kept. intros x Hx. apply negb_true_iff.
        destruct (is_log n g x) eqn:Hx'; [|reflexivity].
        rewrite (is_log_other n g n' g' x Hne Hx') in Hx. discriminate.
    + split; [split; [discriminate|now intros [_ ?]]|].
      split; [discriminate|reflexivity].
  - simpl. split; [split; [discriminate|]|split; [discriminate|reflexivity]].
    intros [(log & Hin & Hl) _].
    assert ((length (List.filter (fun log => negb (is_log n g log))
               (logs (logs_file st))) <? length (logs (logs_file st)))%nat
            = true) as Hlt'.
    { apply filter_length_lt. exists log. split; [exact Hin|].
      now apply negb_false_iff. }
    congruence.
Qed.

(** X11: [update_log] on a writable store rewrites the found record's
    member, rule, description and punishment where a value is given and
    keeps them otherwise; a release time can be set but not cleared (None
    means: keep). Message id, guild, start, retraction flag and moderator
    are kept, and so is every other record's row. *)
Theorem update_log_row (now : Z) (st : store) (n g : Z) (user : option Z)
  (rule descr punish : option string) (release : option Z)
  (u : Z) (r d p : string) (mid : option Z) (gid : Z) (rel : option Z)
  (start : Z) (retr : bool) (modr : option Z) :
  writable st = true ->
  get_log st n g = Some (u, r, d, p, mid, gid, rel, start, retr, modr) ->
  let st' := snd (update_log now st n g user rule descr punish release) in
  fst (update_log now st n g user rule descr punish release) = true
  /\ get_log st' n g
     = Some (default u user, default r rule, default d descr,
             default p punish, mid, gid,
             match release with Some t => Some t | None => rel end,
             start, retr, modr)
  /\ forall n' g', (n', g') <> (n, g) ->
       get_log st' n' g' = get_log st n' g'.
Proof.
  intros Hwr Hget st'. subst st'. unfold update_log, get_log in *.
  destruct (update_first _ _ _) as [l|] eqn:Hu.
  - destruct (get_log_after_update n g
                (apply_update now user rule descr punish release) _ _
                (fun _ => eq_refl) (fun _ => eq_refl) Hu)
      as [Hsame Hother].
    rewrite save_logs_ok by exact Hwr. simpl. split; [reflexivity|].
    split; [|exact Hother].
    rewrite Hsame. rewrite get_log_in_find in Hget.
    destruct (List.find _ _) as [log|]; [|discriminate].
    simpl in *. injection Hget as <- <- <- <- <- <- <- <- <- <-.
    reflexivity.
  - apply update_first_found in Hu. rewrite get_log_in_find, Hu in Hget.
    discriminate.
Qed.

Lemma update_log_row_witness :
  get_log (snd (update_log 4000 two_sanctions_one_release 2 1 None None
                  (Some "flood") None None)) 2 1
  = Some (7, "rule 2", "flood", "1h", None, 1, Some 7200, 3600, false,
          Some 99).
Proof.
  exact (proj1 (proj2 (update_log_row 4000 two_sanctions_one_release 2 1
                         None None (Some "flood") None None
                         7 "rule 2" "spam" "1h" None 1 (Some 7200) 3600
                         false (Some 99) eq_refl eq_refl))).
Defined.

(** X12: [update_log_message_id] answers True exactly when the record
    exists and the file can be written; it then stores the message id on
    that record and changes nothing that the other queries see: the
    record's other fields, the other rows, the active and the expired
    sanctions and the offense counts. On False the store is as before. *)
Theorem update_log_message_id_sets (st : store) (n g m : Z) :
  let ok := fst (update_log_message_id st n g m) in
  let st' := snd (update_log_message_id st n g m) in
  (ok = true <-> get_log st n g <> None /\ writable st = true)
  /\ (ok = true ->
      (forall u r d p mid gid rel start retr modr,
          get_log st n g
          = Some (u, r, d, p, mid, gid, rel, start, retr, modr) ->
          get_log st' n g
          = Some (u, r, d, p, Some m, gid, rel, start, retr, modr))
      /\ (forall n' g', (n', g') <> (n, g) ->
            get_log st' n' g' = get_log st n' g')
      /\ (forall guild,
            get_active_punishments st' guild
            = get_active_punishments st guild)
      /\ (forall now_ts guild,
            get_expired_punishments now_ts st' guild
            = get_expired_punishments now_ts st guild)
      /\ (forall user guild,
            get_punishment_count st' user guild
            = get_punishment_count st user guild))
  /\ (ok = false -> st' = st).
Proof.
  intros ok st'. subst ok st'.
  unfold update_log_message_id, get_log, get_active_punishments,
    get_expired_punishments, get_punishment_count.
  rewrite get_log_in_find.
  destruct (update_first _ _ _) as [l|] eqn:Hu.
  - assert (List.find (is_log n g) (logs (logs_file st)) <> None) as Hfound.
    { intros Hnone.
      apply (proj2 (update_first_found _ (set_message_id m) _)) in Hnone.
      congruence. }
    unfold save_logs. destruct (writable st) eqn:Hwr; simpl.
    + split.
      { split; [intros _; split; [|reflexivity]|reflexivity].
        now destruct (List.find _ _). }
      split; [|discriminate]. intros _.
      destruct (get_log_after_update n g (set_message_id m) _ _
                  (fun _ => eq_refl) (fun _ => eq_refl) Hu)
        as [Hsame Hother].
      split; [|split; [exact Hother|]].
      * intros u r d p mid gid rel start retr modr Hget. rewrite Hsame.
        destruct (List.find _ _) as [log|]; [|discriminate].
        simpl in *. now injection Hget as <- <- <- <- <- <- <- <- <- <-.
      * apply update_first_some in Hu as (pre & x & post & -> & _ & _ & ->).
        repeat split; intros.
        -- rewrite !active_punishments_app. reflexivity.
        -- rewrite !expired_punishments_app. reflexivity.
        -- rewrite !count_punishments_spec. f_equal. f_equal.
           unfold prior_offenses_of. rewrite !List.filter_app, !length_app. simpl.
           now destruct (bool_decide _).
    + split.
      { split; [discriminate|now intros [_ ?]]. }
      split; [discriminate|reflexivity].
  - apply update_first_found in Hu. rewrite Hu. simpl.
    split; [split; [discriminate|now intros [? _]]|].
    split; [discriminate|reflexivity].
Qed.

Section LogIds.

Lemma NoDup_map_filter {A B : Type} (h : A -> B) (q : A -> bool)
  (l : list A) :
  NoDup (map h l) -> NoDup (map h (List.filter q l)).
Proof.
  induction l as [|x l IH]; simpl; [auto|].
  intros Hnd. apply NoDup_cons in Hnd as [Hx Hnd].
  destruct (q x); simpl; [|auto].
  apply NoDup_cons. split; [|auto].
  intros Hin. apply Hx.
  apply list_elem_of_In, in_map_iff in Hin as (y & Heq & Hin).
  apply list_elem_of_In, in_map_iff. exists y. split; [exact Heq|].
  now apply List.filter_In in Hin as [Hin _].
Qed.

Lemma log_ids_saved (st : store) (data : logs_data) :
  log_ids_sound (logs_file st) -> log_ids_sound data ->
  log_ids_sound (logs_file (snd (save_logs st data))).
Proof. intros Hst Hd. unfold save_logs. now destruct (writable st). Qed.

Lemma log_ids_updated (q : log_entry -> bool) (f : log_entry -> log_entry)
  (data : logs_data) (l : list log_entry) :
  (forall x, id (f x) = id x) ->
  update_first q f (logs data) = Some l ->
  log_ids_sound data -> log_ids_sound (mk_logs_data l (next_log_id data)).
Proof.
  intros Hid Hu [Hnd Hlt]. split; simpl.
  - now rewrite (update_first_map q f id _ _ Hid Hu).
  - apply update_first_some in Hu as (pre & x & post & Hl & _ & _ & ->).
    rewrite Hl in Hlt. intros log Hin.
    apply in_app_or in Hin as [Hin | [<- | Hin]].
    + apply Hlt, in_or_app. now left.
    + rewrite Hid. apply Hlt, in_or_app. right. now left.
    + apply Hlt, in_or_app. right. now right.
Qed.

Lemma log_ids_filtered (q : log_entry -> bool) (data : logs_data) :
  log_ids_sound data ->
  log_ids_sound (mk_logs_data (List.filter q (logs data))
                   (next_log_id data)).
Proof.
  intros [Hnd Hlt]. split; simpl.
  - now apply NoDup_map_filter.
  - intros log Hin. apply List.filter_In in Hin as [Hin _]. auto.
Qed.

End LogIds.

(** X13: the [id] of a sanction is a key, unlike its number: if the ids
    of the stored sanctions are distinct and below [next_log_id], they
    are so after [create_log], [update_log], [delete_log], [retract_log],
    [mark_punishment_completed], [update_log_message_id] and
    [cleanup_other_guild_data], whatever the arguments and whether or not
    the write succeeds. *)
Theorem log_ids_stay_sound (st : store) :
  log_ids_sound (logs_file st) ->
  (forall now guild user rule descr punish release start moderator,
      log_ids_sound
        (logs_file (snd (create_log now st guild user rule descr punish
                           release start moderator))))
  /\ (forall now n g user rule descr punish release,
        log_ids_sound
          (logs_file (snd (update_log now st n g user rule descr punish
                             release))))
  /\ (forall n g, log_ids_sound (logs_file (snd (delete_log st n g))))
  /\ (forall now n g retract,
        log_ids_sound (logs_file (snd (retract_log now st n g retract))))
  /\ (forall now user guild release,
        log_ids_sound
          (logs_file (snd (mark_punishment_completed now st user guild
                             release))))
  /\ (forall n g m,
        log_ids_sound (logs_file (snd (update_log_message_id st n g m))))
  /\ log_ids_sound (logs_file (snd (cleanup_other_guild_data st))).
Proof.
  intros Hst.
  split; [|split; [|split; [|split; [|split; [|split]]]]]; intros.
  - unfold create_log.
    set (entry := mk_log _ _ _ _ _ _ _ _ _ _ _ _ _ _ _).
    set (data := mk_logs_data _ _).
    assert (log_ids_sound data) as Hd.
    { destruct Hst as [Hnd Hlt]. subst data. split; simpl.
      - rewrite map_app. simpl. apply NoDup_app. split; [exact Hnd|].
        split; [|apply NoDup_singleton].
        intros i Hin Hin'. apply list_elem_of_singleton in Hin'. subst i.
        apply list_elem_of_In, in_map_iff in Hin as (log & Heq & Hin).
        specialize (Hlt log Hin). subst entry. simpl in Heq. lia.
      - intros log Hin. apply in_app_or in Hin as [Hin | [<- | []]].
        + specialize (Hlt log Hin). lia.
        + subst entry. simpl. lia. }
    pose proof (log_ids_saved st data Hst Hd) as Hs.
    now destruct (save_logs st data) as [[] ?].
  - unfold update_log. destruct (update_first _ _ _) eqn:Hu; [|exact Hst].
    apply log_ids_saved; [exact Hst|].
    eapply log_ids_updated; [|exact Hu|exact Hst]. reflexivity.
  - unfold delete_log. destruct (_ <? _)%nat; [|exact Hst].
    apply log_ids_saved; [exact Hst|]. now apply log_ids_filtered.
  - unfold retract_log. destruct (update_first _ _ _) eqn:Hu; [|exact Hst].
    apply log_ids_saved; [exact Hst|].
    eapply log_ids_updated; [|exact Hu|exact Hst]. reflexivity.
  - unfold mark_punishment_completed.
    destruct (update_first _ _ _) eqn:Hu; [|exact Hst].
    apply log_ids_saved; [exact Hst|].
    eapply log_ids_updated; [|exact Hu|exact Hst]. reflexivity.
  - unfold update_log_message_id.
    destruct (update_first _ _ _) eqn:Hu; [|exact Hst].
    apply log_ids_saved; [exact Hst|].
    eapply log_ids_updated; [|exact Hu|exact Hst]. reflexivity.
  - unfold cleanup_other_guild_data. destruct (0 <? _); [|exact Hst].
    apply log_ids_saved; [exact Hst|]. now apply log_ids_filtered.
Qed.

Lemma log_ids_stay_sound_witness :
  log_ids_sound (logs_file two_sanctions_one_release).
Proof.
  assert (H0 : log_ids_sound (logs_file init_data_storage))
    by (split; [apply NoDup_nil_2|intros log []]).
  pose proof (proj1 (log_ids_stay_sound _ H0) 0 1 7 "rule 2" "spam" "2h"
                (Some 7200) (Some 0) (Some 99)) as H1.
  exact (proj1 (log_ids_stay_sound _ H1) 3600 1 7 "rule 2" "spam" "1h"
           (Some 7200) (Some 3600) (Some 99)).
Defined.

(* ===================================================================== *)
(** * The sanction log: queries against each other, retraction           *)
(* ===================================================================== *)

(** X14: [/retract] toggles the flag, but not the state: retracting a
    timed sanction clears its release time, and a second [/retract]
    clears the flag only. After both, the row is the original one without
    its release time, so the sanction has no end any more. *)
Theorem retract_twice_loses_release_time (now1 now2 : Z) (st : store)
  (guild n : Z) (u : Z) (r d p : string) (mid : option Z) (gid : Z)
  (rel : option Z) (start : Z) (modr : option Z) :
  writable st = true ->
  get_log st n guild
  = Some (u, r, d, p, mid, gid, rel, start, false, modr) ->
  exists st1 st2,
    retract now1 st guild n = Some (true, st1)
    /\ get_log st1 n guild
       = Some (u, r, d, p, mid, gid, None, start, true, modr)
    /\ retract now2 st1 guild n = Some (true, st2)
    /\ get_log st2 n guild
       = Some (u, r, d, p, mid, gid, None, start, false, modr).
Proof.
  intros Hwr Hget.
  assert (Hstep : forall now st b u r d p mid gid rel start retr modr,
    writable st = true ->
    get_log st n guild = Some (u, r, d, p, mid, gid, rel, start, retr, modr) ->
    exists st', retract_log now st n guild b = (true, st')
      /\ writable st' = true
      /\ get_log st' n guild
         = Some (u, r, d, p, mid, gid, if b then None else rel, start, b,
                 modr)).
  { clear. intros now st b u r d p mid gid rel start retr modr Hwr Hget.
    unfold retract_log, get_log in *.
    destruct (update_first _ _ _) as [l|] eqn:Hu.
    - rewrite save_logs_ok by exact Hwr. eexists. split; [reflexivity|].
      split; [exact Hwr|]. simpl.
      destruct (get_log_after_update n guild (apply_retract now b) _ _
                  (fun _ => eq_refl) (fun _ => eq_refl) Hu) as [-> _].
      rewrite get_log_in_find in Hget.
      destruct (List.find _ _) as [log|]; [|discriminate].
      simpl in *. now injection Hget as <- <- <- <- <- <- <- <- <- <-.
    - apply update_first_found in Hu. rewrite get_log_in_find, Hu in Hget.
      discriminate. }
  destruct (Hstep now1 st true _ _ _ _ _ _ _ _ _ _ Hwr Hget)
    as (st1 & Hr1 & Hwr1 & Hget1).
  destruct (Hstep now2 st1 false _ _ _ _ _ _ _ _ _ _ Hwr1 Hget1)
    as (st2 & Hr2 & _ & Hget2).
  exists st1, st2. unfold retract.
  rewrite Hget, Hget1. simpl. rewrite Hr1, Hr2. auto.
Qed.

Lemma retract_twice_loses_release_time_witness :
  exists st1 st2,
    retract 4000 two_sanctions_one_release 1 2 = Some (true, st1)
    /\ get_log st1 2 1
       = Some (7, "rule 2", "spam", "1h", None, 1, None, 3600, true, Some 99)
    /\ retract 5000 st1 1 2 = Some (true, st2)
    /\ get_log st2 2 1
       = Some (7, "rule 2", "spam", "1h", None, 1, None, 3600, false,
               Some 99).
Proof.
  exact (retract_twice_loses_release_time 4000 5000
           two_sanctions_one_release 1 2 7 "rule 2" "spam" "1h" None 1
           (Some 7200) 3600 (Some 99) eq_refl eq_refl).
Defined.

(** X15: [get_expired_punishments] lists exactly the rows of
    [get_active_punishments] whose release time is not after the given
    time, in the same order and without the start time. *)
Theorem expired_are_the_due_active (now_ts : Z) (st : store)
  (guild : option Z) :
  get_expired_punishments now_ts st guild
  = map (fun row : Z * Z * Z * Z =>
           let '(user, g, release, _) := row in (user, g, release))
      (List.filter
         (fun row : Z * Z * Z * Z =>
            let '(_, _, release, _) := row in release <=? now_ts)
         (get_active_punishments st guild)).
Proof.
  unfold get_expired_punishments, get_active_punishments.
  induction (logs (logs_file st)) as [|log l IH]; simpl; [reflexivity|].
  destruct (release_time log) as [release|]; [|exact IH].
  destruct (retracted log); simpl.
  - rewrite andb_false_r. exact IH.
  - rewrite andb_true_r.
    destruct (guild_selected guild (guild_id log)); simpl.
    + rewrite andb_true_r.
      destruct (release <=? now_ts); simpl; now rewrite IH.
    + rewrite andb_false_r. exact IH.
Qed.

(** X16: [get_punishment_count] is the length of
    [get_user_punishments] without the retracted ones, which in turn is
    the full list of [get_user_punishments] with the rows flagged as
    retracted left out. *)
Theorem punishment_count_is_list_length (st : store) (user guild : Z) :
  get_punishment_count st user guild
  = Z.of_nat (length (get_user_punishments st user guild false))
  /\ get_user_punishments st user guild false
     = List.filter
         (fun row : Z * string * string * bool =>
            let '(_, _, _, retr) := row in negb retr)
         (get_user_punishments st user guild true).
Proof.
  unfold get_punishment_count, get_user_punishments. split.
  - enough (forall l count,
      count_punishments user guild l count
      = count + Z.of_nat (length (user_punishments_in user guild false l)))
      as H by (rewrite H; lia).
    induction l as [|log l IH]; intros count; simpl; [lia|].
    destruct ((user_id log =? user) && (guild_id log =? guild)
              && negb (retracted log)); simpl; rewrite IH; lia.
  - induction (logs (logs_file st)) as [|log l IH]; simpl; [reflexivity|].
    destruct ((user_id log =? user) && (guild_id log =? guild)); simpl;
      [|exact IH].
    destruct (retracted log); simpl; [exact IH|now rewrite IH].
Qed.

(** X17: [cleanup_other_guild_data] reports the number of sanctions of
    other guilds than [ALLOWED_GUILD_ID]. On a writable store exactly
    these are removed, the allowed guild's active sanctions are as
    before, and a second run reports 0 and changes nothing. On a store
    that cannot be written the same number is reported although nothing
    was removed: the outcome of the save is not looked at. *)
Theorem cleanup_other_guild_data_keeps_allowed (st : store) :
  let removed := fst (cleanup_other_guild_data st) in
  let st' := snd (cleanup_other_guild_data st) in
  removed
  = Z.of_nat
      (length (List.filter
                 (fun log => negb (guild_id log =? ALLOWED_GUILD_ID))
                 (logs (logs_file st))))
  /\ (writable st = true ->
      (forall log,
          In log (logs (logs_file st'))
          <-> In log (logs (logs_file st))
              /\ guild_id log = ALLOWED_GUILD_ID)
      /\ get_active_punishments st' (Some ALLOWED_GUILD_ID)
         = get_active_punishments st (Some ALLOWED_GUILD_ID)
      /\ cleanup_other_guild_data st' = (0, st'))
  /\ (writable st = false -> st' = st).
Proof.
  intros removed st'. subst removed st'.
  unfold cleanup_other_guild_data, get_active_punishments.
  set (q := fun log => guild_id log =? ALLOWED_GUILD_ID).
  set (l := logs (logs_file st)).
  assert (Hcount :
    Z.of_nat (length l) - Z.of_nat (length (List.filter q l))
    = Z.of_nat
        (length (List.filter
                   (fun log => negb (guild_id log =? ALLOWED_GUILD_ID)) l))).
  { pose proof (List.filter_length q l) as Hlen. unfold q in *. lia. }
  assert (Hidem : List.filter q (List.filter q l) = List.filter q l).
  { clear. induction l as [|x l IH]; simpl; [reflexivity|].
    destruct (q x) eqn:Hq; simpl; [|exact IH]. now rewrite Hq, IH. }
  assert (Hactive :
    active_punishments_in (Some ALLOWED_GUILD_ID) (List.filter q l)
    = active_punishments_in (Some ALLOWED_GUILD_ID) l).
  { clear. induction l as [|x l IH]; [reflexivity|].
    cbn [List.filter active_punishments_in guild_selected].
    unfold q at 1. destruct (guild_id x =? ALLOWED_GUILD_ID) eqn:Hq.
    - cbn [active_punishments_in guild_selected]. now rewrite Hq, IH.
    - rewrite andb_false_r. now destruct (release_time x). }
  destruct (0 <? _) eqn:Hpos; simpl.
  - split; [exact Hcount|]. unfold save_logs. split.
    + intros ->. simpl. fold l. split; [|split; [exact Hactive|]].
      * intros log. rewrite List.filter_In. unfold q. now rewrite Z.eqb_eq.
      * rewrite Hidem, Z.sub_diag. reflexivity.
    + now intros ->.
  - apply Z.ltb_ge in Hpos. split; [lia|]. split; [|reflexivity].
    intros _. fold l. split; [|split; [reflexivity|]].
    + intros log. split; [|now intros [? _]]. intros Hin.
      split; [exact Hin|].
      assert (List.filter q l = l) as Hall.
      { clear - Hpos. induction l as [|x l IH]; simpl in *;
          [reflexivity|].
        pose proof (List.filter_length_le q l).
        destruct (q x); simpl in *; [f_equal; apply IH|]; lia. }
      rewrite <- Hall in Hin. apply List.filter_In in Hin as [_ Hq].
      now apply Z.eqb_eq.
    + assert ((0 <? Z.of_nat (length l)
                    - Z.of_nat (length (List.filter q l))) = false) as ->
        by (apply Z.ltb_ge; lia).
      reflexivity.
Qed.

(* ===================================================================== *)
(** * Temp bans: cancelling early                                         *)
(* ===================================================================== *)

Section TempBanFacts.

(** An in-place update of the first [q]-element, seen by a lookup that
    accepts no [q]-element, before or after the update. *)
Lemma find_update_first_disjoint {A : Type} (p q : A -> bool) (f : A -> A)
  (l l' : list A) :
  (forall x, q x = true -> p x = false) ->
  (forall x, q x = true -> p (f x) = false) ->
  update_first q f l = Some l' ->
  List.find p l' = List.find p l.
Proof.
  intros Hpq Hpf Hu.
  apply update_first_some in Hu as (pre & x & post & -> & Hpre & Hx & ->).
  rewrite !find_app_first. simpl. now rewrite (Hpf x Hx), (Hpq x Hx).
Qed.

(** [get_temp_ban_for_user] and [cancel_temp_ban_record] look for the
    same record. *)
Lemma get_temp_ban_for_user_find (st : store) (user guild : Z) :
  get_temp_ban_for_user st user guild
  = List.find (is_active_ban user guild) (temp_bans_file st).
Proof.
  unfold get_temp_ban_for_user, get_active_temp_bans.
  induction (temp_bans_file st) as [|ban l IH]; simpl; [reflexivity|].
  unfold is_active_ban at 1.
  destruct (tb_unbanned ban); simpl.
  - rewrite andb_false_r. exact IH.
  - destruct (tb_guild_id ban =? guild); simpl.
    + rewrite !andb_true_r. destruct (tb_user_id ban =? user);
        [reflexivity|exact IH].
    + rewrite andb_false_r. exact IH.
Qed.

Lemma cancel_temp_ban_record_one_less (now : Z) (st : store)
  (user guild cancelled_by : Z) :
  get_temp_ban_for_user st user guild <> None -> writable st = true ->
  fst (cancel_temp_ban_record now st user guild cancelled_by) = true
  /\ (length (get_active_temp_bans
                (snd (cancel_temp_ban_record now st user guild
                        cancelled_by)) (Some guild)) + 1
      = length (get_active_temp_bans st (Some guild)))%nat.
Proof.
  rewrite get_temp_ban_for_user_find. intros Hfound Hwr.
  unfold cancel_temp_ban_record.
  destruct (update_first _ _ _) as [l|] eqn:Hu.
  - unfold save_temp_bans. rewrite Hwr. simpl. split; [reflexivity|].
    apply update_first_some in Hu as
        (pre & ban & post & Hl & _ & Hban & ->).
    unfold get_active_temp_bans. simpl. rewrite Hl.
    rewrite !List.filter_app, !length_app. simpl.
    unfold is_active_ban in Hban.
    apply andb_true_iff in Hban as [Hban Hunb].
    apply andb_true_iff in Hban as [_ Hg].
    rewrite Hunb, Hg. simpl. lia.
  - apply update_first_found in Hu. contradiction.
Qed.

End TempBanFacts.

(** X18: [cancel_temp_ban_record] answers True exactly when
    [get_temp_ban_for_user] finds an active ban and the file can be
    written. It then cancels that very record (unbanned, cancelled early,
    by whom and when), so the guild has one active ban less; the active
    bans of other members and guilds and the sanction log are unchanged.
    On False the store is as before. *)
Theorem cancel_temp_ban_record_cancels_found (now : Z) (st : store)
  (user guild cancelled_by : Z) :
  let ok := fst (cancel_temp_ban_record now st user guild cancelled_by) in
  let st' := snd (cancel_temp_ban_record now st user guild cancelled_by) in
  (ok = true
   <-> get_temp_ban_for_user st user guild <> None /\ writable st = true)
  /\ (ok = true ->
      (exists pre ban post,
          get_temp_ban_for_user st user guild = Some ban
          /\ temp_bans_file st = pre ++ ban :: post
          /\ temp_bans_file st'
             = pre ++ apply_cancelled now cancelled_by ban :: post)
      /\ (length (get_active_temp_bans st' (Some guild)) + 1
          = length (get_active_temp_bans st (Some guild)))%nat
      /\ (forall user' guild', (user', guild') <> (user, guild) ->
            get_temp_ban_for_user st' user' guild'
            = get_temp_ban_for_user st user' guild')
      /\ logs_file st' = logs_file st)
  /\ (ok = false -> st' = st).
Proof.
  intros ok st'. subst ok st'. rewrite get_temp_ban_for_user_find.
  unfold cancel_temp_ban_record.
  destruct (update_first _ _ _) as [l|] eqn:Hu.
  - assert (List.find (is_active_ban user guild) (temp_bans_file st) <> None)
      as Hfound.
    { intros Hnone.
      apply (proj2 (update_first_found _
                      (apply_cancelled now cancelled_by) _)) in Hnone.
      congruence. }
    unfold save_temp_bans. destruct (writable st) eqn:Hwr; simpl.
    + split; [split; auto|]. split; [|discriminate]. intros _.
      split; [|split; [|split; [|reflexivity]]].
      * pose proof Hu as Hu'.
        apply update_first_some in Hu' as
            (pre & ban & post & Hl & Hpre & Hban & ->).
        exists pre, ban, post. split; [|split; [exact Hl|reflexivity]].
        rewrite Hl, find_app_first.
        assert (List.find (is_active_ban user guild) pre = None) as ->
          by now apply find_none_iff.
        simpl. now rewrite Hban.
      * pose proof (cancel_temp_ban_record_one_less now st user guild
                      cancelled_by) as Hless.
        rewrite get_temp_ban_for_user_find in Hless.
        destruct (Hless Hfound Hwr) as [_ Hlen].
        unfold cancel_temp_ban_record, save_temp_bans in Hlen.
        now rewrite Hu, Hwr in Hlen.
      * intros user' guild' Hne. rewrite !get_temp_ban_for_user_find.
        simpl.
        apply (find_update_first_disjoint _ (is_active_ban user guild)
                 (apply_cancelled now cancelled_by)); [| |exact Hu].
        -- intros x Hx. unfold is_active_ban in *.
           apply andb_true_iff in Hx as [Hx _].
           apply andb_true_iff in Hx as [Hu' Hg].
           apply Z.eqb_eq in Hu', Hg.
           destruct (tb_user_id x =? user') eqn:E1;
             destruct (tb_guild_id x =? guild') eqn:E2; simpl;
             try reflexivity.
           apply Z.eqb_eq in E1, E2. congruence.
        -- intros x _. unfold is_active_ban. simpl. apply andb_false_r.
    + split; [split; [discriminate|now intros [_ ?]]|].
      split; [discriminate|reflexivity].
  - apply update_first_found in Hu. rewrite Hu. simpl.
    split; [split; [discriminate|now intros [? _]]|].
    split; [discriminate|reflexivity].
Qed.

(** X19: [/tempban_cancel] for a member with an active temp ban, on a
    writable store: whatever the platform answers to the unban, the
    scheduled unban is gone and the ban record is cancelled. The member
    is unbanned exactly when the reply is the success message; when the
    platform refuses the unban the member stays banned, with no timer
    and no active record left to lift the ban later. *)
Theorem tempban_cancel_effects (now : Z) (e : faults) (w : world)
  (guild user cancelled_by : Z) (ban : temp_ban) :
  get_temp_ban_for_user (w_store w) user guild = Some ban ->
  writable (w_store w) = true ->
  let reply := fst (tempban_cancel now e w guild user cancelled_by) in
  let w' := snd (tempban_cancel now e w guild user cancelled_by) in
  scheduled_unbans (w_sched w') !! user = None
  /\ (length (get_active_temp_bans (w_store w') (Some guild)) + 1
      = length (get_active_temp_bans (w_store w) (Some guild)))%nat
  /\ (reply = TempBanCancelled (tb_log_number ban)
      <-> (user ∉ unban_fails e) /\ user ∈ banned (w_platform w))
  /\ (reply = TempBanCancelled (tb_log_number ban) ->
      (user ∉ banned (w_platform w'))
      /\ w_trace w' = w_trace w ++ [Unban user])
  /\ (user ∈ unban_fails e ->
      reply = CancelRefused
      /\ banned (w_platform w') = banned (w_platform w)
      /\ w_trace w' = w_trace w).
Proof.
  intros Hban Hwr reply w'. subst reply w'.
  assert (get_temp_ban_for_user (w_store w) user guild <> None) as Hsome
    by congruence.
  destruct (cancel_temp_ban_record_one_less now (w_store w) user guild
              cancelled_by Hsome Hwr) as [_ Hlen].
  assert (Hgone : scheduled_unbans (snd (cancel_temp_unban (w_sched w) user))
                    !! user = None).
  { unfold cancel_temp_unban.
    destruct (scheduled_unbans (w_sched w) !! user) eqn:Hs; simpl;
      [apply lookup_delete_eq|exact Hs]. }
  unfold tempban_cancel. rewrite Hban.
  destruct (bool_decide (user ∈ unban_fails e)) eqn:Hf.
  - apply bool_decide_eq_true in Hf. simpl.
    split; [exact Hgone|]. split; [exact Hlen|].
    split; [split; [discriminate|now intros [? _]]|].
    split; [discriminate|auto].
  - apply bool_decide_eq_false in Hf.
    destruct (bool_decide (user ∈ banned (w_platform w))) eqn:Hb; simpl.
    + apply bool_decide_eq_true in Hb.
      split; [exact Hgone|]. split; [exact Hlen|].
      split; [split; auto|]. split; [|contradiction].
      intros _. split; [|reflexivity].
      rewrite elem_of_difference, elem_of_singleton. now intros [_ H].
    + apply bool_decide_eq_false in Hb.
      split; [exact Hgone|]. split; [exact Hlen|].
      split; [split; [discriminate|now intros [_ ?]]|].
      split; [discriminate|contradiction].
Qed.

Lemma tempban_cancel_effects_witness :
  fst (tempban_cancel 200 (mk_faults true true ∅ ∅ {[7]} ∅) banned_member
         1 7 99) = CancelRefused
  /\ banned (w_platform
               (snd (tempban_cancel 200 (mk_faults true true ∅ ∅ {[7]} ∅)
                       banned_member 1 7 99)))
     = banned (w_platform banned_member).
Proof.
  destruct (tempban_cancel_effects 200 (mk_faults true true ∅ ∅ {[7]} ∅)
              banned_member 1 7 99
              (mk_temp_ban 1 7 99 3 "400m" (Some 500) "Temp ban for log #3"
                 100 false None false None)
              eq_refl eq_refl) as (_ & _ & _ & _ & Href).
  destruct (Href (proj2 (elem_of_singleton (C := gset Z) 7 7) eq_refl))
    as (Hr & Hb & _).
  split; [exact Hr|exact Hb].
Defined.

(* ===================================================================== *)
(** * The scheduler: cancelling, firing, shutting down                    *)
(* ===================================================================== *)

Section Cancelling.

Lemma no_member_nil {A : Type} (l : list A) :
  (forall x, ~ In x l) -> l = [].
Proof.
  destruct l as [|x l]; [reflexivity|]. intros H.
  destruct (H x). now left.
Qed.

(** A timer that still waits after task [h] was cancelled is another
    task, and it waited before. *)
Lemma live_after_cancel (removal : bool) (user : Z) (s s' : scheduler)
  (h h' : nat) :
  loop_tasks s' = cancel h (loop_tasks s) ->
  In h' (live_timers removal user s') ->
  h' <> h /\ In h' (live_timers removal user s).
Proof.
  intros Htasks Hin. apply live_timers_spec in Hin as (t & Hl & Hp & Hu & Hk).
  rewrite Htasks in Hl.
  destruct (pending_after_cancel _ _ _ _ Hl Hp) as [Hne Hl'].
  split; [exact Hne|]. apply live_timers_spec. now exists t.
Qed.

Lemma cancel_registered (removal : bool) (user : Z) (s s' : scheduler)
  (h : nat) :
  registered_only removal s ->
  registry removal s !! user = Some h ->
  loop_tasks s' = cancel h (loop_tasks s) ->
  registry removal s' = delete user (registry removal s) ->
  live_timers removal user s' = [] /\ registered_only removal s'.
Proof.
  intros Hreg Hh Htasks Hdict.
  assert (Hnone : forall h', ~ In h' (live_timers removal user s')).
  { intros h' Hin.
    destruct (live_after_cancel _ _ _ _ _ _ Htasks Hin) as [Hne Hin'].
    specialize (Hreg _ _ Hin'). congruence. }
  split; [now apply no_member_nil|].
  intros user' h' Hin. rewrite Hdict.
  destruct (decide (user' = user)) as [->|Hne]; [now destruct (Hnone h')|].
  rewrite lookup_delete_ne by congruence.
  destruct (live_after_cancel _ _ _ _ _ _ Htasks Hin) as [_ Hin'].
  exact (Hreg _ _ Hin').
Qed.

Lemma unregistered_no_timer (removal : bool) (user : Z) (s : scheduler) :
  registered_only removal s ->
  registry removal s !! user = None ->
  live_timers removal user s = [].
Proof.
  intros Hreg Hnone. apply no_member_nil. intros h Hin.
  specialize (Hreg _ _ Hin). congruence.
Qed.

Lemma registered_only_armed :
  registered_only true (schedule_role_removal empty_scheduler 1 7 7200)
  /\ registered_only false (schedule_temp_unban empty_scheduler 1 7 500 3).
Proof.
  split.
  - exact (rearm_registered_only empty_scheduler 1 7 7200
             (registered_only_empty true)).
  - exact (schedule_temp_unban_registered_only empty_scheduler 1 7 500 3
             (registered_only_empty false)).
Qed.

End Cancelling.

(** X20: cancelling a member's scheduled task, with
    [cancel_scheduled_removal] for role removals and with
    [cancel_temp_unban] for unbans, when every waiting task of that sort
    is the registered one: the member is left without a waiting task of
    the sort and without a dictionary entry, the other members' waiting
    tasks stay the registered ones, and the other dictionary is not
    touched. [cancel_temp_unban] answers True exactly when an unban was
    registered for the member. *)
Theorem cancelling_leaves_no_timer (s : scheduler) (user : Z) :
  (registered_only true s ->
   let s' := cancel_scheduled_removal s user in
   live_timers true user s' = []
   /\ scheduled_removals s' !! user = None
   /\ registered_only true s'
   /\ scheduled_unbans s' = scheduled_unbans s)
  /\ (registered_only false s ->
      let ok := fst (cancel_temp_unban s user) in
      let s' := snd (cancel_temp_unban s user) in
      (ok = true <-> scheduled_unbans s !! user <> None)
      /\ live_timers false user s' = []
      /\ scheduled_unbans s' !! user = None
      /\ registered_only false s'
      /\ scheduled_removals s' = scheduled_removals s).
Proof.
  split.
  - intros Hreg s'. subst s'. unfold cancel_scheduled_removal.
    destruct (scheduled_removals s !! user) as [h|] eqn:Hh.
    + destruct (cancel_registered true user s
                  (mk_scheduler (cancel h (loop_tasks s))
                     (delete user (scheduled_removals s))
                     (scheduled_unbans s))
                  h Hreg Hh eq_refl eq_refl) as [Hnil Hreg'].
      split; [exact Hnil|]. split; [apply lookup_delete_eq|].
      split; [exact Hreg'|reflexivity].
    + split; [now apply (unregistered_no_timer true)|]. auto.
  - intros Hreg ok s'. subst ok s'. unfold cancel_temp_unban.
    destruct (scheduled_unbans s !! user) as [h|] eqn:Hh; simpl.
    + destruct (cancel_registered false user s
                  (mk_scheduler (cancel h (loop_tasks s))
                     (scheduled_removals s)
                     (delete user (scheduled_unbans s)))
                  h Hreg Hh eq_refl eq_refl) as [Hnil Hreg'].
      split; [split; [discriminate|reflexivity]|].
      split; [exact Hnil|]. split; [apply lookup_delete_eq|].
      split; [exact Hreg'|reflexivity].
    + split; [split; [discriminate|congruence]|].
      split; [now apply (unregistered_no_timer false)|]. auto.
Qed.

Lemma cancelling_leaves_no_timer_witness :
  live_timers true 7
    (cancel_scheduled_removal
       (schedule_role_removal empty_scheduler 1 7 7200) 7) = []
  /\ live_timers false 7
       (snd (cancel_temp_unban
               (schedule_temp_unban empty_scheduler 1 7 500 3) 7)) = [].
Proof.
  split.
  - exact (proj1 (proj1 (cancelling_leaves_no_timer
                           (schedule_role_removal empty_scheduler 1 7 7200)
                           7)
                    (proj1 registered_only_armed))).
  - exact (proj1 (proj2 (proj2 (cancelling_leaves_no_timer
                                  (schedule_temp_unban empty_scheduler 1 7
                                     500 3) 7)
                           (proj2 registered_only_armed)))).
Defined.

Section Firing.

Lemma pending_after_finish (h0 h : nat) (l : list task) (t : task) :
  alter (set_state Finished) h0 l !! h = Some t -> is_pending t = true ->
  h <> h0 /\ l !! h = Some t.
Proof.
  intros Hl Hp. destruct (decide (h = h0)) as [->|Hne].
  - rewrite list_lookup_alter_eq in Hl.
    destruct (l !! h0) as [t0|]; [|discriminate].
    injection Hl as <-. discriminate.
  - rewrite list_lookup_alter_ne in Hl by congruence. auto.
Qed.

Lemma live_after_finish (removal : bool) (user : Z) (s s' : scheduler)
  (h h' : nat) :
  loop_tasks s' = finish h s ->
  In h' (live_timers removal user s') ->
  h' <> h /\ In h' (live_timers removal user s).
Proof.
  intros Htasks Hin. apply live_timers_spec in Hin as (t & Hl & Hp & Hu & Hk).
  rewrite Htasks in Hl.
  destruct (pending_after_finish _ _ _ _ Hl Hp) as [Hne Hl'].
  split; [exact Hne|]. apply live_timers_spec. now exists t.
Qed.

(** A task that ran: its own dictionary entry may go, nothing else. *)
Lemma finish_registered (removal : bool) (s s' : scheduler) (h : nat)
  (t : task) :
  registered_only removal s ->
  loop_tasks s !! h = Some t -> is_pending t = true ->
  loop_tasks s' = finish h s ->
  registry removal s' = registry removal s
  \/ (registry removal s' = delete (task_user t) (registry removal s)
      /\ is_removal (task_kind_of t) = removal) ->
  registered_only removal s'.
Proof.
  intros Hreg Ht Hp Htasks Hdict user' h' Hin.
  destruct (live_after_finish _ _ _ _ _ _ Htasks Hin) as [Hne Hin'].
  pose proof (Hreg _ _ Hin') as Hh'.
  destruct Hdict as [-> | [-> Hk]]; [exact Hh'|].
  destruct (decide (user' = task_user t)) as [->|Hu].
  - assert (In h (live_timers removal (task_user t) s)) as Hlive
      by (apply live_timers_spec; now exists t).
    specialize (Hreg _ _ Hlive). congruence.
  - rewrite lookup_delete_ne by congruence. exact Hh'.
Qed.

End Firing.

(** X21: the event loop resuming a task keeps, for role removals and for
    unbans alike, every waiting task the registered one; a task that is
    not waiting, or whose time has not come, changes nothing; and the
    resumed task does not wait any more once its time has come. *)
Theorem fire_keeps_registered_only (now : Z) (h : nat) (w : world) :
  registered_only true (w_sched w) ->
  registered_only false (w_sched w) ->
  registered_only true (w_sched (fire now h w))
  /\ registered_only false (w_sched (fire now h w))
  /\ (forall t, loop_tasks (w_sched w) !! h = Some t ->
        is_pending t = false \/ now < task_time t -> fire now h w = w)
  /\ (forall t removal user,
        loop_tasks (w_sched w) !! h = Some t -> task_time t <= now ->
        ~ In h (live_timers removal user (w_sched (fire now h w)))).
Proof.
  intros Hrem Hunb.
  assert (Hbody : forall t,
    loop_tasks (w_sched w) !! h = Some t -> is_pending t = true ->
    let w' := match task_kind_of t with
              | RoleRemoval => remove_role_later now h t w
              | TempUnban _ => unban_later now h t w
              end in
    registered_only true (w_sched w') /\ registered_only false (w_sched w')
    /\ loop_tasks (w_sched w') = finish h (w_sched w)).
  { intros t Ht Hp. destruct (task_kind_of t) eqn:Hk; simpl.
    - unfold remove_role_later.
      destruct (bool_decide (task_user t ∈ members (w_platform w)));
        [destruct (bool_decide (task_user t ∈ in_canada (w_platform w)))|];
        simpl; (split; [|split; [|reflexivity]]);
        (eapply finish_registered; [eassumption|exact Ht|exact Hp
                                   |reflexivity|]); simpl;
        rewrite ?Hk; auto.
    - unfold unban_later.
      destruct (bool_decide (task_user t ∈ banned (w_platform w))); simpl;
        (split; [|split; [|reflexivity]]);
        (eapply finish_registered; [eassumption|exact Ht|exact Hp
                                   |reflexivity|]); simpl;
        rewrite ?Hk; auto. }
  unfold fire.
  destruct (loop_tasks (w_sched w) !! h) as [t|] eqn:Ht.
  2:{ repeat split; auto; intros; discriminate. }
  destruct (task_state_of t) eqn:Hs.
  2,3: (split; [exact Hrem|]; split; [exact Hunb|]; split; [reflexivity|];
        intros t' removal user [= <-] _ Hin;
        apply live_timers_spec in Hin as (t' & Ht' & Hp & _);
        rewrite Ht in Ht'; injection Ht' as <-;
        unfold is_pending in Hp; rewrite Hs in Hp; discriminate).
  assert (Hp : is_pending t = true) by (unfold is_pending; now rewrite Hs).
  destruct (Hbody t eq_refl Hp) as (Hrem' & Hunb' & Htasks).
  destruct (delay (task_time t) now =? 0) eqn:Hd.
  - split; [exact Hrem'|]. split; [exact Hunb'|]. split.
    + intros t' [= <-] [Hnp | Hlate]; [congruence|].
      apply Z.eqb_eq in Hd. unfold delay in Hd. lia.
    + intros t' removal user [= <-] _ Hin.
      destruct (live_after_finish _ _ _ _ _ _ Htasks Hin) as [Hne _].
      now apply Hne.
  - split; [exact Hrem|]. split; [exact Hunb|]. split; [reflexivity|].
    intros t' removal user [= <-] Hdue _.
    apply Z.eqb_neq in Hd. unfold delay in Hd. lia.
Qed.

Lemma fire_keeps_registered_only_witness :
  registered_only true (w_sched (fire 7200 0 once_to_canada))
  /\ ~ In 0%nat (live_timers true 7 (w_sched (fire 7200 0 once_to_canada))).
Proof.
  assert (Hrem : registered_only true (w_sched once_to_canada))
    by exact (proj1 registered_only_armed).
  assert (Hunb : registered_only false (w_sched once_to_canada))
    by (intros u h' Hin;
        apply live_timers_spec in Hin as (t & Ht & _ & _ & Hk);
        destruct h' as [|h']; vm_compute in Ht;
        [injection Ht as <-|destruct h']; discriminate).
  destruct (fire_keeps_registered_only 7200 0 once_to_canada Hrem Hunb)
    as (H1 & _ & _ & H4).
  split; [exact H1|].
  exact (H4 (mk_task RoleRemoval 1 7 7200 Pending) true 7 eq_refl
           ltac:(simpl; lia)).
Defined.

Section ShuttingDown.

Lemma pending_after_cancel_all (registered : gmap Z nat) (tasks : list task)
  (h : nat) (t : task) :
  cancel_all registered tasks !! h = Some t -> is_pending t = true ->
  tasks !! h = Some t /\ forall user, registered !! user <> Some h.
Proof.
  unfold cancel_all. intros Hl Hp.
  enough (tasks !! h = Some t
          /\ forall entry, In entry (map_to_list registered) ->
                           snd entry <> h) as [Ht Hno].
  { split; [exact Ht|]. intros user Hreg.
    apply elem_of_map_to_list, list_elem_of_In in Hreg.
    now apply (Hno _ Hreg). }
  revert t Hl Hp.
  induction (map_to_list registered) as [|entry l IH]; simpl;
    intros t Hl Hp.
  - split; [exact Hl|]. now intros entry [].
  - destruct (pending_after_cancel _ _ _ _ Hl Hp) as [Hne Hl'].
    destruct (IH t Hl' Hp) as [Ht Hno]. split; [exact Ht|].
    intros x [<- | Hx]; [congruence|auto].
Qed.

Lemma length_cancel_all (registered : gmap Z nat) (tasks : list task) :
  length (cancel_all registered tasks) = length tasks.
Proof.
  unfold cancel_all.
  induction (map_to_list registered) as [|entry l IH]; simpl;
    [reflexivity|].
  unfold cancel. now rewrite length_alter.
Qed.

End ShuttingDown.

(** X22: [cleanup_scheduled_tasks] empties both dictionaries and keeps
    every task; when every waiting task was a registered one, no task of
    either sort waits for any member afterwards. *)
Theorem cleanup_scheduled_tasks_leaves_no_timer (s : scheduler) :
  registered_only true s -> registered_only false s ->
  let s' := cleanup_scheduled_tasks s in
  scheduled_removals s' = ∅
  /\ scheduled_unbans s' = ∅
  /\ length (loop_tasks s') = length (loop_tasks s)
  /\ forall removal user, live_timers removal user s' = [].
Proof.
  intros Hrem Hunb s'. subst s'. unfold cleanup_scheduled_tasks. simpl.
  split; [reflexivity|]. split; [reflexivity|].
  split; [now rewrite !length_cancel_all|].
  intros removal user. apply no_member_nil. intros h Hin.
  apply live_timers_spec in Hin as (t & Hl & Hp & Hu & Hk). simpl in Hl.
  destruct (pending_after_cancel_all _ _ _ _ Hl Hp) as [Hl1 Hno_unb].
  destruct (pending_after_cancel_all _ _ _ _ Hl1 Hp) as [Hl2 Hno_rem].
  assert (In h (live_timers removal user s)) as Hlive
    by (apply live_timers_spec; now exists t).
  destruct removal.
  - exact (Hno_rem user (Hrem _ _ Hlive)).
  - exact (Hno_unb user (Hunb _ _ Hlive)).
Qed.

Lemma cleanup_scheduled_tasks_leaves_no_timer_witness :
  live_timers true 7 (cleanup_scheduled_tasks (w_sched once_to_canada)) = [].
Proof.
  assert (Hunb : registered_only false (w_sched once_to_canada))
    by (intros u h' Hin;
        apply live_timers_spec in Hin as (t & Ht & _ & _ & Hk);
        destruct h' as [|h']; vm_compute in Ht;
        [injection Ht as <-|destruct h']; discriminate).
  exact (proj2 (proj2 (proj2 (cleanup_scheduled_tasks_leaves_no_timer
                                (w_sched once_to_canada)
                                (proj1 registered_only_armed) Hunb)))
           true 7).
Defined.

(* ===================================================================== *)
(** * The periodic sweep                                                  *)
(* ===================================================================== *)

Section SweepStore.

(** The first expired sanction of a list of records. *)
Lemma expired_head_split (now_ts : Z) (guild : option Z)
  (l : list log_entry) (t : Z * Z * Z) (rest : list (Z * Z * Z)) :
  expired_punishments_in now_ts guild l = t :: rest ->
  exists pre log post r,
    l = pre ++ log :: post
    /\ expired_punishments_in now_ts guild pre = []
    /\ release_time log = Some r /\ r <= now_ts
    /\ retracted log = false
    /\ guild_selected guild (guild_id log) = true
    /\ t = (user_id log, guild_id log, r)
    /\ expired_punishments_in now_ts guild post = rest.
Proof.
  induction l as [|x l IH]; simpl; [discriminate|].
  destruct (release_time x) as [r|] eqn:Hr.
  - destruct ((r <=? now_ts) && negb (retracted x)
              && guild_selected guild (guild_id x)) eqn:Hc.
    + intros [= <- <-]. exists [], x, l, r.
      apply andb_true_iff in Hc as [Hc Hg].
      apply andb_true_iff in Hc as [Hle Hnr].
      apply Z.leb_le in Hle. apply negb_true_iff in Hnr.
      repeat split; auto.
    + intros H. destruct (IH H)
        as (pre & log & post & r' & -> & Hpre & Hrest).
      exists (x :: pre), log, post, r'. split; [reflexivity|].
      split; [|exact Hrest]. simpl. now rewrite Hr, Hc.
  - intros H. destruct (IH H)
      as (pre & log & post & r' & -> & Hpre & Hrest).
    exists (x :: pre), log, post, r'. split; [reflexivity|].
    split; [|exact Hrest]. simpl. now rewrite Hr.
Qed.

Lemma expired_nil_spec (now_ts : Z) (guild : option Z)
  (l : list log_entry) (x : log_entry) (r : Z) :
  expired_punishments_in now_ts guild l = [] -> In x l ->
  release_time x = Some r -> r <= now_ts ->
  guild_selected guild (guild_id x) = true -> retracted x = true.
Proof.
  induction l as [|y l IH]; simpl; [now intros _ []|].
  intros Hnil [-> | Hin] Hr Hle Hg.
  - rewrite Hr, Hg in Hnil. apply Z.leb_le in Hle. rewrite Hle in Hnil.
    destruct (retracted x); [reflexivity|discriminate].
  - apply IH; auto. destruct (release_time y); [|exact Hnil].
    now destruct (_ && _).
Qed.

(** Completing the sanction at the head of the expired list removes
    that row and no other. *)
Lemma mark_expired_head (now_ts now : Z) (st : store) (guild : option Z)
  (user g r : Z) (rest : list (Z * Z * Z)) :
  writable st = true -> retracted_untimed st ->
  get_expired_punishments now_ts st guild = (user, g, r) :: rest ->
  let st' := snd (mark_punishment_completed now st user g r) in
  get_expired_punishments now_ts st' guild = rest
  /\ writable st' = true /\ retracted_untimed st'
  /\ temp_bans_file st' = temp_bans_file st.
Proof.
  intros Hwr Hinv Hexp st'. subst st'. unfold get_expired_punishments in *.
  destruct (expired_head_split _ _ _ _ _ Hexp)
    as (pre & log & post & r' & Hl & Hpre & Hr & Hle & Hnr & Hg & Ht
        & Hpost).
  injection Ht as -> -> ->.
  rewrite (mark_first_match now st _ _ _ pre post log Hl).
  - rewrite Hwr. simpl. rewrite expired_punishments_app, Hpre. simpl.
    split; [exact Hpost|]. split; [exact Hwr|]. split; [|reflexivity].
    intros x Hin Hx. simpl in Hin.
    apply in_app_or in Hin as [Hin | [<- | Hin]].
    + apply Hinv; [|exact Hx]. rewrite Hl. apply in_or_app. now left.
    + reflexivity.
    + apply Hinv; [|exact Hx]. rewrite Hl. apply in_or_app.
      right. now right.
  - intros x Hin (Hu & Hgx & Hrx).
    assert (retracted x = true) as Hret.
    { apply (expired_nil_spec now_ts guild pre x r'); auto.
      now rewrite Hgx. }
    assert (In x (logs (logs_file st))) as Hin'
      by (rewrite Hl; apply in_or_app; now left).
    rewrite (Hinv x Hin' Hret) in Hrx. discriminate.
  - repeat split; auto.
Qed.

End SweepStore.

Section SweepRound.

Lemma cancel_scheduled_removal_entry (s : scheduler) (user user' : Z) :
  user' = user \/ scheduled_removals s !! user' = None ->
  scheduled_removals (cancel_scheduled_removal s user) !! user' = None.
Proof.
  intros H. unfold cancel_scheduled_removal.
  destruct (scheduled_removals s !! user) as [h|] eqn:Hh; simpl.
  - destruct (decide (user' = user)) as [->|Hne];
      [apply lookup_delete_eq|].
    rewrite lookup_delete_ne by congruence. now destruct H.
  - destruct H as [-> | H]; assumption.
Qed.

Lemma sweep_one_step (now : Z) (e : faults) (w : world) (user g r : Z)
  (rest : list (Z * Z * Z)) :
  writable (w_store w) = true -> retracted_untimed (w_store w) ->
  guild_known e = true ->
  (user ∉ fetch_fails e) -> (user ∉ remove_fails e) ->
  get_expired_punishments now (w_store w) (Some ALLOWED_GUILD_ID)
  = (user, g, r) :: rest ->
  let w' := sweep_one now e w (user, g, r) in
  swept now w w' rest
  /\ (user ∈ members (w_platform w) ->
      (role_known e = true -> (user ∉ in_canada (w_platform w')))
      /\ scheduled_removals (w_sched w') !! user = None).
Proof.
  intros Hwr Hinv Hguild Hfetch Hrem Hexp w'. subst w'.
  destruct (mark_expired_head now now (w_store w) _ user g r rest Hwr Hinv
              Hexp) as (Hrest & Hwr' & Hinv' & Htemp).
  assert ((g =? ALLOWED_GUILD_ID) = true) as Hg.
  { unfold get_expired_punishments in Hexp.
    destruct (expired_head_split _ _ _ _ _ Hexp)
      as (pre & log & post & r' & _ & _ & _ & _ & _ & Hsel & Ht & _).
    injection Ht as _ Hgeq _. rewrite Hgeq. exact Hsel. }
  unfold sweep_one. rewrite Hg, Hguild. simpl. unfold find_member.
  rewrite (bool_decide_eq_false_2 _ Hfetch).
  destruct (bool_decide (user ∈ members (w_platform w))) eqn:Hm.
  - destruct (role_known e && bool_decide (user ∈ in_canada (w_platform w)))
      eqn:Hrole.
    + rewrite (bool_decide_eq_false_2 _ Hrem). split.
      * unfold swept. simpl. split_and!; auto.
        -- apply subseteq_difference_l. reflexivity.
        -- intros u Hu. apply cancel_scheduled_removal_entry. now right.
      * intros _. simpl. split.
        -- intros _. rewrite elem_of_difference, elem_of_singleton.
           intros [_ Hx]. now apply Hx.
        -- apply cancel_scheduled_removal_entry. now left.
    + split.
      * unfold swept. simpl. split_and!; auto.
        intros u Hu. apply cancel_scheduled_removal_entry. now right.
      * intros _. simpl. split.
        -- intros Hk Hin. rewrite Hk in Hrole. simpl in Hrole.
           apply bool_decide_eq_false in Hrole. contradiction.
        -- apply cancel_scheduled_removal_entry. now left.
  - apply bool_decide_eq_false in Hm. split; [|contradiction].
    unfold swept. simpl. split_and!; auto.
Qed.

Lemma swept_trans (now : Z) (w w1 w2 : world)
  (rest1 rest2 : list (Z * Z * Z)) :
  swept now w w1 rest1 -> swept now w1 w2 rest2 -> swept now w w2 rest2.
Proof.
  intros (_ & _ & _ & Ht1 & Hm1 & Hb1 & Hc1 & Hs1)
         (He & Hw & Hi & Ht2 & Hm2 & Hb2 & Hc2 & Hs2).
  repeat split; auto; try congruence.
  etransitivity; eassumption.
Qed.

Lemma sweep_fold (now : Z) (e : faults) (rest : list (Z * Z * Z)) :
  forall w,
    writable (w_store w) = true -> retracted_untimed (w_store w) ->
    unhindered e (map row_member rest) ->
    get_expired_punishments now (w_store w) (Some ALLOWED_GUILD_ID) = rest ->
    let w' := fold_left (sweep_one now e) rest w in
    swept now w w' []
    /\ forall t, In t rest -> row_member t ∈ members (w_platform w) ->
         (role_known e = true ->
          (row_member t ∉ in_canada (w_platform w')))
         /\ scheduled_removals (w_sched w') !! row_member t = None.
Proof.
  induction rest as [|[[user g] r] rest IH]; intros w Hwr Hinv Hfree Hexp.
  - simpl. split; [|now intros t []].
    repeat split; auto.
  - destruct Hfree as [Hguild Husers].
    destruct (Husers user (or_introl eq_refl)) as [Hfetch Hrem].
    destruct (sweep_one_step now e w user g r rest Hwr Hinv Hguild Hfetch
                Hrem Hexp) as [Hstep Huser].
    pose proof Hstep as (Hexp1 & Hwr1 & Hinv1 & _ & Hm1 & _).
    destruct (IH (sweep_one now e w (user, g, r)) Hwr1 Hinv1
                (conj Hguild (fun u Hu => Husers u (or_intror Hu))) Hexp1)
      as [Hfold Hrest].
    simpl. split; [exact (swept_trans _ _ _ _ _ _ Hstep Hfold)|].
    destruct Hfold as (_ & _ & _ & _ & _ & _ & Hsub & Hnone).
    intros t [<- | Hin] Hmem.
    + destruct (Huser Hmem) as [Hrole Hs]. split; [|now apply Hnone].
      intros Hk Hin. apply (Hrole Hk). now apply Hsub.
    + apply Hrest; [exact Hin|]. now rewrite Hm1.
Qed.

End SweepRound.

(** X23: one round of the sweep over the expired sanctions, on a
    writable store whose retracted sanctions carry no release time and
    with the platform not failing for the members concerned: afterwards
    no sanction of the allowed guild is expired any more, every member
    concerned who is still in the guild has lost the Canada role (when
    the role resolves) and has no registered role-removal task, and
    nobody gained the role; members, bans and temp-ban records are
    untouched. *)
Theorem sweep_punishments_completes (now : Z) (e : faults) (w : world) :
  writable (w_store w) = true -> retracted_untimed (w_store w) ->
  unhindered e
    (map row_member
       (get_expired_punishments now (w_store w) (Some ALLOWED_GUILD_ID))) ->
  let w' := sweep_punishments now e w in
  get_expired_punishments now (w_store w') (Some ALLOWED_GUILD_ID) = []
  /\ (forall t,
        In t (get_expired_punishments now (w_store w)
                (Some ALLOWED_GUILD_ID)) ->
        row_member t ∈ members (w_platform w) ->
        (role_known e = true ->
         (row_member t ∉ in_canada (w_platform w')))
        /\ scheduled_removals (w_sched w') !! row_member t = None)
  /\ in_canada (w_platform w') ⊆ in_canada (w_platform w)
  /\ members (w_platform w') = members (w_platform w)
  /\ banned (w_platform w') = banned (w_platform w)
  /\ temp_bans_file (w_store w') = temp_bans_file (w_store w).
Proof.
  intros Hwr Hinv Hfree w'. subst w'. unfold sweep_punishments.
  destruct (sweep_fold now e _ w Hwr Hinv Hfree eq_refl)
    as [(Hexp & _ & _ & Ht & Hm & Hb & Hc & _) Hrows].
  repeat split; auto; now apply Hrows.
Qed.

Lemma sweep_punishments_completes_witness :
  get_expired_punishments 8000
    (w_store (sweep_punishments 8000 no_faults sent_to_canada))
    (Some ALLOWED_GUILD_ID) = []
  /\ 7 ∉ in_canada (w_platform (sweep_punishments 8000 no_faults
                                  sent_to_canada)).
Proof.
  assert (Hinv : retracted_untimed (w_store sent_to_canada)).
  { intros log Hin. vm_compute in Hin. destruct Hin as [<- | []].
    discriminate. }
  assert (Hfree : unhindered no_faults
            (map row_member
               (get_expired_punishments 8000 (w_store sent_to_canada)
                  (Some ALLOWED_GUILD_ID)))).
  { split; [reflexivity|]. intros user _.
    split; apply not_elem_of_empty. }
  destruct (sweep_punishments_completes 8000 no_faults sent_to_canada
              eq_refl Hinv Hfree) as (Hexp & Hrows & _).
  split; [exact Hexp|].
  refine (proj1 (Hrows (7, ALLOWED_GUILD_ID, 7200) _ _) eq_refl).
  - vm_compute. now left.
  - vm_compute. reflexivity.
Defined.

Section SweepBans.

Lemma filter_head_split {A : Type} (q : A -> bool) (l : list A) (x : A)
  (rest : list A) :
  List.filter q l = x :: rest ->
  exists pre post,
    l = pre ++ x :: post /\ List.filter q pre = [] /\ q x = true
    /\ List.filter q post = rest.
Proof.
  induction l as [|y l IH]; simpl; [discriminate|].
  destruct (q y) eqn:Hq.
  - intros [= -> <-]. now exists [], l.
  - intros H. destruct (IH H) as (pre & post & -> & Hpre & Hx & Hpost).
    exists (y :: pre), post. simpl. now rewrite Hq.
Qed.

Lemma filter_nil_spec {A : Type} (q : A -> bool) (l : list A) (x : A) :
  List.filter q l = [] -> In x l -> q x = false.
Proof.
  intros Hnil Hin. destruct (q x) eqn:Hq; [|reflexivity].
  assert (In x (List.filter q l)) as H by now apply List.filter_In.
  rewrite Hnil in H. destruct H.
Qed.

(** Completing the ban at the head of the expired list removes that
    record from the list and no other. *)
Lemma mark_expired_ban_head (now_ts now : Z) (st : store) (ban : temp_ban)
  (rest : list temp_ban) :
  writable st = true ->
  get_expired_temp_bans now_ts st (Some ALLOWED_GUILD_ID) = ban :: rest ->
  exists unban_time,
    tb_unban_time ban = Some unban_time
    /\ let st' := snd (mark_temp_ban_completed now st (tb_user_id ban)
                         ALLOWED_GUILD_ID unban_time) in
       get_expired_temp_bans now_ts st' (Some ALLOWED_GUILD_ID) = rest
       /\ writable st' = true /\ logs_file st' = logs_file st.
Proof.
  intros Hwr Hexp. unfold get_expired_temp_bans in *.
  set (q := fun ban : temp_ban => match tb_unban_time ban with
                                  | Some t => _
                                  | None => false
                                  end) in *.
  destruct (filter_head_split _ _ _ _ Hexp)
    as (pre & post & Hl & Hpre & Hban & Hpost).
  unfold q in Hban.
  destruct (tb_unban_time ban) as [t|] eqn:Ht; [|discriminate].
  exists t. split; [reflexivity|].
  apply andb_true_iff in Hban as [Hban Hg].
  apply andb_true_iff in Hban as [Hle Hunb].
  assert (Hdone : q (apply_unbanned now ban) = false).
  { unfold q. simpl. rewrite Ht. simpl. now rewrite andb_false_r. }
  unfold mark_temp_ban_completed. rewrite Hl, update_first_split.
  - unfold save_temp_bans. rewrite Hwr.
    cbn [snd temp_bans_file writable logs_file].
    rewrite List.filter_app, Hpre.
    cbn [List.filter app]. rewrite Hdone. auto.
  - intros x Hin. pose proof (filter_nil_spec _ _ x Hpre Hin) as Hx.
    unfold q in Hx. simpl in Hx. unfold is_due_ban.
    destruct (tb_user_id x =? tb_user_id ban); [|reflexivity].
    destruct (tb_guild_id x =? ALLOWED_GUILD_ID) eqn:Hgx; [|reflexivity].
    destruct (bool_decide (tb_unban_time x = Some t)) eqn:Htx;
      [|reflexivity].
    apply bool_decide_eq_true in Htx. rewrite Htx, Hle in Hx.
    simpl in *. now destruct (tb_unbanned x).
  - unfold is_due_ban. rewrite Z.eqb_refl, Ht, Hunb. simpl in Hg.
    rewrite Hg. simpl. now rewrite bool_decide_eq_true_2.
Qed.

End SweepBans.

Section SweepBansRound.

Lemma sweep_ban_fold (now : Z) (e : faults) (rest : list temp_ban) :
  forall w,
    writable (w_store w) = true ->
    (forall ban, In ban rest -> tb_user_id ban ∉ unban_fails e) ->
    get_expired_temp_bans now (w_store w) (Some ALLOWED_GUILD_ID) = rest ->
    let w' := fold_left (sweep_ban now e) rest w in
    get_expired_temp_bans now (w_store w') (Some ALLOWED_GUILD_ID) = []
    /\ logs_file (w_store w') = logs_file (w_store w)
    /\ w_sched w' = w_sched w
    /\ banned (w_platform w') ⊆ banned (w_platform w)
    /\ forall ban, In ban rest -> tb_user_id ban ∉ banned (w_platform w').
Proof.
  induction rest as [|ban rest IH]; intros w Hwr Hfree Hexp.
  - simpl. split_and!; auto; now intros ban [].
  - destruct (mark_expired_ban_head now now (w_store w) ban rest Hwr Hexp)
      as (t & Ht & Hrest & Hwr' & Hlogs).
    pose proof (Hfree ban (or_introl eq_refl)) as Hok.
    set (w1 := sweep_ban now e w ban).
    assert (Hstep :
      get_expired_temp_bans now (w_store w1) (Some ALLOWED_GUILD_ID) = rest
      /\ writable (w_store w1) = true
      /\ logs_file (w_store w1) = logs_file (w_store w)
      /\ w_sched w1 = w_sched w
      /\ banned (w_platform w1) ⊆ banned (w_platform w)
      /\ (tb_user_id ban ∉ banned (w_platform w1))).
    { subst w1. unfold sweep_ban. rewrite Ht.
      rewrite (bool_decide_eq_false_2 _ Hok).
      destruct (bool_decide (tb_user_id ban ∈ banned (w_platform w)))
        eqn:Hb; simpl; split_and!; auto.
      - apply subseteq_difference_l. reflexivity.
      - rewrite elem_of_difference, elem_of_singleton.
        intros [_ Hx]. now apply Hx.
      - now apply bool_decide_eq_false in Hb. }
    destruct Hstep as (Hexp1 & Hwr1 & Hlogs1 & Hsched1 & Hsub1 & Hgone1).
    destruct (IH w1 Hwr1 (fun b Hb => Hfree b (or_intror Hb)) Hexp1)
      as (Hnil & Hlogs2 & Hsched2 & Hsub2 & Hgone2).
    simpl. fold w1. split_and!; try congruence.
    + etransitivity; eassumption.
    + intros b [<- | Hb]; [|now apply Hgone2].
      intros Hin. apply Hgone1. now apply Hsub2.
Qed.

End SweepBansRound.

(** X24: one round of [cleanup_expired_temp_bans], on a writable store
    with the guild resolving and no unban refused: afterwards no temp
    ban of the allowed guild is expired, the members concerned are not
    banned, and nobody else's ban changed hands: the ban list only
    shrinks. The sanction log is untouched, and so is the scheduler: the
    unban tasks of the swept bans stay registered. *)
Theorem cleanup_expired_temp_bans_completes (now : Z) (e : faults)
  (w : world) :
  writable (w_store w) = true -> guild_known e = true ->
  (forall ban,
      In ban (get_expired_temp_bans now (w_store w)
                (Some ALLOWED_GUILD_ID)) ->
      tb_user_id ban ∉ unban_fails e) ->
  let w' := cleanup_expired_temp_bans now e w in
  get_expired_temp_bans now (w_store w') (Some ALLOWED_GUILD_ID) = []
  /\ (forall ban,
        In ban (get_expired_temp_bans now (w_store w)
                  (Some ALLOWED_GUILD_ID)) ->
        tb_user_id ban ∉ banned (w_platform w'))
  /\ banned (w_platform w') ⊆ banned (w_platform w)
  /\ w_sched w' = w_sched w
  /\ logs_file (w_store w') = logs_file (w_store w).
Proof.
  intros Hwr Hguild Hfree w'. subst w'. unfold cleanup_expired_temp_bans.
  rewrite Hguild.
  destruct (sweep_ban_fold now e _ w Hwr Hfree eq_refl)
    as (Hnil & Hlogs & Hsched & Hsub & Hgone).
  destruct (get_expired_temp_bans now (w_store w) (Some ALLOWED_GUILD_ID))
    as [|ban rest] eqn:Hexp.
  - split_and!; auto; now intros ban [].
  - split_and!; auto.
Qed.

Lemma cleanup_expired_temp_bans_completes_witness :
  get_expired_temp_bans 600
    (w_store (cleanup_expired_temp_bans 600 no_faults
                banned_in_allowed_guild))
    (Some ALLOWED_GUILD_ID) = []
  /\ scheduled_unbans
       (w_sched (cleanup_expired_temp_bans 600 no_faults
                   banned_in_allowed_guild)) !! 7 = Some 0%nat.
Proof.
  destruct (cleanup_expired_temp_bans_completes 600 no_faults
              banned_in_allowed_guild eq_refl eq_refl
              (fun ban _ => not_elem_of_empty (C := gset Z) _))
    as (Hnil & _ & _ & Hsched & _).
  split; [exact Hnil|]. rewrite Hsched. reflexivity.
Defined.

(** X25: one whole round of the periodic task
    [cleanup_expired_punishments] (sanctions first, then temp bans), on
    a writable store whose retracted sanctions carry no release time and
    with the platform not failing for the members concerned: afterwards
    neither an expired sanction nor an expired temp ban of the allowed
    guild is left. *)
Theorem cleanup_expired_punishments_round (now : Z) (e : faults)
  (w : world) :
  writable (w_store w) = true -> retracted_untimed (w_store w) ->
  unhindered e
    (map row_member
       (get_expired_punishments now (w_store w) (Some ALLOWED_GUILD_ID))) ->
  (forall ban,
      In ban (get_expired_temp_bans now (w_store w)
                (Some ALLOWED_GUILD_ID)) ->
      tb_user_id ban ∉ unban_fails e) ->
  let w' := cleanup_expired_punishments now e w in
  get_expired_punishments now (w_store w') (Some ALLOWED_GUILD_ID) = []
  /\ get_expired_temp_bans now (w_store w') (Some ALLOWED_GUILD_ID) = [].
Proof.
  intros Hwr Hinv Hfree Hbans w'. subst w'.
  unfold cleanup_expired_punishments, sweep_punishments.
  destruct (sweep_fold now e _ w Hwr Hinv Hfree eq_refl)
    as [(Hexp & Hwr1 & _ & Htemp & _) _].
  set (w1 := fold_left (sweep_one now e) _ w) in *.
  assert (Hsame :
    get_expired_temp_bans now (w_store w1) (Some ALLOWED_GUILD_ID)
    = get_expired_temp_bans now (w_store w) (Some ALLOWED_GUILD_ID))
    by (unfold get_expired_temp_bans; now rewrite Htemp).
  assert (Hbans1 : forall ban,
    In ban (get_expired_temp_bans now (w_store w1) (Some ALLOWED_GUILD_ID))
    -> tb_user_id ban ∉ unban_fails e)
    by (intros ban; rewrite Hsame; apply Hbans).
  destruct (sweep_ban_fold now e _ w1 Hwr1 Hbans1 eq_refl)
    as (Hnil & Hlogs & _).
  unfold cleanup_expired_temp_bans.
  destruct Hfree as [-> _].
  destruct (get_expired_temp_bans now (w_store w1) (Some ALLOWED_GUILD_ID))
    as [|ban rest] eqn:Hb.
  - split; [exact Hexp|exact Hb].
  - split; [|exact Hnil].
    unfold get_expired_punishments in *. now rewrite Hlogs.
Qed.

Lemma cleanup_expired_punishments_round_witness :
  get_expired_punishments 8000
    (w_store (cleanup_expired_punishments 8000 no_faults sent_to_canada))
    (Some ALLOWED_GUILD_ID) = [].
Proof.
  assert (Hinv : retracted_untimed (w_store sent_to_canada)).
  { intros log Hin. vm_compute in Hin. destruct Hin as [<- | []].
    discriminate. }
  assert (Hfree : unhindered no_faults
            (map row_member
               (get_expired_punishments 8000 (w_store sent_to_canada)
                  (Some ALLOWED_GUILD_ID)))).
  { split; [reflexivity|]. intros user _.
    split; apply not_elem_of_empty. }
  exact (proj1 (cleanup_expired_punishments_round 8000 no_faults
                  sent_to_canada eq_refl Hinv Hfree
                  (fun ban _ => not_elem_of_empty (C := gset Z) _))).
Defined.

(* ===================================================================== *)
(** * After a restart                                                     *)
(* ===================================================================== *)

Section Rearming.

Lemma cancel_keeps_task (h0 h : nat) (l : list task) (t : task) :
  l !! h = Some t ->
  exists t', cancel h0 l !! h = Some t' /\ task_user t' = task_user t
             /\ task_kind_of t' = task_kind_of t
             /\ (h <> h0 -> t' = t).
Proof.
  intros Hl. unfold cancel. destruct (decide (h = h0)) as [->|Hne].
  - rewrite list_lookup_alter_eq, Hl. simpl. eexists. split; [reflexivity|].
    unfold cancel_task_state. destruct (task_state_of t); simpl; auto.
    split_and!; auto. congruence.
  - rewrite list_lookup_alter_ne by congruence. now exists t.
Qed.

(** Cancel-then-arm, as every caller but [/canada] does it. *)
Lemma rearm_accurate (s : scheduler) (guild user release : Z) :
  registry_accurate true s ->
  registry_accurate true
    (schedule_role_removal (cancel_scheduled_removal s user) guild user
       release).
Proof.
  intros Hacc user' h' Hreg. unfold schedule_role_removal in *.
  simpl in *. destruct (decide (user' = user)) as [->|Hne].
  - rewrite lookup_insert_eq in Hreg. injection Hreg as <-.
    eexists. split; [apply list_lookup_middle; reflexivity|]. auto.
  - rewrite lookup_insert_ne in Hreg by congruence.
    unfold cancel_scheduled_removal in *.
    destruct (scheduled_removals s !! user) as [h|] eqn:Hh; simpl in *.
    + rewrite lookup_delete_ne in Hreg by congruence.
      destruct (Hacc _ _ Hreg) as (t & Ht & Hu & Hk).
      destruct (cancel_keeps_task h h' _ t Ht) as (t' & Ht' & Hu' & Hk' & _).
      exists t'. rewrite lookup_app_l by (eapply lookup_lt_Some; eauto).
      split; [exact Ht'|]. split; congruence.
    + destruct (Hacc _ _ Hreg) as (t & Ht & Hu & Hk).
      exists t. rewrite lookup_app_l by (eapply lookup_lt_Some; eauto).
      auto.
Qed.

Lemma rearm_has_timer (s : scheduler) (guild user release : Z) :
  has_timer user
    (schedule_role_removal (cancel_scheduled_removal s user) guild user
       release).
Proof.
  eexists. split; [apply lookup_insert_eq|].
  apply live_timers_spec. eexists.
  split; [apply list_lookup_middle; reflexivity|]. auto.
Qed.

Lemma rearm_keeps_timer (s : scheduler) (guild user user' release : Z) :
  registry_accurate true s -> user' <> user ->
  has_timer user' s ->
  has_timer user'
    (schedule_role_removal (cancel_scheduled_removal s user) guild user
       release).
Proof.
  intros Hacc Hne (h' & Hreg & Hlive).
  apply live_timers_spec in Hlive as (t & Ht & Hp & Hu & Hk).
  exists h'. unfold schedule_role_removal. simpl.
  rewrite lookup_insert_ne by congruence.
  unfold cancel_scheduled_removal.
  destruct (scheduled_removals s !! user) as [h|] eqn:Hh; simpl.
  - rewrite lookup_delete_ne by congruence. split; [exact Hreg|].
    destruct (Hacc _ _ Hh) as (t0 & Ht0 & Hu0 & _).
    assert (h' <> h) as Hdiff by (intros ->; congruence).
    destruct (cancel_keeps_task h h' _ t Ht) as (t' & Ht' & _ & _ & Heq).
    rewrite (Heq Hdiff) in Ht'.
    apply live_timers_spec. exists t. simpl.
    rewrite lookup_app_l by (eapply lookup_lt_Some; eauto). auto.
  - split; [exact Hreg|]. apply live_timers_spec. exists t. simpl.
    rewrite lookup_app_l by (eapply lookup_lt_Some; eauto). auto.
Qed.

End Rearming.

Section Restoring.

Lemma restored_refl (w : world) :
  registered_only true (w_sched w) -> registry_accurate true (w_sched w) ->
  restored w w.
Proof. intros Hreg Hacc. unfold restored. split_and!; auto. Qed.

Lemma restore_one_step (now_ts : Z) (e : faults) (w : world)
  (row : Z * Z * Z * Z) :
  registered_only true (w_sched w) -> registry_accurate true (w_sched w) ->
  match restore_one now_ts e w row with
  | Returned w' =>
      restored w w'
      /\ (guild_known e = true -> role_known e = true ->
          snd (fst (fst row)) = ALLOWED_GUILD_ID ->
          restorable now_ts e (w_platform w) row ->
          fst (fst (fst row)) ∈ in_canada (w_platform w')
          /\ has_timer (fst (fst (fst row))) (w_sched w'))
  | Raised msg =>
      msg = "Forbidden"
      /\ fst (fst (fst row)) ∈ add_fails e
      /\ (fst (fst (fst row)) ∉ in_canada (w_platform w))
      /\ (negb (snd (fst row) =? 0) && (now_ts <? snd (fst row))) = true
  end.
Proof.
  intros Hreg Hacc.
  destruct row as [[[user guild] release] start]. simpl.
  assert (Harm : forall w1 : world,
    w_sched w1 = w_sched w ->
    let s := schedule_role_removal
               (cancel_scheduled_removal (w_sched w1) user) guild user
               release in
    registered_only true s /\ registry_accurate true s
    /\ forall u, has_timer u (w_sched w) -> has_timer u s).
  { intros w1 ->. split; [now apply rearm_registered_only|].
    split; [now apply rearm_accurate|]. intros u Hu.
    destruct (decide (u = user)) as [->|Hne];
      [apply rearm_has_timer|now apply rearm_keeps_timer]. }
  destruct (negb (release =? 0) && (now_ts <? release)) eqn:Htime.
  2:{ split; [now apply restored_refl|].
      intros _ _ _ (Hr0 & Hlt & _).
      apply andb_false_iff in Htime as [H | H].
      - apply negb_false_iff, Z.eqb_eq in H. contradiction.
      - apply Z.ltb_ge in H. lia. }
  destruct ((guild =? ALLOWED_GUILD_ID) && guild_known e) eqn:Hguild.
  2:{ split; [now apply restored_refl|].
      intros Hk _ Hg _. simpl in Hg. rewrite Hk, Hg, Z.eqb_refl in Hguild.
      discriminate. }
  unfold find_member.
  destruct (bool_decide (user ∈ fetch_fails e)) eqn:Hf.
  { split; [now apply restored_refl|].
    intros _ _ _ (_ & _ & Hnf & _). apply bool_decide_eq_true in Hf.
    contradiction. }
  destruct (bool_decide (user ∈ members (w_platform w))) eqn:Hm.
  2:{ split; [now apply restored_refl|].
      intros _ _ _ (_ & _ & _ & Hmem). apply bool_decide_eq_false in Hm.
      contradiction. }
  destruct (role_known e) eqn:Hrole.
  2:{ split; [now apply restored_refl|]. discriminate. }
  destruct (bool_decide (user ∈ in_canada (w_platform w))) eqn:Hc.
  - destruct (Harm w eq_refl) as (H1 & H2 & H3).
    apply bool_decide_eq_true in Hc.
    split; [unfold restored; simpl; split_and!; auto|].
    intros _ _ _ _. simpl. split; [exact Hc|apply rearm_has_timer].
  - apply bool_decide_eq_false in Hc.
    destruct (bool_decide (user ∈ add_fails e)) eqn:Ha.
    { apply bool_decide_eq_true in Ha. split_and!; auto. }
    destruct (Harm (add_canada_role w user) eq_refl) as (H1 & H2 & H3).
    split.
    + unfold restored. simpl. split_and!; auto.
      apply union_subseteq_l.
    + intros _ _ _ _. simpl. split; [|apply rearm_has_timer].
      apply elem_of_union. right. now apply elem_of_singleton.
Qed.

Lemma restored_trans (w w1 w2 : world) :
  restored w w1 -> restored w1 w2 -> restored w w2.
Proof.
  intros (Hs1 & Ht1 & Hm1 & Hb1 & Hc1 & _ & _ & Hk1)
         (Hs2 & Ht2 & Hm2 & Hb2 & Hc2 & Hr2 & Ha2 & Hk2).
  unfold restored. split_and!; auto; try congruence.
  etransitivity; eassumption.
Qed.

Lemma restore_rows_step (now_ts : Z) (e : faults) (w : world)
  (row : Z * Z * Z * Z) (rows : list (Z * Z * Z * Z)) :
  restore_rows now_ts e w (row :: rows)
  = match restore_one now_ts e w row with
    | Returned w' => restore_rows now_ts e w' rows
    | Raised msg => (Raised msg, w)
    end.
Proof. reflexivity. Qed.

Lemma restore_fold (now_ts : Z) (e : faults) (rows : list (Z * Z * Z * Z)) :
  forall w,
    registered_only true (w_sched w) -> registry_accurate true (w_sched w) ->
    let w' := snd (restore_rows now_ts e w rows) in
    restored w w'
    /\ ((forall row, In row rows ->
           fst (fst (fst row)) ∈ add_fails e ->
           fst (fst (fst row)) ∈ in_canada (w_platform w)) ->
        fst (restore_rows now_ts e w rows) = Returned tt
        /\ (guild_known e = true -> role_known e = true ->
            forall row, In row rows ->
              snd (fst (fst row)) = ALLOWED_GUILD_ID ->
              restorable now_ts e (w_platform w) row ->
              fst (fst (fst row)) ∈ in_canada (w_platform w')
              /\ has_timer (fst (fst (fst row))) (w_sched w'))).
Proof.
  induction rows as [|row rows IH]; intros w Hreg Hacc.
  - simpl. split; [now apply restored_refl|]. intros _.
    split; [reflexivity|]. now intros _ _ row [].
  - pose proof (restore_one_step now_ts e w row Hreg Hacc) as Hstep.
    rewrite restore_rows_step.
    destruct (restore_one now_ts e w row) as [w1|msg].
    + destruct Hstep as [Hstep Hrow].
      pose proof Hstep as (_ & _ & Hm1 & _ & Hsub1 & Hreg1 & Hacc1 & _).
      destruct (IH w1 Hreg1 Hacc1) as [Hfold Hrest].
      split; [exact (restored_trans _ _ _ Hstep Hfold)|].
      intros Hadd.
      destruct Hrest as [Hres Hrows].
      { intros x Hx Hfail. apply Hsub1. apply Hadd; [now right|exact Hfail]. }
      split; [exact Hres|].
      intros Hk Hr x [<- | Hx] Hg Hok.
      * destruct (Hrow Hk Hr Hg Hok) as [Hin Htimer].
        destruct Hfold as (_ & _ & _ & _ & Hsub & _ & _ & Hkeep).
        split; [now apply Hsub|now apply Hkeep].
      * apply (Hrows Hk Hr x Hx Hg).
        destruct x as [[[u g] r] st0]. unfold restorable in *.
        now rewrite Hm1.
    + destruct Hstep as (_ & Hfail & Hout & _).
      split; [now apply restored_refl|].
      intros Hadd. destruct Hout. apply Hadd; [now left|exact Hfail].
Qed.

End Restoring.

(** X26: [restore_active_punishments] after a restart, with the stored
    sanctions all of the allowed guild.  However it ends, it writes
    nothing to the store and takes no role away; nobody loses the
    Canada role; every waiting role-removal task is still the
    registered one (each row is armed after a cancel).  When the
    platform refuses the role to no member of an active sanction who
    lacks it, the function returns, and every member with a sanction
    that ends in the future, who can be fetched, holds the role and has
    a registered waiting role-removal task afterwards.  When the first
    active sanction ends in the future and the platform refuses the
    role to its member, who lacks it, the exception leaves the function
    at once: nothing is restored, for that member or any other. *)
Theorem restore_active_punishments_rearms (now_ts : Z) (e : faults)
  (w : world) :
  registered_only true (w_sched w) -> registry_accurate true (w_sched w) ->
  guild_known e = true -> role_known e = true ->
  (forall row, In row (get_active_punishments (w_store w) None) ->
               snd (fst (fst row)) = ALLOWED_GUILD_ID) ->
  let rows := get_active_punishments (w_store w) None in
  let result := fst (restore_active_punishments now_ts e w) in
  let w' := snd (restore_active_punishments now_ts e w) in
  w_store w' = w_store w
  /\ w_trace w' = w_trace w
  /\ in_canada (w_platform w) ⊆ in_canada (w_platform w')
  /\ registered_only true (w_sched w')
  /\ ((forall row, In row rows ->
         fst (fst (fst row)) ∈ add_fails e ->
         fst (fst (fst row)) ∈ in_canada (w_platform w)) ->
      result = Returned tt
      /\ forall row,
           In row rows ->
           restorable now_ts e (w_platform w) row ->
           fst (fst (fst row)) ∈ in_canada (w_platform w')
           /\ has_timer (fst (fst (fst row))) (w_sched w'))
  /\ (forall row after,
        rows = row :: after ->
        restorable now_ts e (w_platform w) row ->
        fst (fst (fst row)) ∈ add_fails e ->
        (fst (fst (fst row)) ∉ in_canada (w_platform w)) ->
        restore_active_punishments now_ts e w = (Raised "Forbidden", w)).
Proof.
  intros Hreg Hacc Hk Hr Hguilds rows result w'.
  unfold result, w', restore_active_punishments. fold rows.
  destruct (restore_fold now_ts e rows w Hreg Hacc)
    as [(Hs & Ht & _ & _ & Hc & Hreg' & _) Hrows].
  split_and!; auto.
  - intros Hadd. destruct (Hrows Hadd) as [Hres Hall].
    split; [exact Hres|]. intros row Hin Hok.
    apply (Hall Hk Hr row Hin); [|exact Hok]. now apply Hguilds.
  - intros row after Hrows' Hok Hfail Hout.
    rewrite Hrows', restore_rows_step.
    assert (Hg : snd (fst (fst row)) = ALLOWED_GUILD_ID)
      by (apply Hguilds; fold rows; rewrite Hrows'; now left).
    destruct row as [[[user guild] release] start]. simpl in *.
    destruct Hok as (Hr0 & Hlt & Hnf & Hmem).
    replace (negb (release =? 0) && (now_ts <? release)) with true.
    2:{ symmetry. apply andb_true_iff. split.
        - now apply negb_true_iff, Z.eqb_neq.
        - now apply Z.ltb_lt. }
    rewrite Hg, Z.eqb_refl, Hk. simpl. unfold find_member.
    rewrite (bool_decide_eq_false_2 _ Hnf), (bool_decide_eq_true_2 _ Hmem).
    rewrite Hr, (bool_decide_eq_false_2 _ Hout).
    now rewrite (bool_decide_eq_true_2 _ Hfail).
Qed.

Lemma restore_active_punishments_rearms_witness :
  fst (restore_active_punishments 100 no_faults restarted) = Returned tt
  /\ 7 ∈ in_canada (w_platform (snd (restore_active_punishments 100
                                       no_faults restarted)))
  /\ has_timer 7 (w_sched (snd (restore_active_punishments 100 no_faults
                                  restarted)))
  /\ restore_active_punishments 100 (mk_faults true true ∅ ∅ ∅ {[7]})
       restarted
     = (Raised "Forbidden", restarted).
Proof.
  assert (Hacc : registry_accurate true (w_sched restarted))
    by (intros u h H; vm_compute in H; discriminate).
  assert (Hguilds : forall row,
    In row (get_active_punishments (w_store restarted) None) ->
    snd (fst (fst row)) = ALLOWED_GUILD_ID)
    by (intros row Hin; vm_compute in Hin; destruct Hin as [<- | []];
        reflexivity).
  assert (Hok : forall e, fetch_fails e = ∅ ->
            restorable 100 e (w_platform restarted)
              (7, ALLOWED_GUILD_ID, 7200, 0)).
  { intros e He. unfold restorable. split; [discriminate|].
    split; [reflexivity|]. rewrite He.
    split; [apply not_elem_of_empty|]. vm_compute. reflexivity. }
  destruct (restore_active_punishments_rearms 100 no_faults restarted
              (registered_only_empty true) Hacc eq_refl eq_refl Hguilds)
    as (_ & _ & _ & _ & Hrows & _).
  destruct Hrows as [Hres Hrows].
  { intros row _ Hin. simpl in Hin. now apply not_elem_of_empty in Hin. }
  split; [exact Hres|].
  split; [|split].
  - apply (Hrows (7, ALLOWED_GUILD_ID, 7200, 0));
      [vm_compute; now left|now apply Hok].
  - apply (Hrows (7, ALLOWED_GUILD_ID, 7200, 0));
      [vm_compute; now left|now apply Hok].
  - destruct (restore_active_punishments_rearms 100
                (mk_faults true true ∅ ∅ ∅ {[7]}) restarted
                (registered_only_empty true) Hacc eq_refl eq_refl Hguilds)
      as (_ & _ & _ & _ & _ & Habort).
    apply (Habort (7, ALLOWED_GUILD_ID, 7200, 0) []).
    + vm_compute. reflexivity.
    + now apply Hok.
    + simpl. now apply elem_of_singleton.
    + apply not_elem_of_empty.
Defined.

(* ===================================================================== *)
(** * Releasing by hand                                                   *)
(* ===================================================================== *)

Section ReleaseStore.

(** The record behind a row of the active list. *)
Lemma active_row_split (guild : option Z) (l : list log_entry)
  (before : list (Z * Z * Z * Z)) (row : Z * Z * Z * Z)
  (rest : list (Z * Z * Z * Z)) :
  active_punishments_in guild l = before ++ row :: rest ->
  exists pre log post r,
    l = pre ++ log :: post
    /\ active_punishments_in guild pre = before
    /\ release_time log = Some r /\ retracted log = false
    /\ guild_selected guild (guild_id log) = true
    /\ row = (user_id log, guild_id log, r, punishment_start log)
    /\ active_punishments_in guild post = rest.
Proof.
  revert before. induction l as [|x l IH]; intros before; simpl.
  - intros H. now destruct before.
  - destruct (release_time x) as [r|] eqn:Hr.
    + destruct (negb (retracted x) && guild_selected guild (guild_id x))
        eqn:Hc.
      * apply andb_true_iff in Hc as [Hnr Hg]. apply negb_true_iff in Hnr.
        destruct before as [|b before]; simpl.
        -- intros [= <- <-]. exists [], x, l, r. split_and!; auto.
        -- intros [= <- H].
           destruct (IH before H)
             as (pre & log & post & r' & -> & Hpre & Hrest).
           exists (x :: pre), log, post, r'. split; [reflexivity|].
           split; [|exact Hrest]. simpl. rewrite Hr, Hnr, Hg. simpl.
           now rewrite Hpre.
      * intros H.
        destruct (IH before H)
          as (pre & log & post & r' & -> & Hpre & Hrest).
        exists (x :: pre), log, post, r'. split; [reflexivity|].
        split; [|exact Hrest]. simpl. now rewrite Hr, Hc.
    + intros H.
      destruct (IH before H)
        as (pre & log & post & r' & -> & Hpre & Hrest).
      exists (x :: pre), log, post, r'. split; [reflexivity|].
      split; [|exact Hrest]. simpl. now rewrite Hr.
Qed.

Lemma active_row_in (guild : option Z) (l : list log_entry)
  (x : log_entry) (r : Z) :
  In x l -> release_time x = Some r -> retracted x = false ->
  guild_selected guild (guild_id x) = true ->
  In (user_id x, guild_id x, r, punishment_start x)
    (active_punishments_in guild l).
Proof.
  intros Hin Hr Hnr Hg. induction l as [|y l IH]; [destruct Hin|].
  simpl. destruct Hin as [-> | Hin].
  - rewrite Hr, Hnr, Hg. now left.
  - destruct (release_time y); [|auto].
    destruct (_ && _); [right|]; auto.
Qed.

(** Completing the first row of a member in the active list removes
    that row and no other. *)
Lemma mark_active_row (now : Z) (st : store) (guild : option Z)
  (before rest : list (Z * Z * Z * Z)) (user g r start : Z) :
  writable st = true -> retracted_untimed st ->
  get_active_punishments st guild = before ++ (user, g, r, start) :: rest ->
  (forall row, In row before -> active_member row <> user) ->
  let st' := snd (mark_punishment_completed now st user g r) in
  get_active_punishments st' guild = before ++ rest
  /\ writable st' = true /\ retracted_untimed st'.
Proof.
  intros Hwr Hinv Hact Hbefore st'. subst st'.
  unfold get_active_punishments in *.
  destruct (active_row_split _ _ _ _ _ Hact)
    as (pre & log & post & r' & Hl & Hpre & Hr & Hnr & Hg & Hrow & Hpost).
  injection Hrow as -> -> -> ->.
  rewrite (mark_first_match now st _ _ _ pre post log Hl).
  - rewrite Hwr. simpl. rewrite active_punishments_app, Hpre. simpl.
    split; [now rewrite Hpost|]. split; [exact Hwr|].
    intros x Hin Hx. simpl in Hin.
    apply in_app_or in Hin as [Hin | [<- | Hin]].
    + apply Hinv; [|exact Hx]. rewrite Hl. apply in_or_app. now left.
    + reflexivity.
    + apply Hinv; [|exact Hx]. rewrite Hl. apply in_or_app.
      right. now right.
  - intros x Hin (Hu & Hgx & Hrx).
    assert (In x (logs (logs_file st))) as Hin'
      by (rewrite Hl; apply in_or_app; now left).
    destruct (retracted x) eqn:Hret.
    + rewrite (Hinv x Hin' Hret) in Hrx. discriminate.
    + assert (In (user_id x, guild_id x, r', punishment_start x)
                (active_punishments_in guild pre)) as Hrow
        by (apply active_row_in; auto; now rewrite Hgx).
      rewrite Hpre in Hrow. now apply (Hbefore _ Hrow).
  - repeat split; auto.
Qed.

End ReleaseStore.

Section ReleaseLoop.

Lemma release_rows_fold (now user : Z) (guild : option Z)
  (rows : list (Z * Z * Z * Z)) :
  forall (before : list (Z * Z * Z * Z)) (st : store) (count : Z),
    writable st = true -> retracted_untimed st ->
    (forall row, In row before -> active_member row <> user) ->
    get_active_punishments st guild = before ++ rows ->
    let acc :=
      fold_left
        (fun (acc : store * Z) (row : Z * Z * Z * Z) =>
           let '(user_id, guild_id, release_time, _) := row in
           if user_id =? user
           then (snd (mark_punishment_completed now (fst acc) user_id
                        guild_id release_time),
                 snd acc + 1)
           else acc)
        rows (st, count) in
    get_active_punishments (fst acc) guild
    = before ++ rows_of_others user rows
    /\ snd acc = count + Z.of_nat (length (rows_of user rows)).
Proof.
  induction rows as [|[[[u g] r] start] rows IH];
    intros before st count Hwr Hinv Hbefore Hact.
  - simpl. split; [exact Hact|lia].
  - cbn [fold_left]. unfold rows_of, rows_of_others.
    cbn [List.filter active_member fst].
    destruct (u =? user) eqn:Hu.
    + apply Z.eqb_eq in Hu. subst u.
      destruct (mark_active_row now st guild before rows user g r start
                  Hwr Hinv Hact Hbefore) as (Hact1 & Hwr1 & Hinv1).
      destruct (IH before _ (count + 1) Hwr1 Hinv1 Hbefore Hact1)
        as [Hres Hcount].
      cbn [fst snd negb]. split; [exact Hres|].
      rewrite Hcount. unfold rows_of. cbn [length]. lia.
    + apply Z.eqb_neq in Hu.
      assert (Hbefore' : forall row, In row (before ++ [(u, g, r, start)]) ->
                                     active_member row <> user).
      { intros row Hin. apply in_app_or in Hin as [Hin | [<- | []]];
          [now apply Hbefore|exact Hu]. }
      rewrite (app_assoc before [(u, g, r, start)] rows
               : before ++ (u, g, r, start) :: rows = _) in Hact.
      destruct (IH _ st count Hwr Hinv Hbefore' Hact) as [Hres Hcount].
      cbn [negb]. split; [|exact Hcount].
      rewrite Hres, <- app_assoc. reflexivity.
Qed.

End ReleaseLoop.

(** X27: [/release] of a member who holds the Canada role, on a
    writable store whose retracted sanctions carry no release time, the
    role resolving and its removal not refused: the role is taken away,
    every active sanction of the member in the guild is completed and
    counted, the other members' active sanctions are as before, and the
    member's registered role-removal task is cancelled. *)
Theorem release_completes_all (now : Z) (e : faults) (w : world)
  (guild user : Z) :
  role_known e = true ->
  user ∈ in_canada (w_platform w) -> (user ∉ remove_fails e) ->
  writable (w_store w) = true -> retracted_untimed (w_store w) ->
  let reply := fst (release now e w guild user) in
  let w' := snd (release now e w guild user) in
  reply
  = Released
      (Z.of_nat
         (length (rows_of user
                    (get_active_punishments (w_store w) (Some guild)))))
  /\ get_active_punishments (w_store w') (Some guild)
     = rows_of_others user (get_active_punishments (w_store w) (Some guild))
  /\ (user ∉ in_canada (w_platform w'))
  /\ scheduled_removals (w_sched w') !! user = None
  /\ w_trace w' = w_trace w ++ [RemoveRoles user].
Proof.
  intros Hrole Hin Hrem Hwr Hinv reply w'. subst reply w'.
  unfold release. rewrite Hrole. simpl.
  rewrite (bool_decide_eq_true_2 _ Hin), (bool_decide_eq_false_2 _ Hrem).
  simpl. unfold release_rows.
  destruct (release_rows_fold now user (Some guild)
              (get_active_punishments (w_store w) (Some guild)) []
              (w_store w) 0 Hwr Hinv (fun _ H => False_ind _ H) eq_refl)
    as [Hact Hcount].
  destruct (fold_left _ _ _) as [st' ended]. simpl in *.
  split; [now rewrite Hcount|]. split; [exact Hact|].
  split; [|split; [|reflexivity]].
  - rewrite elem_of_difference, elem_of_singleton.
    intros [_ Hx]. now apply Hx.
  - apply cancel_scheduled_removal_entry. now left.
Qed.

Lemma release_completes_all_witness :
  fst (release 100 no_faults sent_to_canada ALLOWED_GUILD_ID 7) = Released 1
  /\ get_active_punishments
       (w_store (snd (release 100 no_faults sent_to_canada
                        ALLOWED_GUILD_ID 7)))
       (Some ALLOWED_GUILD_ID) = [].
Proof.
  assert (Hinv : retracted_untimed (w_store sent_to_canada)).
  { intros log Hin. vm_compute in Hin. destruct Hin as [<- | []].
    discriminate. }
  assert (Hin : 7 ∈ in_canada (w_platform sent_to_canada))
    by (vm_compute; reflexivity).
  destruct (release_completes_all 100 no_faults sent_to_canada
              ALLOWED_GUILD_ID 7 eq_refl Hin
              (not_elem_of_empty (C := gset Z) 7) eq_refl Hinv)
    as (Hreply & Hact & _).
  split; [rewrite Hreply|rewrite Hact]; reflexivity.
Defined.

(* ===================================================================== *)
(** * The manual cleanup                                                  *)
(* ===================================================================== *)

Section ManualCleanup.

Lemma cleanup_fold_count (now : Z) (e : faults) (rows : list (Z * Z * Z)) :
  forall (w : world) (cleaned errors : Z),
    let result := fold_left (cleanup_one now e) rows (w, cleaned, errors) in
    snd (fst result) + snd result
    = cleaned + errors + Z.of_nat (length rows)
    /\ cleaned <= snd (fst result) /\ errors <= snd result
    /\ w_sched (fst (fst result)) = w_sched w.
Proof.
  induction rows as [|[[user g] r] rows IH]; intros w cleaned errors.
  - simpl. split_and!; auto; lia.
  - cbn [fold_left].
    assert (Hstep : exists w1 c1 e1,
      cleanup_one now e (w, cleaned, errors) (user, g, r) = (w1, c1, e1)
      /\ c1 + e1 = cleaned + errors + 1 /\ cleaned <= c1 /\ errors <= e1
      /\ w_sched w1 = w_sched w).
    { unfold cleanup_one. destruct (find_member e (w_platform w) user).
      - destruct (role_known e && _);
          [destruct (bool_decide (user ∈ remove_fails e))|];
          eexists _, _, _; (split; [reflexivity|]); simpl;
          split_and!; try lia; reflexivity.
      - eexists _, _, _. split; [reflexivity|]. simpl.
        split_and!; try lia; reflexivity.
      - eexists _, _, _. split; [reflexivity|]. simpl.
        split_and!; try lia; reflexivity. }
    destruct Hstep as (w1 & c1 & e1 & -> & Hsum & Hc & He & Hs).
    destruct (IH w1 c1 e1) as (Hsum' & Hc' & He' & Hs').
    cbn [length]. split_and!; try lia. congruence.
Qed.

Lemma cleanup_fold_clean (now : Z) (e : faults) (guild : option Z)
  (rows : list (Z * Z * Z)) :
  forall (w : world) (cleaned errors : Z),
    writable (w_store w) = true -> retracted_untimed (w_store w) ->
    (forall t, In t rows ->
       (row_member t ∉ fetch_fails e) /\ (row_member t ∉ remove_fails e)) ->
    get_expired_punishments now (w_store w) guild = rows ->
    let result := fold_left (cleanup_one now e) rows (w, cleaned, errors) in
    get_expired_punishments now (w_store (fst (fst result))) guild = []
    /\ snd result = errors.
Proof.
  induction rows as [|[[user g] r] rows IH];
    intros w cleaned errors Hwr Hinv Hfree Hexp.
  - simpl. auto.
  - cbn [fold_left].
    destruct (Hfree _ (or_introl eq_refl)) as [Hfetch Hrem].
    unfold row_member in Hfetch, Hrem. simpl in Hfetch, Hrem.
    destruct (mark_expired_head now now (w_store w) guild user g r rows
                Hwr Hinv Hexp) as (Hrest & Hwr' & Hinv' & _).
    assert (Hstep : exists w1 c1,
      cleanup_one now e (w, cleaned, errors) (user, g, r) = (w1, c1, errors)
      /\ w_store w1
         = snd (mark_punishment_completed now (w_store w) user g r)).
    { unfold cleanup_one, find_member.
      rewrite (bool_decide_eq_false_2 _ Hfetch).
      rewrite (bool_decide_eq_false_2 _ Hrem).
      destruct (bool_decide (user ∈ members (w_platform w)));
        [destruct (role_known e && _)|]; eexists _, _; split; reflexivity. }
    destruct Hstep as (w1 & c1 & -> & Hst).
    rewrite <- Hst in Hrest, Hwr', Hinv'.
    apply (IH w1 c1 errors Hwr' Hinv'
             (fun t Ht => Hfree t (or_intror Ht)) Hrest).
Qed.

End ManualCleanup.

(** X28: [/cleanup_punishments] counts every expired sanction of the
    guild once, as cleaned or as an error, and leaves the scheduler as it
    is: unlike the periodic sweep it cancels no task. On a writable
    store whose retracted sanctions carry no release time, and with the
    platform not failing for the members concerned, there is no error and
    no expired sanction is left. *)
Theorem cleanup_punishments_counts (now : Z) (e : faults) (w : world)
  (guild : Z) :
  let result := cleanup_punishments now e w guild in
  let w' := fst (fst result) in
  let cleaned_count := snd (fst result) in
  let errors := snd result in
  cleaned_count + errors
  = Z.of_nat (length (get_expired_punishments now (w_store w) (Some guild)))
  /\ 0 <= cleaned_count /\ 0 <= errors
  /\ w_sched w' = w_sched w
  /\ (writable (w_store w) = true -> retracted_untimed (w_store w) ->
      (forall t,
          In t (get_expired_punishments now (w_store w) (Some guild)) ->
          (row_member t ∉ fetch_fails e) /\ (row_member t ∉ remove_fails e))
      -> errors = 0
         /\ get_expired_punishments now (w_store w') (Some guild) = []).
Proof.
  intros result w' cleaned_count errors.
  subst result w' cleaned_count errors. unfold cleanup_punishments.
  destruct (cleanup_fold_count now e
              (get_expired_punishments now (w_store w) (Some guild)) w 0 0)
    as (Hsum & Hc & He & Hs).
  split; [lia|]. split; [exact Hc|]. split; [exact He|].
  split; [exact Hs|].
  intros Hwr Hinv Hfree.
  destruct (cleanup_fold_clean now e (Some guild) _ w 0 0 Hwr Hinv Hfree
              eq_refl) as [Hnil Herr].
  split; [exact Herr|exact Hnil].
Qed.

(* ===================================================================== *)
(** * Extending a sanction                                                *)
(* ===================================================================== *)

(** X29: [/extend] on a sanction with a release time, by a valid
    duration token, on a writable store.  When the amount has more than
    4300 digits, or the new release time is not below ten to the 4300
    ([json.dump] refuses it), [ValueError] leaves the command and
    nothing changes.  Otherwise the stored release time becomes the old
    one plus the extension and nothing else in the row changes (the
    stored punishment text stays; the new text is only shown).  When
    the new duration is rendered (as it is below ten to the 4300) the
    member's role-removal task is cancelled and armed anew for the new
    time, so every waiting task is still the registered one; when the
    rendering raises, the tasks stay as they were. *)
Theorem extend_moves_release_time (now_ts : Z) (w : world)
  (guild log_no : Z) (by_ ds : string) (extension : Z)
  (u : Z) (r d p : string) (mid : option Z) (gid rel start : Z)
  (retr : bool) (modr : option Z) :
  valid_token (lower by_) ds extension ->
  get_log (w_store w) log_no guild
  = Some (u, r, d, p, mid, gid, Some rel, start, retr, modr) ->
  writable (w_store w) = true ->
  registered_only true (w_sched w) ->
  let reply := fst (extend now_ts w guild log_no by_) in
  let w' := snd (extend now_ts w guild log_no by_) in
  let new_duration := rel + extension - start in
  (~ readable ds -> reply = ExtendRaised "ValueError" /\ w' = w)
  /\ (readable ds -> ~ storable (rel + extension) ->
      reply = ExtendRaised "ValueError" /\ w' = w)
  /\ (readable ds -> storable (rel + extension) ->
      get_log (w_store w') log_no guild
      = Some (u, r, d, p, mid, gid, Some (rel + extension), start, retr,
              modr)
      /\ w_platform w' = w_platform w /\ w_trace w' = w_trace w
      /\ (storable new_duration ->
          exists text, format_duration (Some new_duration) = Returned text)
      /\ (forall e,
            format_duration (Some new_duration) = Raised e ->
            reply = ExtendRaised e /\ w_sched w' = w_sched w)
      /\ (forall text,
            format_duration (Some new_duration) = Returned text ->
            reply = Extended (rel + extension) text
            /\ (exists h,
                  scheduled_removals (w_sched w') !! u = Some h
                  /\ loop_tasks (w_sched w') !! h
                     = Some (mk_task RoleRemoval guild u (rel + extension)
                               Pending))
            /\ registered_only true (w_sched w'))).
Proof.
  intros Hv Hget Hwr Hreg reply w' new_duration. subst reply w'.
  destruct (parse_valid_token by_ ds extension Hv) as [Hshort Hlong].
  split; [|split].
  - intros Hr. unfold extend. rewrite (Hlong Hr). split; reflexivity.
  - intros Hr Hbig. unfold extend. rewrite (Hshort Hr), Hget, Hwr. simpl.
    replace (json_int_ok (rel + extension)) with false; [split; reflexivity|].
    symmetry. apply Z.ltb_ge. unfold storable in Hbig. lia.
  - intros Hr Hfits. unfold extend. rewrite (Hshort Hr), Hget.
    cbn [row_release_time row_punishment_start row_user].
    replace (json_int_ok (rel + extension)) with true
      by (symmetry; apply Z.ltb_lt; exact Hfits).
    cbn [negb]. rewrite andb_false_r. unfold update_log.
    destruct (update_first _ _ _) as [l|] eqn:Hu.
    2:{ apply update_first_found in Hu. unfold get_log in Hget.
        rewrite get_log_in_find, Hu in Hget. discriminate. }
    rewrite save_logs_ok by exact Hwr. fold new_duration.
    assert (Hrow : get_log (with_logs (w_store w) l) log_no guild
                   = Some (u, r, d, p, mid, gid, Some (rel + extension),
                           start, retr, modr)).
    { unfold get_log in *. simpl.
      destruct (get_log_after_update log_no guild
                  (apply_update now_ts None None None None
                     (Some (rel + extension))) _ _
                  (fun _ => eq_refl) (fun _ => eq_refl) Hu) as [-> _].
      rewrite get_log_in_find in Hget.
      destruct (List.find _ _) as [log|]; [|discriminate].
      simpl in *. now injection Hget as <- <- <- <- <- <- _ <- <- <-. }
    split_and!.
    + destruct (format_duration (Some new_duration)); exact Hrow.
    + now destruct (format_duration (Some new_duration)).
    + now destruct (format_duration (Some new_duration)).
    + apply format_duration_storable.
    + intros e He. rewrite He. split; reflexivity.
    + intros text Htext. rewrite Htext. cbn [fst snd w_sched].
      split; [reflexivity|]. split; [|now apply rearm_registered_only].
      eexists. split; [apply lookup_insert_eq|].
      apply list_lookup_middle. reflexivity.
Qed.

Lemma extend_moves_release_time_witness :
  fst (extend 100 once_to_canada 1 1 "1h") = Extended 10800 "3h"
  /\ get_log (w_store (snd (extend 100 once_to_canada 1 1 "1h"))) 1 1
     = Some (7, rule_ref " 2", "spam", "2h", None, 1, Some 10800, 0, false,
             Some 99)
  /\ extend 100 once_to_canada 1 1 long_token
     = (ExtendRaised "ValueError", once_to_canada).
Proof.
  assert (Hlong : valid_token (lower long_token) (repeat_char "1" 4301)
                    (decimal_value (repeat_char "1" 4301) * 60)).
  { replace (lower long_token)
      with (repeat_char "1" 4301 +:+ "m" +:+ "")
      by (vm_compute; reflexivity).
    apply (valid_token_intro (repeat_char "1" 4301) "m" "" 60);
      [intros H; vm_compute in H; discriminate H
      | vm_compute; reflexivity | simpl; tauto | now left]. }
  destruct (extend_moves_release_time 100 once_to_canada 1 1 "1h" "1" 3600
              7 (rule_ref " 2") "spam" "2h" None 1 7200 0 false (Some 99))
    as (_ & _ & Hok);
    [ apply (valid_token_intro "1" "h" "" 3600);
        [discriminate | reflexivity | simpl; tauto | now left]
    | reflexivity | reflexivity | exact (proj1 registered_only_armed) |].
  destruct Hok as (Hrow & _ & _ & _ & _ & Htext).
  { unfold readable, default_max_str_digits. simpl. lia. }
  { apply everyday_below_limit. vm_compute. reflexivity. }
  destruct (Htext "3h") as (Hreply & _); [vm_compute; reflexivity|].
  split; [exact Hreply|]. split; [exact Hrow|].
  destruct (extend_moves_release_time 100 once_to_canada 1 1 long_token
              (repeat_char "1" 4301)
              (decimal_value (repeat_char "1" 4301) * 60)
              7 (rule_ref " 2") "spam" "2h" None 1 7200 0 false (Some 99)
              Hlong eq_refl eq_refl (proj1 registered_only_armed))
    as (Hraise & _).
  destruct Hraise as [Hreply' Hworld].
  { unfold readable. intros H. apply Nat.leb_le in H.
    vm_compute in H. discriminate H. }
  rewrite (surjective_pairing (extend 100 once_to_canada 1 1 long_token)).
  now rewrite Hreply', Hworld.
Defined.

(* ===================================================================== *)
(** * Temp bans after a restart                                           *)
(* ===================================================================== *)

Section RearmingUnbans.

Lemma schedule_temp_unban_accurate (s : scheduler)
  (guild user unban_time log_no : Z) :
  registry_accurate false s ->
  registry_accurate false
    (schedule_temp_unban s guild user unban_time log_no).
Proof.
  intros Hacc user' h' Hreg. unfold schedule_temp_unban in *. simpl in *.
  destruct (decide (user' = user)) as [->|Hne].
  - rewrite lookup_insert_eq in Hreg. injection Hreg as <-.
    eexists. split; [apply list_lookup_middle; reflexivity|]. auto.
  - rewrite lookup_insert_ne in Hreg by congruence.
    destruct (Hacc _ _ Hreg) as (t & Ht & Hu & Hk).
    destruct (scheduled_unbans s !! user) as [h|] eqn:Hh.
    + destruct (cancel_keeps_task h h' _ t Ht) as (t' & Ht' & Hu' & Hk' & _).
      exists t'. rewrite lookup_app_l by (eapply lookup_lt_Some; eauto).
      split; [exact Ht'|]. split; congruence.
    + exists t. rewrite lookup_app_l by (eapply lookup_lt_Some; eauto).
      auto.
Qed.

Lemma schedule_temp_unban_has_timer (s : scheduler)
  (guild user unban_time log_no : Z) :
  has_unban_timer user (schedule_temp_unban s guild user unban_time log_no).
Proof.
  eexists. split; [apply lookup_insert_eq|].
  apply live_timers_spec. eexists.
  split; [apply list_lookup_middle; reflexivity|]. auto.
Qed.

Lemma schedule_temp_unban_keeps_timer (s : scheduler)
  (guild user user' unban_time log_no : Z) :
  registry_accurate false s -> user' <> user ->
  has_unban_timer user' s ->
  has_unban_timer user'
    (schedule_temp_unban s guild user unban_time log_no).
Proof.
  intros Hacc Hne (h' & Hreg & Hlive).
  apply live_timers_spec in Hlive as (t & Ht & Hp & Hu & Hk).
  exists h'. unfold schedule_temp_unban. simpl.
  rewrite lookup_insert_ne by congruence. split; [exact Hreg|].
  apply live_timers_spec. exists t. simpl.
  destruct (scheduled_unbans s !! user) as [h|] eqn:Hh.
  - destruct (Hacc _ _ Hh) as (t0 & Ht0 & Hu0 & _).
    assert (h' <> h) as Hdiff by (intros ->; congruence).
    destruct (cancel_keeps_task h h' _ t Ht) as (t' & Ht' & _ & _ & Heq).
    rewrite (Heq Hdiff) in Ht'.
    rewrite lookup_app_l by (eapply lookup_lt_Some; eauto). auto.
  - rewrite lookup_app_l by (eapply lookup_lt_Some; eauto). auto.
Qed.

End RearmingUnbans.

(** X30: [restore_active_temp_bans] after a restart: it touches neither
    the store nor the platform nor the scheduled role removals; every
    waiting unban task is still the registered one, since
    [schedule_temp_unban] cancels the member's old task itself; and every
    member with an active ban of the allowed guild that has an unban
    time has a registered waiting unban task afterwards, whether or not
    that time has passed already. *)
Theorem restore_active_temp_bans_rearms (w : world) :
  registered_only false (w_sched w) -> registry_accurate false (w_sched w) ->
  let w' := restore_active_temp_bans w in
  w_store w' = w_store w
  /\ w_platform w' = w_platform w
  /\ w_trace w' = w_trace w
  /\ scheduled_removals (w_sched w') = scheduled_removals (w_sched w)
  /\ registered_only false (w_sched w')
  /\ forall ban,
       In ban (get_active_temp_bans (w_store w) (Some ALLOWED_GUILD_ID)) ->
       timed_ban ban ->
       has_unban_timer (tb_user_id ban) (w_sched w').
Proof.
  intros Hreg Hacc w'. subst w'. unfold restore_active_temp_bans.
  generalize (get_active_temp_bans (w_store w) (Some ALLOWED_GUILD_ID)).
  intros bans.
  enough (forall w0,
    registered_only false (w_sched w0) ->
    registry_accurate false (w_sched w0) ->
    let w' := fold_left restore_ban bans w0 in
    (w_store w' = w_store w0 /\ w_platform w' = w_platform w0
     /\ w_trace w' = w_trace w0
     /\ scheduled_removals (w_sched w') = scheduled_removals (w_sched w0)
     /\ registered_only false (w_sched w'))
    /\ (forall user, has_unban_timer user (w_sched w0) ->
                     has_unban_timer user (w_sched w'))
    /\ forall ban, In ban bans -> timed_ban ban ->
                   has_unban_timer (tb_user_id ban) (w_sched w')) as Hgen.
  { destruct (Hgen w Hreg Hacc) as ((H1 & H2 & H3 & H4 & H5) & _ & H6).
    split_and!; auto. }
  clear w Hreg Hacc.
  induction bans as [|ban bans IH]; intros w Hreg Hacc.
  - simpl. split_and!; auto. now intros ban [].
  - cbn [fold_left].
    assert (Hstep :
      w_store (restore_ban w ban) = w_store w
      /\ w_platform (restore_ban w ban) = w_platform w
      /\ w_trace (restore_ban w ban) = w_trace w
      /\ scheduled_removals (w_sched (restore_ban w ban))
         = scheduled_removals (w_sched w)
      /\ registered_only false (w_sched (restore_ban w ban))
      /\ registry_accurate false (w_sched (restore_ban w ban))
      /\ (forall user, has_unban_timer user (w_sched w) ->
                       has_unban_timer user (w_sched (restore_ban w ban)))
      /\ (timed_ban ban ->
          has_unban_timer (tb_user_id ban) (w_sched (restore_ban w ban)))).
    { unfold restore_ban.
      destruct (tb_unban_time ban) as [t|] eqn:Ht.
      - destruct (t =? 0) eqn:H0.
        + split_and!; auto. intros (t' & Hsome & Hne).
          rewrite Ht in Hsome. injection Hsome as <-.
          apply Z.eqb_eq in H0. contradiction.
        + simpl. split_and!; auto.
          * now apply schedule_temp_unban_registered_only.
          * now apply schedule_temp_unban_accurate.
          * intros u Hu. destruct (decide (u = tb_user_id ban)) as [->|Hne].
            -- apply schedule_temp_unban_has_timer.
            -- now apply schedule_temp_unban_keeps_timer.
          * intros _. apply schedule_temp_unban_has_timer.
      - split_and!; auto. intros (t' & Hsome & _).
        rewrite Ht in Hsome. discriminate. }
    destruct Hstep as (S1 & S2 & S3 & S4 & S5 & S6 & S7 & S8).
    destruct (IH (restore_ban w ban) S5 S6)
      as ((H1 & H2 & H3 & H4 & H5) & H6 & H7).
    split; [split_and!; auto; congruence|].
    split; [intros u Hu; now apply H6, S7|].
    intros b [<- | Hb] Htimed; [now apply H6, S8|now apply H7].
Qed.

Lemma restore_active_temp_bans_rearms_witness :
  has_unban_timer 7
    (w_sched (restore_active_temp_bans
                (mk_world (w_store banned_in_allowed_guild) empty_scheduler
                   (mk_platform ∅ ∅ {[7]}) []))).
Proof.
  assert (Hacc : registry_accurate false empty_scheduler)
    by (intros u h H; vm_compute in H; discriminate).
  refine (proj2 (proj2 (proj2 (proj2 (proj2
            (restore_active_temp_bans_rearms
               (mk_world (w_store banned_in_allowed_guild) empty_scheduler
                  (mk_platform ∅ ∅ {[7]}) [])
               (registered_only_empty false) Hacc)))))
            (mk_temp_ban ALLOWED_GUILD_ID 7 99 3 "400m" (Some 500)
               "Temp ban for log #3" 100 false None false None) _ _).
  - vm_compute. now left.
  - exists 500. split; [reflexivity|discriminate].
Defined.
